(** * Wireless Communication System, server side

    A shallow embedding of the cue server's data management
    ([Dependencies/DataManagement/Server.py], [Base.py]) and of its
    transport layer ([Dependencies/Communication/__init__.py]), with the
    properties of the cue compiler, the cue navigator, the node status
    aggregator and the codec that the specification states.

    Python values are modelled as follows.  Integers are [Z].  A byte
    string is a [list byte].  A cell of a pandas frame is an [option]:
    [None] is [numpy.nan].  A method that can raise returns an [outcome];
    a method of [ServerDataManagement] takes the object's state and
    returns the new state together with its outcome, because the state
    keeps what was written before an exception was raised. *)

From Stdlib Require Import ZArith List Bool Lia.
From Stdlib.Strings Require Import String Ascii Byte.
From Stdlib Require Import Numbers.DecimalString.
From Stdlib Require Import Sorting.Permutation Sorting.Sorted.
From Stdlib Require Import Floats.SpecFloat.
Import ListNotations.

(** ** Exceptions and outcomes *)

Inductive exn : Type :=
| ValueError
| UnboundLocalError
| KeyError
| OutOfBounds
| FormatCheckError (problem solution : string)
| FormatCheckWarning (problem solution : string)
| FormatError (dataframe problem solution : string)
| FormatWarning (dataframe problem solution : string).

Inductive outcome (A : Type) : Type :=
| Return (a : A)
| Raise (e : exn).

Arguments Return {A} a.
Arguments Raise {A} e.

Definition bind {A B : Type} (m : outcome A) (k : A -> outcome B) : outcome B :=
  match m with
  | Return a => k a
  | Raise e => Raise e
  end.

Notation "x <- m ;; k" := (bind m (fun x => k))
  (at level 61, m at next level, right associativity).

(** ** Transport layer: [Communication] *)

Module Communication.

Definition bytes := list byte.

(** *** [codecs.escape_decode]

    The decoder of CPython's [bytesobject.c].  [__data_decode] passes
    ['hex'] as the [errors] argument; that is no error handler the
    decoder knows, so an invalid [\x] escape raises [ValueError], as does
    a trailing backslash. *)

Definition is_octal (b : byte) : bool :=
  let n := Byte.to_N b in ((48 <=? n) && (n <=? 55))%N.

(** [_PyLong_DigitValue]: 37 stands for a byte that is no digit. *)
Definition digit_value (b : byte) : N :=
  let n := Byte.to_N b in
  if ((48 <=? n) && (n <=? 57))%N then (n - 48)%N
  else if ((97 <=? n) && (n <=? 122))%N then (n - 87)%N
  else if ((65 <=? n) && (n <=? 90))%N then (n - 55)%N
  else 37%N.

Definition byte_of_N (n : N) : byte :=
  match Byte.of_N (n mod 256) with
  | Some b => b
  | None => x00
  end.

Definition octal_value (b : byte) : N := (Byte.to_N b - 48)%N.

Definition emit (b : byte) (r : outcome bytes) : outcome bytes :=
  rest <- r ;; Return (b :: rest).

Fixpoint escape_decode (s : bytes) : outcome bytes :=
  match s with
  | [] => Return []
  | x5c :: s1 =>
      match s1 with
      | [] => Raise ValueError
      | c :: s2 =>
          match c with
          | x0a => escape_decode s2
          | x5c => emit x5c (escape_decode s2)
          | x27 => emit x27 (escape_decode s2)
          | x22 => emit x22 (escape_decode s2)
          | x62 => emit x08 (escape_decode s2)
          | x66 => emit x0c (escape_decode s2)
          | x74 => emit x09 (escape_decode s2)
          | x6e => emit x0a (escape_decode s2)
          | x72 => emit x0d (escape_decode s2)
          | x76 => emit x0b (escape_decode s2)
          | x61 => emit x07 (escape_decode s2)
          | x30 | x31 | x32 | x33 | x34 | x35 | x36 | x37 =>
              match s2 with
              | d2 :: s3 =>
                  if is_octal d2 then
                    match s3 with
                    | d3 :: s4 =>
                        if is_octal d3 then
                          emit (byte_of_N ((octal_value c * 8 + octal_value d2) * 8
                                           + octal_value d3))
                               (escape_decode s4)
                        else
                          emit (byte_of_N (octal_value c * 8 + octal_value d2))
                               (escape_decode s3)
                    | [] =>
                        emit (byte_of_N (octal_value c * 8 + octal_value d2))
                             (escape_decode s3)
                    end
                  else emit (byte_of_N (octal_value c)) (escape_decode s2)
              | [] => emit (byte_of_N (octal_value c)) (escape_decode s2)
              end
          | x78 =>
              match s2 with
              | h1 :: h2 :: s3 =>
                  if ((digit_value h1 <? 16) && (digit_value h2 <? 16))%N then
                    emit (byte_of_N (digit_value h1 * 16 + digit_value h2))
                         (escape_decode s3)
                  else Raise ValueError
              | _ => Raise ValueError
              end
          | _ => emit x5c (emit c (escape_decode s2))
          end
      end
  | b :: s1 => emit b (escape_decode s1)
  end.

(** *** [bytes.split], [in], [strip], [lstrip] *)

(** [data.split(sep)] for a separator of two bytes [a b]; [acc] holds the
    current piece in reverse. *)
Fixpoint split2 (a b : byte) (s : bytes) (acc : bytes) : list bytes :=
  match s with
  | [] => [rev acc]
  | c :: s1 =>
      match s1 with
      | d :: s2 =>
          if Byte.eqb c a && Byte.eqb d b then rev acc :: split2 a b s2 []
          else split2 a b s1 (c :: acc)
      | [] => split2 a b s1 (c :: acc)
      end
  end.

(** [b'.' in element] *)
Definition contains (b : byte) (s : bytes) : bool := existsb (Byte.eqb b) s.

Fixpoint lstrip_with (p : byte -> bool) (s : bytes) : bytes :=
  match s with
  | [] => []
  | c :: s1 => if p c then lstrip_with p s1 else s
  end.

Definition rstrip_with (p : byte -> bool) (s : bytes) : bytes :=
  rev (lstrip_with p (rev s)).

(** The bytes that [bytes.strip()] removes: space, tab, line feed,
    carriage return, vertical tab and form feed. *)
Definition is_space (b : byte) : bool :=
  match b with
  | x20 | x09 | x0a | x0d | x0b | x0c => true
  | _ => false
  end.

Definition strip (s : bytes) : bytes := rstrip_with is_space (lstrip_with is_space s).

Definition is_quote (b : byte) : bool := Byte.eqb b x22.

(** [element.strip().lstrip(q)], with [q] the double quote. *)
Definition clean (element : bytes) : bytes := lstrip_with is_quote (strip element).

(** The records that reach [loads]: the response un-escaped twice, split
    on a double quote followed by a comma, the pieces without a dot left
    out, the rest stripped. *)
Definition records (data : bytes) : outcome (list bytes) :=
  d1 <- escape_decode data ;;
  d2 <- escape_decode d1 ;;
  Return (map clean (filter (contains x2e) (split2 x22 x2c d2 []))).

(** *** [pickle.loads]

    The unpickler is a library function; the codec is stated over any
    [loads].  What matters to [__data_decode] is whether a call returns,
    raises [UnpicklingError], or raises something else ([EOFError],
    [AttributeError], ...). *)

Inductive load_outcome (V : Type) : Type :=
| Loaded (v : V)
| RaiseUnpickling
| RaiseOther.

Arguments Loaded {V} v.
Arguments RaiseUnpickling {V}.
Arguments RaiseOther {V}.

Section Codec.

Variable V : Type.
Variable loads : bytes -> load_outcome V.

(** [[loads(element) for element in data]]: the first call that raises
    ends the comprehension. *)
Fixpoint loads_all (data : list bytes) : load_outcome (list V) :=
  match data with
  | [] => Loaded []
  | element :: rest =>
      match loads element with
      | Loaded v =>
          match loads_all rest with
          | Loaded vs => Loaded (v :: vs)
          | RaiseUnpickling => RaiseUnpickling
          | RaiseOther => RaiseOther
          end
      | RaiseUnpickling => RaiseUnpickling
      | RaiseOther => RaiseOther
      end
  end.

(** [__data_decode].  The two [escape_decode] calls are outside the
    [try].  Inside it, [UnpicklingError] sets [decodedObjects] to the
    empty list; any other exception leaves [decodedObjects] unbound, so
    the [return] in the [finally] clause raises [UnboundLocalError]. *)
Definition __data_decode (data : bytes) : outcome (list V) :=
  elements <- records data ;;
  match loads_all elements with
  | Loaded decodedObjects => Return decodedObjects
  | RaiseUnpickling => Return []
  | RaiseOther => Raise UnboundLocalError
  end.

(** What [receive_data] hands back: [None], one decoded object, or the
    list of them. *)
Inductive received : Type :=
| RNone
| RValue (v : V)
| RList (l : list V).

(** The object's two dictionaries, keyed by the datatype number. *)
Record CommState : Type := {
  sent_data_dict : list (Z * V);
  received_data_dict : list (Z * list V)
}.

Fixpoint dict_update {A : Type} (k : Z) (a : A) (d : list (Z * A)) : list (Z * A) :=
  match d with
  | [] => [(k, a)]
  | (k', a') :: d' => if (k =? k')%Z then (k, a) :: d' else (k', a') :: dict_update k a d'
  end.

(** [receive_data]; [output] is what the request process printed. *)
Definition receive_data (st : CommState) (datatype : Z) (output : bytes)
    (singular : bool) : CommState * outcome received :=
  match __data_decode output with
  | Raise e => (st, Raise e)
  | Return data =>
      let st' := {| sent_data_dict := sent_data_dict st;
                    received_data_dict := dict_update datatype data (received_data_dict st) |} in
      match data with
      | [] => (st', Return RNone)
      | v :: rest =>
          if (List.length data =? 1)%nat && singular then (st', Return (RValue v))
          else (st', Return (RList data))
      end
  end.

(** The decoder the specification describes: every record is tried on
    its own and the ones that fail are left out. *)
Fixpoint decode_keeping_successes (data : list bytes) : list V :=
  match data with
  | [] => []
  | element :: rest =>
      match loads element with
      | Loaded v => v :: decode_keeping_successes rest
      | _ => decode_keeping_successes rest
      end
  end.

End Codec.

Arguments loads_all {V} loads data.
Arguments __data_decode {V} loads data.
Arguments decode_keeping_successes {V} loads data.
Arguments receive_data {V} loads st datatype output singular.
Arguments sent_data_dict {V} c.
Arguments received_data_dict {V} c.
Arguments RNone {V}.
Arguments RValue {V} v.
Arguments RList {V} l.

(** [d[k]]: nothing for a key the dictionary does not have. *)
Fixpoint dict_get {A : Type} (k : Z) (d : list (Z * A)) : option A :=
  match d with
  | [] => None
  | (k', a) :: d' => if (k =? k')%Z then Some a else dict_get k d'
  end.

(** [send_message], as far as the object goes: the data is noted under
    its datatype.  The pickle file it writes and the process it starts
    are outside the state. *)
Definition send_message {V : Type} (st : CommState V) (data : V) (datatype : Z)
    : CommState V :=
  {| sent_data_dict := dict_update datatype data (sent_data_dict st);
     received_data_dict := received_data_dict st |}.

(** No backslash in the byte string. *)
Definition plain (s : bytes) : bool := negb (existsb (Byte.eqb x5c) s).

End Communication.

(** *** A fragment of the unpickler, for concrete responses

    The opcodes [PROTO], [NONE], [BININT1], [NEWTRUE], [NEWFALSE] and
    [STOP] of the pickle virtual machine: the pickles of [None], of a
    truth value and of an integer below 256.  A byte that is no opcode of
    any protocol is an invalid load key ([UnpicklingError]), as are a
    truncated argument and a [STOP] on an empty stack; input that ends
    where an opcode is expected raises [EOFError], and a protocol above 5
    raises [ValueError].  The remaining opcodes are outside the fragment:
    what it answers for them says nothing of [pickle.loads], and the
    examples below use none of them. *)

Module Pickle.

Import Communication.

Inductive pyvalue : Type :=
| PyNone
| PyInt (n : N)
| PyBool (b : bool).

Definition is_opcode (b : byte) : bool :=
  match b with
  | x28 | x29 | x2e | x30 | x31 | x32 | x42 | x43 | x46 | x47 | x49 | x4a | x4b
  | x4c | x4d | x4e | x50 | x51 | x52 | x53 | x54 | x55 | x56 | x58 | x5d | x61
  | x62 | x63 | x64 | x65 | x67 | x68 | x69 | x6a | x6c | x6f | x70 | x71 | x72
  | x73 | x74 | x75 | x7d
  | x80 | x81 | x82 | x83 | x84 | x85 | x86 | x87 | x88 | x89 | x8a | x8b | x8c
  | x8d | x8e | x8f | x90 | x91 | x92 | x93 | x94 | x95 | x96 | x97 | x98 => true
  | _ => false
  end.

Fixpoint run (s : bytes) (stack : list pyvalue) : load_outcome pyvalue :=
  match s with
  | [] => RaiseOther
  | op :: s1 =>
      match op with
      | x4e => run s1 (PyNone :: stack)
      | x88 => run s1 (PyBool true :: stack)
      | x89 => run s1 (PyBool false :: stack)
      | x4b =>
          match s1 with
          | arg :: s2 => run s2 (PyInt (Byte.to_N arg) :: stack)
          | [] => RaiseUnpickling
          end
      | x2e =>
          match stack with
          | v :: _ => Loaded v
          | [] => RaiseUnpickling
          end
      | x80 =>
          match s1 with
          | version :: s2 =>
              if (Byte.to_N version <=? 5)%N then run s2 stack else RaiseOther
          | [] => RaiseUnpickling
          end
      | _ => if is_opcode op then RaiseOther else RaiseUnpickling
      end
  end.

Definition loads (s : bytes) : load_outcome pyvalue := run s [].

End Pickle.

(** ** Data management: [ServerDataManagement] *)

Module ServerDataManagement.

Local Open Scope string_scope.
Local Open Scope list_scope.
Local Open Scope Z_scope.

(** *** Frames *)

(** A cell holds a string, or is missing ([nan]); a cell that pandas
    reads as a number is not represented.  A string is the sequence of
    its code points, each below 256. *)
Definition cell := option string.

Definition cell_is (c : cell) (s : string) : bool :=
  match c with
  | Some x => String.eqb x s
  | None => false
  end.

Definition cell_eqb (a b : cell) : bool :=
  match a, b with
  | Some x, Some y => String.eqb x y
  | None, None => true
  | _, _ => false
  end.

Definition isna {A : Type} (c : option A) : bool :=
  match c with
  | Some _ => false
  | None => true
  end.

(** A number held by the object: an integer, or [nan], which is what
    [max()] gives on an empty column. *)
Inductive pynum : Type :=
| Int (z : Z)
| NaN.

(** A row over the six columns of a cue frame.  A column the frame does
    not have reads [None].  The index of a raw table is its first column,
    whichever that is: the callers read every file with [index_col=0]
    (see [index_column]). *)
Record Row : Type := {
  cueGroupNumber : option Z;
  cueNumber : cell;
  cuePrefix : cell;
  when : cell;
  action : cell;
  cueState : cell
}.

(** A frame: [names] is the list [reset_index().columns], index first.
    Cells of a column outside the six above are not represented; no path
    below reads one. *)
Record DataFrame : Type := {
  names : list string;
  rows : list Row
}.

Record Attribute : Type := {
  macAddress : cell;
  nodeNumber : cell;
  nodeName : cell;
  attrCuePrefix : cell
}.

Record StateRow : Type := {
  stCueState : cell;
  initialNodeState : cell;
  finalNodeState : cell
}.

(** A row of the nodes frame, keyed by its cue number.  [nTimestamp] is
    [Some t] for a [pd.Timestamp] of [t] nanoseconds and [None] for
    anything else. *)
Record NodeRow : Type := {
  nCueNumber : cell;
  nWhen : cell;
  nAction : cell;
  nCueState : cell;
  nNodeNumber : cell;
  nNodeState : cell;
  nTimestamp : option Z;
  nLastUpdated : cell
}.

(** The nodes frame; [hasLastUpdated] says whether the Last Updated
    column exists. *)
Record NodesFrame : Type := {
  hasLastUpdated : bool;
  nodeRows : list NodeRow
}.

(** A node series as received.  [sCueNumber] is [None] for a series
    without the label Cue Number and [Some c] for one that holds [c]
    under it; for the other labels [None] stands for a label that is
    missing or holds [nan], which the assignment to a row does not tell
    apart. *)
Record Series : Type := {
  sCueNumber : option cell;
  sWhen : cell;
  sAction : cell;
  sCueState : cell;
  sNodeNumber : cell;
  sNodeState : cell;
  sTimestamp : option Z;
  sLastUpdated : cell
}.

(** The state of a [ServerDataManagement] object: the three user frames,
    the two derived frames, the [IntManager] and [maxCueGroup]. *)
Record ServerData : Type := {
  attributes : list Attribute;
  states : list StateRow;
  allCues : DataFrame;
  currentCues : list Row;
  nodes : NodesFrame;
  cueNum : pynum;
  maxCueGroup : pynum
}.

Definition set_allCues (st : ServerData) (df : DataFrame) : ServerData :=
  {| attributes := attributes st; states := states st; allCues := df;
     currentCues := currentCues st; nodes := nodes st; cueNum := cueNum st;
     maxCueGroup := maxCueGroup st |}.

Definition set_currentCues (st : ServerData) (cs : list Row) : ServerData :=
  {| attributes := attributes st; states := states st; allCues := allCues st;
     currentCues := cs; nodes := nodes st; cueNum := cueNum st;
     maxCueGroup := maxCueGroup st |}.

Definition set_nodes (st : ServerData) (ns : NodesFrame) : ServerData :=
  {| attributes := attributes st; states := states st; allCues := allCues st;
     currentCues := currentCues st; nodes := ns; cueNum := cueNum st;
     maxCueGroup := maxCueGroup st |}.

Definition set_cueNum (st : ServerData) (n : pynum) : ServerData :=
  {| attributes := attributes st; states := states st; allCues := allCues st;
     currentCues := currentCues st; nodes := nodes st; cueNum := n;
     maxCueGroup := maxCueGroup st |}.

Definition set_maxCueGroup (st : ServerData) (n : pynum) : ServerData :=
  {| attributes := attributes st; states := states st; allCues := allCues st;
     currentCues := currentCues st; nodes := nodes st; cueNum := cueNum st;
     maxCueGroup := n |}.

(** *** [update_max_cue_group] *)

Definition has_name (n : string) (df : DataFrame) : bool :=
  existsb (String.eqb n) (names df).

(** [Series.max()]: missing values are skipped, an empty column gives
    [nan]. *)
Fixpoint column_max (col : list (option Z)) : pynum :=
  match col with
  | [] => NaN
  | c :: rest =>
      match c, column_max rest with
      | None, m => m
      | Some z, NaN => Int z
      | Some z, Int m => Int (Z.max z m)
      end
  end.

Definition update_max_cue_group (st : ServerData) : ServerData * outcome unit :=
  if has_name "Cue Group Number" (allCues st) then
    (set_maxCueGroup st (column_max (map cueGroupNumber (rows (allCues st)))), Return tt)
  else (st, Raise KeyError).

(** *** [__get_prefix] *)

(** [str.isdigit] on one character.  A string is the sequence of its
    code points, each below 256; there the digits are 0 to 9 and the
    superscripts two, three and one (178, 179 and 185). *)
Definition isdigit (c : ascii) : bool :=
  let n := nat_of_ascii c in
  (((48 <=? n) && (n <=? 57)) || (n =? 178) || (n =? 179) || (n =? 185))%nat.

Fixpoint strip_digits (s : string) : string :=
  match s with
  | EmptyString => EmptyString
  | String c s' =>
      if negb (isdigit c) && negb (Ascii.eqb c ".") then String c (strip_digits s')
      else strip_digits s'
  end.

Definition last_row_storage : string := "last_row_storage".

Definition __get_prefix (attrs : list Attribute) (cueNum : string) : outcome cell :=
  let potentialPrefix := strip_digits cueNum in
  let prefix := filter (fun p => cell_is p potentialPrefix) (map attrCuePrefix attrs) in
  match prefix with
  | [p] => Return p
  | _ =>
      if String.eqb cueNum last_row_storage then Return None
      else Raise (FormatCheckError
                    ("cue prefix (" ++ cueNum ++ ")")%string
                    " and you should make sure you assigned a node the prefix in the attributes sheet.")
  end.

(** *** [__check_columns_names] *)

Fixpoint insert_sorted (x : string) (l : list string) : list string :=
  match l with
  | [] => [x]
  | y :: l' => if String.leb x y then x :: l else y :: insert_sorted x l'
  end.

(** [list.sort()] on strings. *)
Fixpoint sort (l : list string) : list string :=
  match l with
  | [] => []
  | x :: l' => insert_sorted x (sort l')
  end.

Fixpoint list_eqb (l1 l2 : list string) : bool :=
  match l1, l2 with
  | [], [] => true
  | x :: l1', y :: l2' => String.eqb x y && list_eqb l1' l2'
  | _, _ => false
  end.

Definition __check_columns_names (df : DataFrame) (column_names : list string)
    : outcome unit :=
  if list_eqb (sort (names df)) (sort column_names) then Return tt
  else Raise (FormatCheckError
                "column titles"
                (" because they do not consist of the following: "
                 ++ String.concat ", " column_names)%string).

(** *** [reset_nodes] and [format_current_cues] *)

(** The empty shell of a cue: the four cue columns kept, Node Number,
    Node State and Timestamp missing. *)
Definition node_shell (r : Row) : NodeRow :=
  {| nCueNumber := cueNumber r; nWhen := when r; nAction := action r;
     nCueState := cueState r; nNodeNumber := None; nNodeState := None;
     nTimestamp := None; nLastUpdated := None |}.

Definition reset_nodes (st : ServerData) : ServerData :=
  set_nodes st {| hasLastUpdated := false; nodeRows := map node_shell (currentCues st) |}.

Definition in_group (g : Z) (r : Row) : bool :=
  match cueGroupNumber r with
  | Some g' => (g' =? g)%Z
  | None => false
  end.

(** The row of a group once the group level of the index is dropped. *)
Definition drop_group (r : Row) : Row :=
  {| cueGroupNumber := None; cueNumber := cueNumber r; cuePrefix := cuePrefix r;
     when := when r; action := action r; cueState := cueState r |}.

(** [int(self.cueNum)] *)
Definition int_of (n : pynum) : outcome Z :=
  match n with
  | Int z => Return z
  | NaN => Raise ValueError
  end.

Definition format_current_cues (st : ServerData) : ServerData * outcome unit :=
  match int_of (cueNum st) with
  | Raise e => (st, Raise e)
  | Return g =>
      match filter (in_group g) (rows (allCues st)) with
      | [] => (st, Raise KeyError)
      | currentFrame =>
          (reset_nodes (set_currentCues st (map drop_group currentFrame)), Return tt)
      end
  end.

(** *** The cue navigator *)

Definition pynum_is (n : pynum) (z : Z) : bool :=
  match n with
  | Int x => (x =? z)%Z
  | NaN => false
  end.

Definition pynum_add (n : pynum) (z : Z) : pynum :=
  match n with
  | Int x => Int (x + z)
  | NaN => NaN
  end.

Definition previous_cue (st : ServerData) : ServerData * outcome unit :=
  if pynum_is (cueNum st) 0 then format_current_cues (set_cueNum st (maxCueGroup st))
  else format_current_cues (set_cueNum st (pynum_add (cueNum st) (-1))).

Definition next_cue (st : ServerData) : ServerData * outcome unit :=
  match int_of (cueNum st) with
  | Raise e => (st, Raise e)
  | Return c =>
      if pynum_is (maxCueGroup st) c then format_current_cues (set_cueNum st (Int 0))
      else format_current_cues (set_cueNum st (pynum_add (cueNum st) 1))
  end.

(** [cueNum >= 0 and cueNum <= self.maxCueGroup]; a comparison with
    [nan] is false. *)
Definition in_range (n : Z) (m : pynum) : bool :=
  match m with
  | Int x => ((0 <=? n) && (n <=? x))%Z
  | NaN => false
  end.

Definition warp_cue (st : ServerData) (n : Z) : ServerData * outcome bool :=
  if in_range n (maxCueGroup st) then
    match format_current_cues (set_cueNum st (Int n)) with
    | (st', Return _) => (st', Return true)
    | (st', Raise e) => (st', Raise e)
    end
  else (st, Return false).

(** A navigation call made [k] times; an exception ends the sequence. *)
Fixpoint repeat_call (op : ServerData -> ServerData * outcome unit) (k : nat)
    (st : ServerData) : ServerData * outcome unit :=
  match k with
  | O => (st, Return tt)
  | S k' =>
      match op st with
      | (st', Return _) => repeat_call op k' st'
      | (st', Raise e) => (st', Raise e)
      end
  end.

(** *** [format_all_cues] *)

Definition blank_cells (c : cell) : Row :=
  {| cueGroupNumber := None; cueNumber := c; cuePrefix := None;
     when := None; action := None; cueState := None |}.

(** [dataframe.loc['last_row_storage'] = nan] when Cue Number is the
    index: a row with that label is blanked if there is one, otherwise
    the row is added at the end.  See [loc_last_row_storage] for any
    index. *)
Definition set_last_row_storage (rs : list Row) : list Row :=
  if existsb (fun r => cell_is (cueNumber r) last_row_storage) rs then
    map (fun r => if cell_is (cueNumber r) last_row_storage
                  then blank_cells (cueNumber r) else r) rs
  else rs ++ [blank_cells (Some last_row_storage)].

Definition data3 : Type := cell * cell * cell.

Definition get_data3 (r : Row) : data3 := (when r, action r, cueState r).

Definition set_data3 (r : Row) (d : data3) : Row :=
  let '(w, a, s) := d in
  {| cueGroupNumber := cueGroupNumber r; cueNumber := cueNumber r;
     cuePrefix := cuePrefix r; when := w; action := a; cueState := s |}.

(** [dataframe.shift()] while Cue Number is the index: the three columns
    move down by one row.  See [shift_frame] for any index. *)
Fixpoint shift_down (prev : data3) (rs : list Row) : list Row :=
  match rs with
  | [] => []
  | r :: rest => set_data3 r prev :: shift_down (get_data3 r) rest
  end.

Definition shift (rs : list Row) : list Row := shift_down (None, None, None) rs.

(** [dropna(how='all')] once Cue Number is a column. *)
Definition all_na (r : Row) : bool :=
  isna (cueNumber r) && isna (when r) && isna (action r) && isna (cueState r).

Definition dropna_all (rs : list Row) : list Row := filter (fun r => negb (all_na r)) rs.

(** The loop over [indexValues]. *)
Fixpoint group_loop (attrs : list Attribute) (indexValues : list cell) (groupNum : Z)
    (group_column : list Z) (prefix_column : list cell)
    : outcome (list Z * list cell) :=
  match indexValues with
  | [] => Return (group_column, prefix_column)
  | index :: rest =>
      match index with
      | None =>
          group_loop attrs rest (groupNum + 1)
                     (group_column ++ [groupNum + 1]) (prefix_column ++ [None])
      | Some cue =>
          p <- __get_prefix attrs cue ;;
          group_loop attrs rest groupNum (group_column ++ [groupNum]) (prefix_column ++ [p])
      end
  end.

Definition set_group_prefix (r : Row) (g : Z) (p : cell) : Row :=
  {| cueGroupNumber := Some g; cueNumber := cueNumber r; cuePrefix := p;
     when := when r; action := action r; cueState := cueState r |}.

(** The two column assignments.  The lists have the length of the frame
    (see [group_loop_lengths]); pandas raises on any other length. *)
Fixpoint assign_columns (rs : list Row) (gs : list Z) (ps : list cell) : list Row :=
  match rs, gs, ps with
  | r :: rs', g :: gs', p :: ps' => set_group_prefix r g p :: assign_columns rs' gs' ps'
  | _, _, _ => []
  end.

Definition data4 : Type := cell * cell * cell * cell.

Definition get_data4 (r : Row) : data4 := (cuePrefix r, when r, action r, cueState r).

Definition set_data4 (r : Row) (d : data4) : Row :=
  let '(p, w, a, s) := d in
  {| cueGroupNumber := cueGroupNumber r; cueNumber := cueNumber r;
     cuePrefix := p; when := w; action := a; cueState := s |}.

(** [dataframe.shift(-1)] while the group and the cue number are the
    index: the other four columns move up by one row. *)
Fixpoint shift_up (rs : list Row) : list Row :=
  match rs with
  | [] => []
  | r :: rest =>
      set_data4 r (match rest with
                   | [] => (None, None, None, None)
                   | r' :: _ => get_data4 r'
                   end) :: shift_up rest
  end.

(** [dropna()]: a row with a missing value in any column goes. *)
Definition any_na (r : Row) : bool :=
  isna (cuePrefix r) || isna (when r) || isna (action r) || isna (cueState r).

Definition dropna (rs : list Row) : list Row := filter (fun r => negb (any_na r)) rs.

Definition raw_column_names : list string :=
  ["Cue Number"; "When"; "Action"; "Cue State"].

Definition formatted_column_names : list string :=
  ["Cue Group Number"; "Cue Number"; "Cue Prefix"; "When"; "Action"; "Cue State"].

(** The columns once the group and the prefix are in place. *)
Definition formatted_names (ns : list string) : list string :=
  "Cue Group Number" :: "Cue Number" :: "Cue Prefix"
    :: filter (fun n => negb (String.eqb n "Cue Number")) ns.

(** [state not in possible_cue_states] for some state of the frame. *)
Definition in_states (sts : list StateRow) (c : cell) : bool :=
  match c with
  | Some s => existsb (fun r => cell_is (stCueState r) s) sts
  | None => false
  end.

Definition check_cue_states (sts : list StateRow) (df : DataFrame) : outcome unit :=
  if existsb (fun r => negb (in_states sts (cueState r))) (rows df) then
    Raise (FormatCheckError
             "cue states"
             ". Make sure the cue states you entered for this sheet match the cue states in the states sheet.")
  else Return tt.

(** The checks that close the [try] block. *)
Definition final_checks (sts : list StateRow) (df : DataFrame) : DataFrame * outcome unit :=
  (df, _ <- __check_columns_names df formatted_column_names ;; check_cue_states sts df).

(** The four columns of a raw table. *)
Inductive column : Type :=
| ColCueNumber
| ColWhen
| ColAction
| ColCueState.

Definition column_of (title : string) : column :=
  if String.eqb title "When" then ColWhen
  else if String.eqb title "Action" then ColAction
  else if String.eqb title "Cue State" then ColCueState
  else ColCueNumber.

(** The index of a raw table is its first column: the callers read
    every file with [index_col=0].  Past the check of the titles the
    first title is one of the four. *)
Definition index_column (df : DataFrame) : column :=
  match names df with
  | title :: _ => column_of title
  | [] => ColCueNumber
  end.

Definition get_cell (c : column) (r : Row) : cell :=
  match c with
  | ColCueNumber => cueNumber r
  | ColWhen => when r
  | ColAction => action r
  | ColCueState => cueState r
  end.

(** The row with the label [label] in the index column [ix] and every
    other cell missing. *)
Definition labelled (ix : column) (label : cell) : Row :=
  {| cueGroupNumber := None;
     cueNumber := match ix with ColCueNumber => label | _ => None end;
     cuePrefix := None;
     when := match ix with ColWhen => label | _ => None end;
     action := match ix with ColAction => label | _ => None end;
     cueState := match ix with ColCueState => label | _ => None end |}.

(** [dataframe.loc['last_row_storage'] = nan] on a frame whose index is
    the column [ix]: the rows with that label are blanked if there are
    any, otherwise the row is added at the end. *)
Definition loc_last_row_storage (ix : column) (rs : list Row) : list Row :=
  if existsb (fun r => cell_is (get_cell ix r) last_row_storage) rs then
    map (fun r => if cell_is (get_cell ix r) last_row_storage
                  then labelled ix (get_cell ix r) else r) rs
  else rs ++ [labelled ix (Some last_row_storage)].

(** The row [r] with, in every column but [ix], the cell of [d]. *)
Definition cells_but (ix : column) (r d : Row) : Row :=
  {| cueGroupNumber := cueGroupNumber r;
     cueNumber := match ix with ColCueNumber => cueNumber r | _ => cueNumber d end;
     cuePrefix := cuePrefix r;
     when := match ix with ColWhen => when r | _ => when d end;
     action := match ix with ColAction => action r | _ => action d end;
     cueState := match ix with ColCueState => cueState r | _ => cueState d end |}.

(** [dataframe.shift()] on a frame whose index is the column [ix]: every
    other column moves down by one row, the first row gets missing
    values. *)
Fixpoint shift_from (ix : column) (prev : Row) (rs : list Row) : list Row :=
  match rs with
  | [] => []
  | r :: rest => cells_but ix r prev :: shift_from ix r rest
  end.

Definition shift_frame (ix : column) (rs : list Row) : list Row :=
  shift_from ix (labelled ix None) rs.

(** The [try] block: the value of the local [dataframe] when the block
    ends, and how it ends. *)
Definition try_block (st : ServerData) (dataframe : DataFrame) (formatted : bool)
    : DataFrame * outcome unit :=
  if negb formatted then
    match __check_columns_names dataframe raw_column_names with
    | Raise e => (dataframe, Raise e)
    | Return _ =>
        let ix := index_column dataframe in
        let shifted :=
          {| names := names dataframe;
             rows := dropna_all (shift_frame ix
                                   (loc_last_row_storage ix (rows dataframe))) |} in
        match group_loop (attributes st) (map cueNumber (rows shifted)) 0 [] [None] with
        | Raise e => (shifted, Raise e)
        | Return (group_column, prefix_column) =>
            final_checks (states st)
              {| names := formatted_names (names dataframe);
                 rows := dropna (shift_up (assign_columns (rows shifted) group_column
                                                          (removelast prefix_column))) |}
        end
    end
  else
    if has_name "Cue Group Number" dataframe && has_name "Cue Number" dataframe then
      final_checks (states st)
        {| names := "Cue Group Number" :: "Cue Number"
                      :: filter (fun n => negb (String.eqb n "Cue Group Number")
                                          && negb (String.eqb n "Cue Number"))
                                (names dataframe);
           rows := rows dataframe |}
    else (dataframe, Raise KeyError).

Definition format_all_cues (st : ServerData) (dataframe : DataFrame) (formatted : bool)
    : ServerData * outcome unit :=
  match try_block st dataframe formatted with
  | (df, Raise (FormatCheckWarning problem solution)) =>
      (set_allCues st df, Raise (FormatWarning "all cues" problem solution))
  | (df, Raise (FormatCheckError problem solution)) =>
      (st, Raise (FormatError "all cues" problem solution))
  | (df, Raise e) => (st, Raise e)
  | (df, Return _) =>
      match update_max_cue_group (set_allCues st df) with
      | (st1, Raise e) => (st1, Raise e)
      | (st1, Return _) =>
          match warp_cue st1 0 with
          | (st2, Raise e) => (st2, Raise e)
          | (st2, Return _) => (st2, Return tt)
          end
      end
  end.

(** *** The node status aggregator *)

Definition ns_per_minute : Z := 60000000000.

(** [round(x)] for [x = num / den] with [den > 0]: to the nearest
    integer, a tie to the even one. *)
Definition round_half_even (num den : Z) : Z :=
  let q := num / den in
  let r := num mod den in
  if 2 * r <? den then q
  else if den <? 2 * r then q + 1
  else if Z.even q then q else q + 1.

(** Python's floats are the binary64 numbers of IEEE 754. *)
Definition prec : Z := 53.
Definition emax : Z := 1024.

(** [float(z)] for an integer: rounded to the nearest float. *)
Definition float_of_Z (z : Z) : spec_float :=
  match z with
  | Z0 => S754_zero false
  | Zpos p => binary_normalize prec emax (Zpos p) 0 false
  | Zneg p => SFopp (binary_normalize prec emax (Zpos p) 0 false)
  end.

(** [round(x)] for a float, which gives an integer: the float is
    [m * 2 ^ e] exactly.  Python raises on an infinity and on [nan];
    no Timedelta leads there. *)
Definition py_round (x : spec_float) : Z :=
  match x with
  | S754_finite s m e =>
      let n := if s then Zneg m else Zpos m in
      if 0 <=? e then n * 2 ^ e else round_half_even n (2 ^ (- e))
  | _ => 0
  end.

(** [Timedelta.total_seconds()] for a Timedelta of [value] nanoseconds:
    [days * 24 * 3600 + seconds + microseconds / 1_000_000], where the
    three components are floored; the nanoseconds below a microsecond
    are not counted. *)
Definition total_seconds (value : Z) : spec_float :=
  SFadd prec emax
        (float_of_Z (value / 1000000000))
        (SFdiv prec emax (float_of_Z ((value mod 1000000000) / 1000))
                         (float_of_Z 1000000)).

(** [round(timedelta.total_seconds() / 60)] *)
Definition minutes (value : Z) : Z :=
  py_round (SFdiv prec emax (total_seconds value) (float_of_Z 60)).

(** A Timedelta holds its nanoseconds in 64 bits. *)
Definition is_timedelta (value : Z) : bool :=
  (- 2 ^ 63 <? value) && (value <? 2 ^ 63).

(** [str] of an integer, as the f-string prints it. *)
Definition decimal (z : Z) : string := NilZero.string_of_int (Z.to_int z).

Definition display (totalMin : Z) : string :=
  if totalMin <=? 99 then (decimal totalMin ++ " min")%string else ">99 min".

(** [format_timestamp]; [now] is the reading of [pd.Timestamp.now()] in
    nanoseconds.  When the difference of the two readings does not fit a
    Timedelta the subtraction raises; the class of that error depends on
    the version of pandas, [OutOfBounds] stands for it. *)
Definition format_timestamp (now : Z) (timestamp : option Z) : outcome cell :=
  match timestamp with
  | Some t =>
      if is_timedelta (now - t) then Return (Some (display (minutes (now - t))))
      else Raise OutOfBounds
  | None => Return None
  end.

(** The row with the display [d] in its Last Updated cell. *)
Definition stamped (d : cell) (r : NodeRow) : NodeRow :=
  {| nCueNumber := nCueNumber r; nWhen := nWhen r; nAction := nAction r;
     nCueState := nCueState r; nNodeNumber := nNodeNumber r;
     nNodeState := nNodeState r; nTimestamp := nTimestamp r;
     nLastUpdated := d |}.

(** [nodesFrame['Timestamp'].map(self.format_timestamp)], row by row;
    the pass over the rows is taken at one reading of the clock. *)
Fixpoint map_timestamps (now : Z) (rs : list NodeRow) : outcome (list NodeRow) :=
  match rs with
  | [] => Return []
  | r :: rest =>
      d <- format_timestamp now (nTimestamp r) ;;
      rest' <- map_timestamps now rest ;;
      Return (stamped d r :: rest')
  end.

(** [update_last_updated]: the frame is stored once the whole column is
    computed. *)
Definition update_last_updated (st : ServerData) (now : Z) : ServerData * outcome unit :=
  match map_timestamps now (nodeRows (nodes st)) with
  | Return rs => (set_nodes st {| hasLastUpdated := true; nodeRows := rs |}, Return tt)
  | Raise e => (st, Raise e)
  end.

(** The series aligned on the columns of the frame, in the row [r]. *)
Definition assign_series (has : bool) (series : Series) (r : NodeRow) : NodeRow :=
  {| nCueNumber := nCueNumber r; nWhen := sWhen series; nAction := sAction series;
     nCueState := sCueState series; nNodeNumber := sNodeNumber series;
     nNodeState := sNodeState series; nTimestamp := sTimestamp series;
     nLastUpdated := if has then sLastUpdated series else None |}.

Definition in_index (cueNum : cell) (nodesFrame : NodesFrame) : bool :=
  existsb (fun r => cell_eqb (nCueNumber r) cueNum) (nodeRows nodesFrame).

(** The frame with the series in every row of the key [cueNum]. *)
Definition overwrite (nodesFrame : NodesFrame) (cueNum : cell) (series : Series)
    : NodesFrame :=
  {| hasLastUpdated := hasLastUpdated nodesFrame;
     nodeRows := map (fun r => if cell_eqb (nCueNumber r) cueNum
                               then assign_series (hasLastUpdated nodesFrame) series r
                               else r)
                     (nodeRows nodesFrame) |}.

(** [nodesFrame.loc[cueNum] = series] for a key of the index: with one
    row under the key the series is aligned on the columns of the frame;
    with several rows under it the assignment raises [ValueError]. *)
Definition loc_assign (nodesFrame : NodesFrame) (cueNum : cell) (series : Series)
    : outcome NodesFrame :=
  if (List.length (filter (fun r => cell_eqb (nCueNumber r) cueNum)
                          (nodeRows nodesFrame)) =? 1)%nat
  then Return (overwrite nodesFrame cueNum series)
  else Raise ValueError.

(** The body of the loop over the received series;
    [series['Cue Number']] raises [KeyError] on a series without that
    label. *)
Definition apply_series (nodesFrame : NodesFrame) (series : Series)
    : outcome NodesFrame :=
  match sCueNumber series with
  | None => Raise KeyError
  | Some cueNum =>
      if in_index cueNum nodesFrame then loc_assign nodesFrame cueNum series
      else Return nodesFrame
  end.

Fixpoint series_loop (node_series_list : list Series) (nodesFrame : NodesFrame)
    : outcome NodesFrame :=
  match node_series_list with
  | [] => Return nodesFrame
  | series :: rest =>
      nodesFrame' <- apply_series nodesFrame series ;;
      series_loop rest nodesFrame'
  end.

(** [format_nodes]: the frame is stored when the loop is over, and then
    the Last Updated column is computed. *)
Definition format_nodes (st : ServerData) (now : Z) (node_series_list : option (list Series))
    : ServerData * outcome unit :=
  match node_series_list with
  | None => (st, Return tt)
  | Some l =>
      match series_loop l (nodes st) with
      | Raise e => (st, Raise e)
      | Return nodesFrame => update_last_updated (set_nodes st nodesFrame) now
      end
  end.

(** *** Validity of a raw cue table *)

(** The attribute prefixes equal to the prefix of a cue number. *)
Definition matching_prefixes (attrs : list Attribute) (cue : string) : list cell :=
  filter (fun p => cell_is p (strip_digits cue)) (map attrCuePrefix attrs).

Definition resolves (attrs : list Attribute) (cue : string) : bool :=
  (List.length (matching_prefixes attrs cue) =? 1)%nat.

Definition columns_ok (df : DataFrame) : bool :=
  list_eqb (sort (names df)) (sort raw_column_names).

(** Cue Number is the first column of the table, hence its index. *)
Definition cue_number_first (df : DataFrame) : bool :=
  match names df with
  | title :: _ => String.eqb title "Cue Number"
  | [] => false
  end.

(** A row as the claim on the compiler words it: blank, or with a cue
    number whose prefix resolves to exactly one attribute and a cue state
    of the states table. *)
Definition row_as_claimed (attrs : list Attribute) (sts : list StateRow) (r : Row) : bool :=
  all_na r
  || match cueNumber r with
     | Some cue => resolves attrs cue && in_states sts (cueState r)
     | None => false
     end.

Definition valid_as_claimed (attrs : list Attribute) (sts : list StateRow) (df : DataFrame)
    : bool :=
  columns_ok df && cue_number_first df && forallb (row_as_claimed attrs sts) (rows df).

(** A complete cue row: all four cells filled, the cue number not the
    label the compiler reserves, the prefix resolving, the state known. *)
Definition cue_row (attrs : list Attribute) (sts : list StateRow) (r : Row) : bool :=
  match cueNumber r with
  | Some cue =>
      negb (String.eqb cue last_row_storage)
      && negb (isna (when r)) && negb (isna (action r)) && negb (isna (cueState r))
      && resolves attrs cue && in_states sts (cueState r)
  | None => false
  end.

Definition valid_row (attrs : list Attribute) (sts : list StateRow) (r : Row) : bool :=
  all_na r || cue_row attrs sts r.

Definition valid_raw_table (attrs : list Attribute) (sts : list StateRow) (df : DataFrame)
    : bool :=
  columns_ok df && cue_number_first df && forallb (valid_row attrs sts) (rows df).

(** *** The compiler as the specification words it

    Rows are partitioned into runs separated by blank rows; the runs are
    numbered 0, 1, 2, ... in source order; every row of a run carries the
    number of its run and the prefix of its cue number.  [g] is the
    number of the current run and [in_run] says whether a row of it has
    been seen. *)

Definition compiled_row (g : Z) (r : Row) : Row :=
  {| cueGroupNumber := Some g; cueNumber := cueNumber r;
     cuePrefix := match cueNumber r with
                  | Some cue => Some (strip_digits cue)
                  | None => None
                  end;
     when := when r; action := action r; cueState := cueState r |}.

Fixpoint assign_groups (rs : list Row) (g : Z) (in_run : bool) : list Row :=
  match rs with
  | [] => []
  | r :: rest =>
      if all_na r then assign_groups rest (if in_run then g + 1 else g) false
      else compiled_row g r :: assign_groups rest g true
  end.

(** *** Consistency of the navigator's state *)

Definition has_group (g : Z) (df : DataFrame) : bool := existsb (in_group g) (rows df).

Definition group_range (m : Z) : list Z := map Z.of_nat (seq 0 (Z.to_nat (m + 1))).

(** The groups of the stored cue frame are exactly 0 .. [maxCueGroup]. *)
Definition consistent (st : ServerData) : bool :=
  match maxCueGroup st with
  | Int m => (0 <=? m) && forallb (fun g => has_group g (allCues st)) (group_range m)
  | NaN => false
  end.

(** *** Auxiliary functions of the proofs *)

(** The prefix the loop appends for an index value. *)
Definition prefix_of (attrs : list Attribute) (c : cell) : cell :=
  match c with
  | Some cue =>
      match __get_prefix attrs cue with
      | Return p => p
      | Raise _ => None
      end
  | None => None
  end.

(** The group numbers the loop appends, starting from [g]. *)
Fixpoint groups_of (ivs : list cell) (g : Z) : list Z :=
  match ivs with
  | [] => []
  | None :: rest => (g + 1) :: groups_of rest (g + 1)
  | Some _ :: rest => g :: groups_of rest g
  end.

(** Every row with its group, its own prefix and the data of the row
    after it: the frame after the shift back. *)
Fixpoint paired (attrs : list Attribute) (rs : list Row) (g : Z) : list Row :=
  match rs with
  | [] => []
  | r :: rest =>
      let g' := if isna (cueNumber r) then g + 1 else g in
      {| cueGroupNumber := Some g'; cueNumber := cueNumber r;
         cuePrefix := match rest with
                      | [] => None
                      | _ :: _ => prefix_of attrs (cueNumber r)
                      end;
         when := match rest with [] => None | r' :: _ => when r' end;
         action := match rest with [] => None | r' :: _ => action r' end;
         cueState := match rest with [] => None | r' :: _ => cueState r' end |}
      :: paired attrs rest g'
  end.

Definition blank_row : Row := blank_cells None.

(** The state with the pointer at group [g]: the snapshot is the rows of
    group [g] and the nodes frame is their empty shell. *)
Definition at_group (st : ServerData) (g : Z) : ServerData :=
  reset_nodes (set_currentCues (set_cueNum st (Int g))
                 (map drop_group (filter (in_group g) (rows (allCues st))))).

(** A row of the nodes frame without its Last Updated cell. *)
Definition unstamped (r : NodeRow) : cell * cell * cell * cell * cell * cell * option Z :=
  (nCueNumber r, nWhen r, nAction r, nCueState r, nNodeNumber r, nNodeState r, nTimestamp r).

(** The reports the loop does not drop: those whose cue number is a key
    of the frame, and those without a cue number, at which it raises. *)
Definition present (nodesFrame : NodesFrame) (l : list Series) : list Series :=
  filter (fun s => match sCueNumber s with
                   | Some cueNum => in_index cueNum nodesFrame
                   | None => true
                   end) l.

(** A report the loop drops: it has a cue number and that is no key of
    the frame. *)
Definition stale (nodesFrame : NodesFrame) (s : Series) : Prop :=
  exists cueNum, sCueNumber s = Some cueNum /\ in_index cueNum nodesFrame = false.



(** A column of group numbers that starts at [g] (or, when a run is
    open, at [g] or [g + 1]) and from one row to the next stays or goes
    up by one. *)
Fixpoint climbs_from (in_run : bool) (g : Z) (col : list (option Z)) : Prop :=
  match col with
  | [] => True
  | c :: col' =>
      (c = Some g \/ (in_run = true /\ c = Some (g + 1)))
      /\ match c with
         | Some k => climbs_from true k col'
         | None => False
         end
  end.

(** The frame before the loop, for a raw table whose index is Cue Number
    and that has no row under the reserved label: the sentinel row added,
    the data moved down from [prev], the rows that are empty left out. *)
Definition shifted_rows (prev : data3) (rs : list Row) : list Row :=
  dropna_all (shift_down prev (rs ++ [blank_cells (Some last_row_storage)])).

Definition full3 (d : data3) : bool :=
  let '(w, a, s) := d in negb (isna w) && negb (isna a) && negb (isna s).

(** The frame a valid raw table compiles to. *)
Definition compiled (df : DataFrame) : DataFrame :=
  {| names := formatted_names (names df); rows := assign_groups (rows df) 0 false |}.

(** A raw table with [a] blank rows put before its rows and [b] after. *)
Definition padded (a b : nat) (df : DataFrame) : DataFrame :=
  {| names := names df;
     rows := repeat blank_row a ++ rows df ++ repeat blank_row b |}.

(** The state after a valid raw table has been compiled: the frame and
    the maximum replaced, and, when the frame has a cue, the pointer at
    group 0. *)
Definition compiled_state (st : ServerData) (df : DataFrame) : ServerData :=
  let st1 := set_maxCueGroup (set_allCues st (compiled df))
               (column_max (map cueGroupNumber (rows (compiled df)))) in
  match rows (compiled df) with
  | [] => st1
  | _ :: _ => at_group st1 0
  end.

(** *** Invariants of the derived frames *)

(** The snapshot is the group the pointer is at. *)
Definition snapshot_current (st : ServerData) : Prop :=
  exists g, cueNum st = Int g
            /\ currentCues st = map drop_group (filter (in_group g) (rows (allCues st))).

(** The nodes frame has one row per cue of the snapshot, under the same
    cue numbers and in the same order. *)
Definition keys_match (st : ServerData) : Prop :=
  map nCueNumber (nodeRows (nodes st)) = map cueNumber (currentCues st).

(** A states table that knows every state the rows use. *)
Definition states_of (rs : list Row) : list StateRow :=
  map (fun r => {| stCueState := cueState r; initialNodeState := None;
                   finalNodeState := None |}) rs.



(** A row of a raw table that is blank or a complete cue row with a
    prefix that resolves, whatever its cue state. *)
Definition shaped_row (attrs : list Attribute) (r : Row) : bool :=
  all_na r
  || match cueNumber r with
     | Some cue =>
         negb (String.eqb cue last_row_storage)
         && negb (isna (when r)) && negb (isna (action r)) && negb (isna (cueState r))
         && resolves attrs cue
     | None => false
     end.

(** The order of the column titles. *)
Definition title_le (a b : string) : Prop := String.leb a b = true.


(** An index value the loop stops at: a cue number whose prefix does
    not resolve and that is not the reserved label. *)
Definition unresolved (attrs : list Attribute) (c : cell) : bool :=
  match c with
  | Some cue => negb (resolves attrs cue) && negb (String.eqb cue last_row_storage)
  | None => false
  end.

(** The four cells of a row of the raw table. *)
Definition cells (r : Row) : cell * cell * cell * cell :=
  (cueNumber r, when r, action r, cueState r).

(** A row that is not blank and whose cue state the states table does
    not have. *)
Definition unknown_state (sts : list StateRow) (r : Row) : bool :=
  negb (all_na r) && negb (in_states sts (cueState r)).

(** The state after a table without any cue has been compiled: the frame
    is empty and the maximum is [nan]; the pointer, the snapshot and the
    nodes frame are those of before. *)
Definition without_cues (st : ServerData) (df : DataFrame) : ServerData :=
  set_maxCueGroup
    (set_allCues st {| names := formatted_names (names df); rows := [] |}) NaN.

(** The frame as [reset_index().set_index] leaves it on the formatted
    path: the two index titles first. *)
Definition reindexed (df : DataFrame) : DataFrame :=
  {| names := "Cue Group Number" :: "Cue Number"
                :: filter (fun n => negb (String.eqb n "Cue Group Number")
                                    && negb (String.eqb n "Cue Number"))
                          (names df);
     rows := rows df |}.
End ServerDataManagement.


(** ** A small show, for the concrete cases *)

Module Show.

Import ServerDataManagement.

Local Open Scope string_scope.
Local Open Scope Z_scope.

Definition raw_row (c w a s : cell) : Row :=
  {| cueGroupNumber := None; cueNumber := c; cuePrefix := None;
     when := w; action := a; cueState := s |}.

Definition cue (g : Z) (c p w a s : string) : Row :=
  {| cueGroupNumber := Some g; cueNumber := Some c; cuePrefix := Some p;
     when := Some w; action := Some a; cueState := Some s |}.

Definition raw (rs : list Row) : DataFrame := {| names := raw_column_names; rows := rs |}.

(** Two nodes, with the prefixes A and B. *)
Definition attrs : list Attribute :=
  [ {| macAddress := Some "02:00:00:00:00:01"; nodeNumber := Some "1";
       nodeName := Some "Stage Left"; attrCuePrefix := Some "A" |};
    {| macAddress := Some "02:00:00:00:00:02"; nodeNumber := Some "2";
       nodeName := Some "Stage Right"; attrCuePrefix := Some "B" |} ].

Definition sts : list StateRow :=
  [ {| stCueState := Some "Standby"; initialNodeState := Some "Ready";
       finalNodeState := Some "Ready" |};
    {| stCueState := Some "Go"; initialNodeState := Some "Ready";
       finalNodeState := Some "Done" |} ].

Definition A1 : Row := raw_row (Some "A1") (Some "Scene 1") (Some "Lights up") (Some "Standby").
Definition A2 : Row := raw_row (Some "A2") (Some "Scene 1") (Some "Curtain") (Some "Go").
Definition B1 : Row := raw_row (Some "B1.5") (Some "Scene 2") (Some "Sound") (Some "Go").
Definition B2 : Row := raw_row (Some "B2") (Some "Scene 3") (Some "Blackout") (Some "Standby").

(** The stored show: three groups. *)
Definition all_cues : DataFrame :=
  {| names := formatted_column_names;
     rows := [ cue 0 "A1" "A" "Scene 1" "Lights up" "Standby";
               cue 0 "A2" "A" "Scene 1" "Curtain" "Go";
               cue 1 "B1.5" "B" "Scene 2" "Sound" "Go";
               cue 2 "B2" "B" "Scene 3" "Blackout" "Standby" ] |}.

(** A server at group 1 of the show, with the report of node 2 for the
    cue of that group already merged and stamped. *)
Definition server : ServerData :=
  {| attributes := attrs;
     states := sts;
     allCues := all_cues;
     currentCues := map drop_group (filter (in_group 1) (rows all_cues));
     nodes := {| hasLastUpdated := true;
                 nodeRows := [ {| nCueNumber := Some "B1.5"; nWhen := Some "Scene 2";
                                  nAction := Some "Sound"; nCueState := Some "Go";
                                  nNodeNumber := Some "2"; nNodeState := Some "Done";
                                  nTimestamp := Some 0; nLastUpdated := Some "5 min" |} ] |};
     cueNum := Int 1;
     maxCueGroup := Int 2 |}.

(** A report for a cue of group 0, which is not the current group. *)
Definition stale_report : Series :=
  {| sCueNumber := Some (Some "A1"); sWhen := Some "Scene 1"; sAction := Some "Lights up";
     sCueState := Some "Standby"; sNodeNumber := Some "1"; sNodeState := Some "Ready";
     sTimestamp := Some 0; sLastUpdated := None |}.

(** A report for the cue of the current group. *)
Definition fresh_report : Series :=
  {| sCueNumber := Some (Some "B1.5"); sWhen := Some "Scene 2"; sAction := Some "Sound";
     sCueState := Some "Go"; sNodeNumber := Some "2"; sNodeState := Some "Ready";
     sTimestamp := Some (3 * ns_per_minute); sLastUpdated := None |}.

(** The scenario of the specification: one group of two cue rows and a
    trailing blank row. *)
Definition two_cues_and_blank : DataFrame := raw [A1; A2; blank_row].

(** A row with a cue number, an action and a state, and no When. *)
Definition A1_no_when : Row := raw_row (Some "A1") None (Some "Lights up") (Some "Standby").

(** A node that was given the reserved label as its prefix, and a cue of
    that node. *)
Definition attrs_reserved : list Attribute :=
  attrs ++ [ {| macAddress := Some "02:00:00:00:00:03"; nodeNumber := Some "3";
                nodeName := Some "Booth"; attrCuePrefix := Some "last_row_storage" |} ].

Definition reserved_row : Row :=
  raw_row (Some "last_row_storage") (Some "Scene 2") (Some "Fog") (Some "Go").

(** A cue whose prefix no node has. *)
Definition Z1 : Row := raw_row (Some "Z1") (Some "Scene 9") (Some "Strobe") (Some "Go").

(** A script with blank rows before, between and after its groups. *)
Definition script : DataFrame :=
  raw [blank_row; A1; A2; blank_row; blank_row; B1; blank_row; B2; blank_row].

(** A script whose first group is one row without a When. *)
Definition script_no_when : DataFrame := raw [A1_no_when; blank_row; B1].

(** The server with the node of the reserved prefix, and a script with a
    cue of that node in a group of its own. *)
Definition server_reserved : ServerData :=
  {| attributes := attrs_reserved; states := states server; allCues := allCues server;
     currentCues := currentCues server; nodes := nodes server; cueNum := cueNum server;
     maxCueGroup := maxCueGroup server |}.

Definition script_reserved : DataFrame :=
  raw [A1; blank_row; reserved_row; blank_row; B1; B2].

(** A script with a cue of no node, and a table with a column missing. *)
Definition script_unknown_prefix : DataFrame := raw [A1; Z1].

Definition table_missing_column : DataFrame :=
  {| names := ["Cue Number"; "When"; "Action"]; rows := [A1; A2] |}.

End Show.

(** ** The error log: [ErrorStorage] *)

Module ErrorStorage.

Local Open Scope string_scope.
Local Open Scope list_scope.

(** The list read from the file; a file that is missing or cannot be
    read gives the empty list. *)
Definition error_load (file : option (list string)) : list string :=
  match file with
  | Some errors => errors
  | None => []
  end.

(** [update]; [trace] is what [format_exc()] returns. *)
Definition update (errors : list string) (trace : string) : list string :=
  if existsb (String.eqb trace) errors then errors else errors ++ [trace].

Definition clear (errors : list string) : list string := [].

(** [__bool__] *)
Definition truth (errors : list string) : bool :=
  match errors with
  | [] => false
  | _ :: _ => true
  end.

(** The log after a run of failures, one [update] each. *)
Definition log (errors : list string) (traces : list string) : list string :=
  fold_left update traces errors.

End ErrorStorage.

(** ** The poll of the node channel: [Server.__get_node_series] *)

Module Server.

Import Communication.
Import ServerDataManagement.

(** The datatype number of the node channel. *)
Definition node_datatype : Z := 71.

Record ServerState : Type := {
  data : ServerData;
  communication : CommState Series
}.

(** One round of the loop: the channel is read without [singular], and
    the series are merged when the answer is not [None]; what
    [format_nodes] raises goes up to the caller.  [RValue] is never the
    answer of a read without [singular]; the model lets the round pass
    then.  The refresh of the window that ends the round is outside the
    state. *)
Definition get_node_series_round (loads : bytes -> load_outcome Series)
    (s : ServerState) (output : bytes) (now : Z) : ServerState * outcome unit :=
  match receive_data loads (communication s) node_datatype output false with
  | (c, Raise e) => ({| data := data s; communication := c |}, Raise e)
  | (c, Return RNone) => ({| data := data s; communication := c |}, Return tt)
  | (c, Return (RList node_series_list)) =>
      match format_nodes (data s) now (Some node_series_list) with
      | (d, out) => ({| data := d; communication := c |}, out)
      end
  | (c, Return (RValue _)) => ({| data := data s; communication := c |}, Return tt)
  end.

End Server.

(** ** More tables of the small show *)

Module ShowMore.

Import ServerDataManagement.

Local Open Scope string_scope.
Local Open Scope Z_scope.

(** A cue of node B in a state the states table does not have. *)
Definition B3 : Row :=
  Show.raw_row (Some "B3") (Some "Scene 4") (Some "Fade") (Some "Hold").

Definition script_unknown_state : DataFrame := Show.raw [Show.A1; blank_row; B3].

(** A table of blank rows only. *)
Definition script_blank : DataFrame := Show.raw [blank_row; blank_row].

(** A script whose middle group is one row without a When: the compiler
    accepts it and drops the row, so that no cue is left in group 1. *)
Definition B1_no_when : Row :=
  Show.raw_row (Some "B1.5") None (Some "Sound") (Some "Go").

Definition script_gap : DataFrame :=
  Show.raw [Show.A1; blank_row; B1_no_when; blank_row; Show.B2].

(** The server once that script is compiled. *)
Definition server_gap : ServerData :=
  fst (format_all_cues Show.server script_gap false).

End ShowMore.
(** * Properties *)

(** ** The codec and the transport *)

Module CommunicationFacts.

Import Communication.

Section Decode.

Variable V : Type.
Variable loads : bytes -> load_outcome V.

Lemma loads_all_loaded (elements : list bytes) :
  Forall (fun e => exists v, loads e = Loaded v) elements ->
  loads_all loads elements = Loaded (decode_keeping_successes loads elements)
  /\ List.length (decode_keeping_successes loads elements) = List.length elements.
Proof.
  induction 1 as [|e rest [v Hv] _ [IH1 IH2]]; simpl.
  - split; reflexivity.
  - rewrite Hv, IH1. simpl. rewrite IH2. split; reflexivity.
Qed.

Lemma loads_all_cases (elements : list bytes) :
  (forall e, In e elements -> loads e <> RaiseOther) ->
  Forall (fun e => exists v, loads e = Loaded v) elements
  \/ (Exists (fun e => loads e = RaiseUnpickling) elements
      /\ loads_all loads elements = RaiseUnpickling).
Proof.
  induction elements as [|e rest IH]; intros Hne.
  - left. constructor.
  - simpl. destruct (loads e) as [v| |] eqn:He.
    + destruct IH as [IH|[IH1 IH2]].
      * intros e' He'. apply Hne. right. exact He'.
      * left. constructor; [exists v; exact He | exact IH].
      * right. split; [apply Exists_cons_tl; exact IH1 | rewrite IH2; reflexivity].
    + right. split; [apply Exists_cons_hd; exact He | reflexivity].
    + exfalso. apply (Hne e); [left; reflexivity | exact He].
Qed.

End Decode.

(** C3, as the code has it.  When the response un-escapes and no record
    fails with anything but an unpickling error, [__data_decode] does not
    raise: it returns every decoded object, in order, when all records
    load, and the empty list as soon as one record fails to unpickle,
    whatever the other records hold. *)
Theorem data_decode_all_or_nothing (V : Type) (loads : bytes -> load_outcome V)
    (data : bytes) (elements : list bytes) :
  records data = Return elements ->
  (forall e, In e elements -> loads e <> RaiseOther) ->
  (Forall (fun e => exists v, loads e = Loaded v) elements
   /\ __data_decode loads data = Return (decode_keeping_successes loads elements)
   /\ List.length (decode_keeping_successes loads elements) = List.length elements)
  \/ (Exists (fun e => loads e = RaiseUnpickling) elements
      /\ __data_decode loads data = Return []).
Proof.
  intros Hrec Hne. unfold __data_decode. rewrite Hrec. simpl.
  destruct (loads_all_cases V loads elements Hne) as [Hall|[Hex Hfail]].
  - left. destruct (loads_all_loaded V loads elements Hall) as [H1 H2].
    rewrite H1. repeat split; assumption.
  - right. rewrite Hfail. split; [exact Hex | reflexivity].
Qed.

(** A response of two records, the pickles of [None] and of 5, with the
    separator between them: both load. *)
Lemma data_decode_all_or_nothing_witness :
  (Forall (fun e => exists v, Pickle.loads e = Loaded v) [[x4e; x2e]; [x4b; x05; x2e]]
   /\ __data_decode Pickle.loads [x4e; x2e; x22; x2c; x4b; x05; x2e]
      = Return (decode_keeping_successes Pickle.loads [[x4e; x2e]; [x4b; x05; x2e]])
   /\ List.length (decode_keeping_successes Pickle.loads [[x4e; x2e]; [x4b; x05; x2e]])
      = List.length [[x4e; x2e]; [x4b; x05; x2e]])
  \/ (Exists (fun e => Pickle.loads e = RaiseUnpickling) [[x4e; x2e]; [x4b; x05; x2e]]
      /\ __data_decode Pickle.loads [x4e; x2e; x22; x2c; x4b; x05; x2e] = Return []).
Proof.
  apply (data_decode_all_or_nothing Pickle.pyvalue Pickle.loads
           [x4e; x2e; x22; x2c; x4b; x05; x2e] [[x4e; x2e]; [x4b; x05; x2e]]).
  - reflexivity.
  - intros e [<-|[<-|[]]]; discriminate.
Defined.

(** C3 as stated fails.  The response below holds two records: the
    first is the pickle of [None], the second starts with a byte that is
    no opcode, so it is no pickle.  The decoder the
    claim describes keeps [None], [__data_decode] returns the empty list.
    A response that ends in a backslash makes it raise [ValueError]. *)
Lemma data_decode_drops_whole_batch :
  records [x4e; x2e; x22; x2c; x78; x2e] = Return [[x4e; x2e]; [x78; x2e]]
  /\ decode_keeping_successes Pickle.loads [[x4e; x2e]; [x78; x2e]] = [Pickle.PyNone]
  /\ __data_decode Pickle.loads [x4e; x2e; x22; x2c; x78; x2e] = Return []
  /\ __data_decode Pickle.loads [x5c] = Raise ValueError.
Proof. repeat split; reflexivity. Qed.

(** C4, as the code has it.  When the decoder returns, [receive_data]
    gives [None] for no record, the object itself for one record with
    [singular] set, and the list in every other case, a list of several
    records with [singular] set included.  When the decoder raises,
    [receive_data] raises the same error: it gives nothing back and notes
    nothing under the datatype. *)
Theorem receive_data_result (V : Type) (loads : bytes -> load_outcome V)
    (st : CommState V) (datatype : Z) (output : bytes) (singular : bool) :
  (forall data, __data_decode loads output = Return data ->
     (data = [] -> snd (receive_data loads st datatype output singular) = Return (RNone))
     /\ (forall v, data = [v] -> singular = true ->
           snd (receive_data loads st datatype output singular) = Return (RValue v))
     /\ (forall v, data = [v] -> singular = false ->
           snd (receive_data loads st datatype output singular) = Return (RList [v]))
     /\ ((1 < List.length data)%nat ->
           snd (receive_data loads st datatype output singular) = Return (RList data)))
  /\ (forall e, __data_decode loads output = Raise e ->
        receive_data loads st datatype output singular = (st, Raise e)).
Proof.
  split.
  - intros data Hdec. unfold receive_data. rewrite Hdec.
    repeat split.
    + intros ->. reflexivity.
    + intros v -> ->. reflexivity.
    + intros v -> ->. reflexivity.
    + intros Hlen. destruct data as [|v [|w rest]]; simpl in Hlen; try lia.
      simpl. reflexivity.
  - intros e Hdec. unfold receive_data. rewrite Hdec. reflexivity.
Qed.

(** Two records on the channel, [singular] set: the list comes back. *)
Lemma receive_data_result_witness :
  let st := {| sent_data_dict := []; received_data_dict := [] |} in
  let output := [x4e; x2e; x22; x2c; x4b; x05; x2e] in
  snd (receive_data Pickle.loads st 71 output true)
  = Return (RList [Pickle.PyNone; Pickle.PyInt 5]).
Proof.
  intros st output.
  apply (proj1 (receive_data_result _ Pickle.loads st 71%Z output true)
           [Pickle.PyNone; Pickle.PyInt 5] eq_refl).
  simpl. lia.
Defined.

(** C4 as stated fails: it is not for every response that [receive_data]
    returns.  A response that ends in a backslash does not un-escape and
    the call raises [ValueError]; a record cut short after its argument
    makes [loads] fail with an error that is no unpickling error, and the
    call raises [UnboundLocalError].  Neither call gives [None], and
    neither notes anything. *)
Lemma receive_data_raises :
  let st := {| sent_data_dict := []; received_data_dict := [] |} in
  receive_data Pickle.loads st 71 [x5c] true = (st, Raise ValueError)
  /\ receive_data Pickle.loads st 71 [x5c] false = (st, Raise ValueError)
  /\ receive_data Pickle.loads st 71 [x4b; x2e] true = (st, Raise UnboundLocalError)
  /\ receive_data Pickle.loads st 71 [x4b; x2e] false = (st, Raise UnboundLocalError).
Proof. repeat split. Qed.

(** One record with and without [singular], and none. *)
Example receive_data_examples :
  let st := {| sent_data_dict := []; received_data_dict := [] |} in
  snd (receive_data Pickle.loads st 71 [x4e; x2e] true) = Return (RValue Pickle.PyNone)
  /\ snd (receive_data Pickle.loads st 71 [x4e; x2e] false) = Return (RList [Pickle.PyNone])
  /\ snd (receive_data Pickle.loads st 71 [] true) = Return (RNone)
  /\ snd (receive_data Pickle.loads st 71 [x4e; x2e; x22; x2c; x78; x2e] true)
     = Return (RNone).
Proof. repeat split; reflexivity. Qed.

End CommunicationFacts.

(** ** What the aggregator leaves alone *)

Module AggregatorFrame.

Import ServerDataManagement.

Local Open Scope string_scope.
Local Open Scope list_scope.
Local Open Scope Z_scope.

(** The pass over the timestamps changes the Last Updated cells only. *)
Lemma map_timestamps_unstamped (now : Z) (rs : list NodeRow) : forall rs',
  map_timestamps now rs = Return rs' -> map unstamped rs' = map unstamped rs.
Proof.
  induction rs as [|r rs IH]; intros rs' H; cbn [map_timestamps] in H.
  - inversion H. reflexivity.
  - destruct (format_timestamp now (nTimestamp r)) as [d|e]; [|discriminate H].
    cbn [bind] in H.
    destruct (map_timestamps now rs) as [rest|e]; [|discriminate H].
    cbn [bind] in H. inversion H. cbn [map]. rewrite (IH rest eq_refl). reflexivity.
Qed.

Lemma unstamped_keys (rs rs' : list NodeRow) :
  map unstamped rs' = map unstamped rs -> map nCueNumber rs' = map nCueNumber rs.
Proof.
  revert rs'. induction rs as [|r rs IH]; intros [|r' rs'] H; try discriminate H;
    [reflexivity|].
  cbn [map] in *. inversion H as [[H1 H2 H3 H4 H5 H6 H7 H8]].
  rewrite H1, (IH rs' H8). reflexivity.
Qed.

(** [update_last_updated] changes the nodes frame only, and of it the
    Last Updated column only; when it raises it changes nothing. *)
Lemma update_last_updated_frame (st : ServerData) (now : Z) :
  (exists ns, fst (update_last_updated st now) = set_nodes st ns
              /\ map unstamped (nodeRows ns) = map unstamped (nodeRows (nodes st)))
  /\ (forall e, snd (update_last_updated st now) = Raise e ->
        fst (update_last_updated st now) = st).
Proof.
  unfold update_last_updated.
  destruct (map_timestamps now (nodeRows (nodes st))) as [rs|e] eqn:E; cbn [fst snd].
  - split; [|intros e H; discriminate H].
    eexists. split; [reflexivity|]. cbn [nodeRows].
    apply (map_timestamps_unstamped now _ _ E).
  - split; [|reflexivity].
    exists (nodes st). split; [destruct st; reflexivity | reflexivity].
Qed.

Lemma overwrite_keys (f : NodesFrame) (c : cell) (s : Series) :
  map nCueNumber (nodeRows (overwrite f c s)) = map nCueNumber (nodeRows f).
Proof.
  unfold overwrite. cbn [nodeRows]. rewrite map_map. apply map_ext.
  intros r. destruct (cell_eqb (nCueNumber r) c); reflexivity.
Qed.


(** The keys of the frame, and whether it has a Last Updated column,
    are the same after any report. *)
Lemma apply_series_keys (f f' : NodesFrame) (s : Series) :
  apply_series f s = Return f' ->
  map nCueNumber (nodeRows f') = map nCueNumber (nodeRows f)
  /\ hasLastUpdated f' = hasLastUpdated f.
Proof.
  unfold apply_series, loc_assign.
  destruct (sCueNumber s) as [c|]; [|discriminate].
  destruct (in_index c f).
  - destruct (_ =? 1)%nat; [|discriminate].
    intros H. inversion H. split; [apply overwrite_keys | reflexivity].
  - intros H. inversion H. split; reflexivity.
Qed.

Lemma series_loop_keys (l : list Series) : forall f f',
  series_loop l f = Return f' ->
  map nCueNumber (nodeRows f') = map nCueNumber (nodeRows f)
  /\ hasLastUpdated f' = hasLastUpdated f.
Proof.
  induction l as [|s l IH]; intros f f' H; cbn [series_loop] in H.
  - inversion H. split; reflexivity.
  - destruct (apply_series f s) as [f1|e] eqn:E; [|discriminate H].
    cbn [bind] in H. destruct (apply_series_keys f f1 s E) as [K1 K2].
    destruct (IH f1 f' H) as [K3 K4]. split; congruence.
Qed.

(** [format_nodes] changes the nodes frame only, and never its keys. *)
Lemma format_nodes_frame (st : ServerData) (now : Z) (reports : option (list Series)) :
  exists ns, fst (format_nodes st now reports) = set_nodes st ns
             /\ map nCueNumber (nodeRows ns) = map nCueNumber (nodeRows (nodes st)).
Proof.
  unfold format_nodes. destruct reports as [l|].
  - destruct (series_loop l (nodes st)) as [f|e] eqn:E.
    + destruct (update_last_updated_frame (set_nodes st f) now) as [[ns [H1 H2]] _].
      exists ns. split.
      * rewrite H1. destruct st; reflexivity.
      * rewrite (unstamped_keys _ _ H2). cbn [nodes set_nodes].
        apply (series_loop_keys l _ _ E).
    + exists (nodes st). split; [destruct st; reflexivity | reflexivity].
  - exists (nodes st). split; [destruct st; reflexivity | reflexivity].
Qed.

End AggregatorFrame.

(** ** The cue navigator *)

Module NavigatorFacts.

Import ServerDataManagement.

Local Open Scope Z_scope.

Lemma existsb_filter_nonempty (A : Type) (p : A -> bool) (l : list A) :
  existsb p l = true -> filter p l <> [].
Proof.
  induction l as [|a l IH]; simpl; intros H.
  - discriminate.
  - destruct (p a); [discriminate | auto].
Qed.

(** With the group present, [format_current_cues] succeeds. *)
Lemma format_current_cues_at (st : ServerData) (g : Z) :
  has_group g (allCues st) = true ->
  format_current_cues (set_cueNum st (Int g)) = (at_group st g, Return tt).
Proof.
  intros Hg. unfold format_current_cues, at_group. simpl.
  pose proof (existsb_filter_nonempty _ _ _ Hg) as Hne.
  destruct (filter (in_group g) (rows (allCues st))) as [|r rs] eqn:Hf.
  - contradiction.
  - reflexivity.
Qed.

Lemma in_group_range (m g : Z) : 0 <= g <= m -> In g (group_range m).
Proof.
  intros Hg. unfold group_range. apply in_map_iff.
  exists (Z.to_nat g). split; [lia|]. apply in_seq. lia.
Qed.

Lemma consistent_has_group (st : ServerData) (m g : Z) :
  consistent st = true -> maxCueGroup st = Int m -> 0 <= g <= m ->
  has_group g (allCues st) = true.
Proof.
  unfold consistent. intros Hc Hm Hg. rewrite Hm in Hc.
  apply andb_true_iff in Hc. destruct Hc as [_ Hall].
  rewrite forallb_forall in Hall. apply Hall. apply in_group_range. exact Hg.
Qed.

Lemma at_group_frame (st : ServerData) (g : Z) :
  allCues (at_group st g) = allCues st
  /\ maxCueGroup (at_group st g) = maxCueGroup st
  /\ cueNum (at_group st g) = Int g
  /\ attributes (at_group st g) = attributes st
  /\ states (at_group st g) = states st.
Proof. repeat split. Qed.

Lemma at_group_consistent (st : ServerData) (g : Z) :
  consistent (at_group st g) = consistent st.
Proof. reflexivity. Qed.

(** The nodes frame of the state plays no part in where a jump lands. *)
Lemma at_group_set_nodes (st : ServerData) (ns : NodesFrame) (g : Z) :
  at_group (set_nodes st ns) g = at_group st g.
Proof. reflexivity. Qed.

Lemma next_cue_step (st : ServerData) (m c : Z) :
  consistent st = true -> maxCueGroup st = Int m -> cueNum st = Int c ->
  0 <= c <= m ->
  next_cue st = (at_group st (if c =? m then 0 else c + 1), Return tt).
Proof.
  intros Hc Hm Hn Hr. unfold next_cue. rewrite Hn, Hm. simpl.
  rewrite Z.eqb_sym.
  destruct (c =? m) eqn:E.
  - apply format_current_cues_at. apply (consistent_has_group st m _ Hc Hm). lia.
  - apply format_current_cues_at. apply (consistent_has_group st m _ Hc Hm).
    apply Z.eqb_neq in E. lia.
Qed.

Lemma previous_cue_step (st : ServerData) (m c : Z) :
  consistent st = true -> maxCueGroup st = Int m -> cueNum st = Int c ->
  0 <= c <= m ->
  previous_cue st = (at_group st (if c =? 0 then m else c - 1), Return tt).
Proof.
  intros Hc Hm Hn Hr. unfold previous_cue. rewrite Hn, Hm. simpl.
  destruct (c =? 0) eqn:E.
  - apply format_current_cues_at. apply (consistent_has_group st m _ Hc Hm). lia.
  - replace (c + -1) with (c - 1) by lia.
    apply format_current_cues_at. apply (consistent_has_group st m _ Hc Hm).
    apply Z.eqb_neq in E. lia.
Qed.

Lemma next_pointer_mod (m c : Z) :
  0 <= c <= m -> (if c =? m then 0 else c + 1) = (c + 1) mod (m + 1).
Proof.
  intros Hr. destruct (c =? m) eqn:E.
  - apply Z.eqb_eq in E. subst c. rewrite Z.mod_same; lia.
  - apply Z.eqb_neq in E. rewrite Z.mod_small; lia.
Qed.

Lemma previous_pointer_mod (m c : Z) :
  0 <= c <= m -> (if c =? 0 then m else c - 1) = (c - 1) mod (m + 1).
Proof.
  intros Hr. destruct (c =? 0) eqn:E.
  - apply Z.eqb_eq in E. subst c.
    replace (0 - 1) with (m + (-1) * (m + 1)) by lia.
    rewrite Z.mod_add by lia. rewrite Z.mod_small; lia.
  - apply Z.eqb_neq in E. rewrite Z.mod_small; lia.
Qed.

(** [k] calls of [next_cue] move the pointer by [k] modulo the number of
    groups and touch neither the cue frame nor the maximum. *)
Lemma repeat_next_cue (m : Z) (k : nat) :
  forall (st : ServerData) (c : Z),
    consistent st = true -> maxCueGroup st = Int m -> cueNum st = Int c ->
    0 <= c <= m ->
    exists st',
      repeat_call next_cue k st = (st', Return tt)
      /\ cueNum st' = Int ((c + Z.of_nat k) mod (m + 1))
      /\ allCues st' = allCues st /\ maxCueGroup st' = maxCueGroup st.
Proof.
  induction k as [|k IH]; intros st c Hc Hm Hn Hr.
  - exists st. simpl. rewrite Z.add_0_r, Z.mod_small by lia. auto.
  - simpl. rewrite (next_cue_step st m c Hc Hm Hn Hr).
    rewrite (next_pointer_mod m c Hr).
    set (c1 := (c + 1) mod (m + 1)).
    assert (Hr1 : 0 <= c1 <= m).
    { pose proof (Z.mod_pos_bound (c + 1) (m + 1)). unfold c1. lia. }
    destruct (IH (at_group st c1) c1) as [st' [H1 [H2 [H3 H4]]]]; auto.
    exists st'. repeat split; auto.
    rewrite H2. f_equal. unfold c1.
    rewrite Zplus_mod_idemp_l. f_equal. lia.
Qed.

Lemma repeat_previous_cue (m : Z) (k : nat) :
  forall (st : ServerData) (c : Z),
    consistent st = true -> maxCueGroup st = Int m -> cueNum st = Int c ->
    0 <= c <= m ->
    exists st',
      repeat_call previous_cue k st = (st', Return tt)
      /\ cueNum st' = Int ((c - Z.of_nat k) mod (m + 1))
      /\ allCues st' = allCues st /\ maxCueGroup st' = maxCueGroup st.
Proof.
  induction k as [|k IH]; intros st c Hc Hm Hn Hr.
  - exists st. simpl. rewrite Z.sub_0_r, Z.mod_small by lia. auto.
  - simpl. rewrite (previous_cue_step st m c Hc Hm Hn Hr).
    rewrite (previous_pointer_mod m c Hr).
    set (c1 := (c - 1) mod (m + 1)).
    assert (Hr1 : 0 <= c1 <= m).
    { pose proof (Z.mod_pos_bound (c - 1) (m + 1)). unfold c1. lia. }
    destruct (IH (at_group st c1) c1) as [st' [H1 [H2 [H3 H4]]]]; auto.
    exists st'. repeat split; auto.
    rewrite H2. f_equal. unfold c1.
    rewrite Zminus_mod_idemp_l. f_equal. lia.
Qed.

(** On any state the pointer moves as the wraparound law says, also
    when the call then raises for want of rows in the group. *)
Lemma format_current_cues_pointer (st : ServerData) :
  cueNum (fst (format_current_cues st)) = cueNum st.
Proof.
  unfold format_current_cues. destruct (int_of (cueNum st)); [|reflexivity].
  destruct (filter _ _); reflexivity.
Qed.

Lemma next_cue_pointer (st : ServerData) (m c : Z) :
  maxCueGroup st = Int m -> cueNum st = Int c ->
  cueNum (fst (next_cue st)) = Int (if c =? m then 0 else c + 1).
Proof.
  intros Hm Hn. unfold next_cue. rewrite Hn, Hm. cbn [int_of pynum_is].
  rewrite (Z.eqb_sym m c).
  destruct (c =? m); rewrite format_current_cues_pointer; reflexivity.
Qed.

Lemma previous_cue_pointer (st : ServerData) (m c : Z) :
  maxCueGroup st = Int m -> cueNum st = Int c ->
  cueNum (fst (previous_cue st)) = Int (if c =? 0 then m else c - 1).
Proof.
  intros Hm Hn. unfold previous_cue. rewrite Hn. cbn [pynum_is pynum_add].
  destruct (c =? 0); rewrite format_current_cues_pointer; cbn [cueNum set_cueNum];
    [exact Hm | f_equal; lia].
Qed.

(** C7, on the states the compiler leaves for a table of complete rows:
    those whose stored groups are 0 .. [maxCueGroup].  From any pointer in
    that range, [maxCueGroup + 1] calls of [next_cue] bring the pointer
    back to where it started, and so do [maxCueGroup + 1] calls of
    [previous_cue]; one call of [next_cue] takes the maximum to 0 and adds
    1 otherwise, one call of [previous_cue] takes 0 to the maximum and
    subtracts 1 otherwise.  The law of one call holds of the pointer on
    every state, whether the call returns or raises. *)
Theorem navigation_wraparound (st : ServerData) (m c : Z) :
  consistent st = true -> maxCueGroup st = Int m -> cueNum st = Int c ->
  0 <= c <= m ->
  (exists st', repeat_call next_cue (Z.to_nat (m + 1)) st = (st', Return tt)
               /\ cueNum st' = Int c)
  /\ (exists st', repeat_call previous_cue (Z.to_nat (m + 1)) st = (st', Return tt)
                  /\ cueNum st' = Int c)
  /\ (exists st', next_cue st = (st', Return tt)
                  /\ cueNum st' = Int (if c =? m then 0 else c + 1))
  /\ (exists st', previous_cue st = (st', Return tt)
                  /\ cueNum st' = Int (if c =? 0 then m else c - 1))
  /\ (forall s m' c', maxCueGroup s = Int m' -> cueNum s = Int c' ->
        cueNum (fst (next_cue s)) = Int (if c' =? m' then 0 else c' + 1)
        /\ cueNum (fst (previous_cue s)) = Int (if c' =? 0 then m' else c' - 1)).
Proof.
  intros Hc Hm Hn Hr. split; [|split; [|split; [|split]]].
  - destruct (repeat_next_cue m (Z.to_nat (m + 1)) st c Hc Hm Hn Hr) as [st' [H1 [H2 _]]].
    exists st'. split; [exact H1|]. rewrite H2. f_equal.
    rewrite Z2Nat.id by lia.
    replace (c + (m + 1)) with (c + 1 * (m + 1)) by lia.
    rewrite Z.mod_add by lia. apply Z.mod_small. lia.
  - destruct (repeat_previous_cue m (Z.to_nat (m + 1)) st c Hc Hm Hn Hr) as [st' [H1 [H2 _]]].
    exists st'. split; [exact H1|]. rewrite H2. f_equal.
    rewrite Z2Nat.id by lia.
    replace (c - (m + 1)) with (c + (-1) * (m + 1)) by lia.
    rewrite Z.mod_add by lia. apply Z.mod_small. lia.
  - exists (at_group st (if c =? m then 0 else c + 1)).
    split; [apply (next_cue_step st m c Hc Hm Hn Hr) | reflexivity].
  - exists (at_group st (if c =? 0 then m else c - 1)).
    split; [apply (previous_cue_step st m c Hc Hm Hn Hr) | reflexivity].
  - intros s m' c' Hm' Hn'. split.
    + apply (next_cue_pointer s m' c' Hm' Hn').
    + apply (previous_cue_pointer s m' c' Hm' Hn').
Qed.

(** The show has three groups; the server is at group 1. *)
Lemma navigation_wraparound_witness :
  (exists st', repeat_call next_cue (Z.to_nat (2 + 1)) Show.server = (st', Return tt)
               /\ cueNum st' = Int 1)
  /\ (exists st', repeat_call previous_cue (Z.to_nat (2 + 1)) Show.server = (st', Return tt)
                  /\ cueNum st' = Int 1).
Proof.
  destruct (navigation_wraparound Show.server 2 1 eq_refl eq_refl eq_refl
              ltac:(lia)) as [H1 [H2 _]].
  split; [exact H1 | exact H2].
Defined.

(** C7 as stated fails.  The compiler accepts a script whose middle
    group is a row without a When and stores groups 0 and 2 with the
    maximum 2; from the pointer 0 the first [next_cue] moves the pointer
    to 1 and raises [KeyError], so that three calls do not bring the
    pointer back, and neither do three calls of [previous_cue]. *)
Lemma navigation_wraparound_stops_at_gap :
  snd (format_all_cues Show.server ShowMore.script_gap false) = Return tt
  /\ maxCueGroup ShowMore.server_gap = Int 2
  /\ cueNum ShowMore.server_gap = Int 0
  /\ map cueGroupNumber (rows (allCues ShowMore.server_gap)) = [Some 0; Some 2]
  /\ consistent ShowMore.server_gap = false
  /\ next_cue ShowMore.server_gap
     = (set_cueNum ShowMore.server_gap (Int 1), Raise KeyError)
  /\ repeat_call next_cue 3 ShowMore.server_gap
     = (set_cueNum ShowMore.server_gap (Int 1), Raise KeyError)
  /\ snd (repeat_call previous_cue 3 ShowMore.server_gap) = Raise KeyError
  /\ cueNum (fst (repeat_call previous_cue 3 ShowMore.server_gap)) = Int 1.
Proof. repeat split. Qed.

(** In range and with the group present, the jump lands. *)
Lemma warp_cue_lands (st : ServerData) (m n : Z) :
  consistent st = true -> maxCueGroup st = Int m -> 0 <= n <= m ->
  warp_cue st n = (at_group st n, Return true).
Proof.
  intros Hc Hm Hr. unfold warp_cue. rewrite Hm. simpl.
  replace ((0 <=? n) && (n <=? m)) with true
    by (symmetry; apply andb_true_iff; split; apply Z.leb_le; lia).
  rewrite (format_current_cues_at st n (consistent_has_group st m n Hc Hm Hr)).
  reflexivity.
Qed.

(** C6, as the code has it.  With [n] in [0, maxCueGroup] and group [n]
    holding a row, [warp_cue n] returns [True] and leaves the pointer at
    [n]; that is so for every [n] of the range on a state whose stored
    groups are 0 .. [maxCueGroup].  With [n] in the range and no row in
    group [n] the call raises [KeyError] and the pointer is at [n]
    already.  With [n] anywhere else it returns [False] and the state is
    the one it was given: pointer, snapshot, nodes frame and all the
    rest. *)
Theorem warp_cue_in_and_out_of_range (st : ServerData) (n : Z) :
  (forall m, maxCueGroup st = Int m -> 0 <= n <= m ->
     has_group n (allCues st) = true ->
     exists st', warp_cue st n = (st', Return true) /\ cueNum st' = Int n)
  /\ (forall m, consistent st = true -> maxCueGroup st = Int m -> 0 <= n <= m ->
        exists st', warp_cue st n = (st', Return true) /\ cueNum st' = Int n)
  /\ (forall m, maxCueGroup st = Int m -> 0 <= n <= m ->
        has_group n (allCues st) = false ->
        warp_cue st n = (set_cueNum st (Int n), Raise KeyError))
  /\ (forall m, maxCueGroup st = Int m -> ~ (0 <= n <= m) ->
        warp_cue st n = (st, Return false))
  /\ (maxCueGroup st = NaN -> warp_cue st n = (st, Return false)).
Proof.
  assert (Hin : forall m, maxCueGroup st = Int m -> 0 <= n <= m ->
            in_range n (maxCueGroup st) = true).
  { intros m Hm Hr. rewrite Hm. cbn [in_range]. apply andb_true_iff.
    split; apply Z.leb_le; lia. }
  split; [|split; [|split; [|split]]].
  - intros m Hm Hr Hg. exists (at_group st n). split; [|reflexivity].
    unfold warp_cue. rewrite (Hin m Hm Hr).
    rewrite (format_current_cues_at st n Hg). reflexivity.
  - intros m Hc Hm Hr. exists (at_group st n).
    split; [apply (warp_cue_lands st m n Hc Hm Hr) | reflexivity].
  - intros m Hm Hr Hg. unfold warp_cue. rewrite (Hin m Hm Hr).
    unfold format_current_cues. cbn [cueNum set_cueNum int_of allCues].
    unfold has_group in Hg.
    destruct (filter (in_group n) (rows (allCues st))) as [|r rs] eqn:E;
      [reflexivity|].
    exfalso. assert (Hr' : In r (filter (in_group n) (rows (allCues st))))
      by (rewrite E; left; reflexivity).
    apply filter_In in Hr'. destruct Hr' as [Hr1 Hr2].
    assert (Ht : existsb (in_group n) (rows (allCues st)) = true)
      by (apply existsb_exists; exists r; split; assumption).
    rewrite Ht in Hg. discriminate Hg.
  - intros m Hm Hr. unfold warp_cue. rewrite Hm. simpl.
    destruct ((0 <=? n) && (n <=? m)) eqn:E; [|reflexivity].
    apply andb_true_iff in E. destruct E as [E1 E2].
    apply Z.leb_le in E1. apply Z.leb_le in E2. exfalso. apply Hr. lia.
  - intros Hm. unfold warp_cue. rewrite Hm. reflexivity.
Qed.

(** The show has groups 0 to 2: group 2 is reached, group 3 and group -1
    are refused. *)
Lemma warp_cue_in_and_out_of_range_witness :
  (exists st', warp_cue Show.server 2 = (st', Return true) /\ cueNum st' = Int 2)
  /\ warp_cue Show.server 3 = (Show.server, Return false)
  /\ warp_cue Show.server (-1) = (Show.server, Return false).
Proof.
  split; [|split].
  - apply (proj1 (warp_cue_in_and_out_of_range Show.server 2) 2);
      [reflexivity | lia | reflexivity].
  - apply (proj1 (proj2 (proj2 (proj2 (warp_cue_in_and_out_of_range Show.server 3)))) 2);
      [reflexivity | lia].
  - apply (proj1 (proj2 (proj2 (proj2 (warp_cue_in_and_out_of_range Show.server (-1))))) 2);
      [reflexivity | lia].
Defined.

(** C6 as stated fails.  Once the script with the dropped middle group
    is compiled, 1 is within [0, maxCueGroup], yet [warp_cue 1] does not
    return success: it raises [KeyError], and the pointer has moved from
    0 to 1 while the snapshot is still the one of group 0. *)
Lemma warp_cue_in_range_raises :
  snd (format_all_cues Show.server ShowMore.script_gap false) = Return tt
  /\ maxCueGroup ShowMore.server_gap = Int 2
  /\ cueNum ShowMore.server_gap = Int 0
  /\ has_group 1 (allCues ShowMore.server_gap) = false
  /\ warp_cue ShowMore.server_gap 1
     = (set_cueNum ShowMore.server_gap (Int 1), Raise KeyError)
  /\ cueNum (fst (warp_cue ShowMore.server_gap 1)) = Int 1
  /\ currentCues (fst (warp_cue ShowMore.server_gap 1))
     = currentCues ShowMore.server_gap.
Proof. repeat split. Qed.

(** C10, on a state whose stored groups are 0 .. [maxCueGroup].  A jump
    to the group that is already current still returns [True], still
    recomputes the snapshot, and still puts the empty shell in place of
    the nodes frame: the snapshot holds the rows of the group, cell by
    cell and without the group number; the nodes frame has no Last
    Updated column and one row per cue of the snapshot, with the cue
    number, When, Action and Cue State of the cue and every node field
    missing.  So whatever reports had been merged for the group are gone,
    and the outcome is the same as if [format_nodes] had never been
    called, whether that call returned or raised. *)
Theorem warp_cue_to_current_group (st : ServerData) (m n : Z) :
  consistent st = true -> maxCueGroup st = Int m -> cueNum st = Int n ->
  0 <= n <= m ->
  exists st',
    warp_cue st n = (st', Return true)
    /\ cueNum st' = Int n
    /\ currentCues st' = map drop_group (filter (in_group n) (rows (allCues st)))
    /\ nodes st' = {| hasLastUpdated := false;
                      nodeRows := map node_shell (currentCues st') |}
    /\ (forall r, In r (nodeRows (nodes st')) ->
          nNodeNumber r = None /\ nNodeState r = None
          /\ nTimestamp r = None /\ nLastUpdated r = None)
    /\ (map cueNumber (currentCues st')
          = map cueNumber (filter (in_group n) (rows (allCues st)))
        /\ map cuePrefix (currentCues st')
           = map cuePrefix (filter (in_group n) (rows (allCues st)))
        /\ map when (currentCues st')
           = map when (filter (in_group n) (rows (allCues st)))
        /\ map action (currentCues st')
           = map action (filter (in_group n) (rows (allCues st)))
        /\ map cueState (currentCues st')
           = map cueState (filter (in_group n) (rows (allCues st)))
        /\ (forall r, In r (currentCues st') -> cueGroupNumber r = None))
    /\ (hasLastUpdated (nodes st') = false
        /\ map nCueNumber (nodeRows (nodes st')) = map cueNumber (currentCues st')
        /\ map nWhen (nodeRows (nodes st')) = map when (currentCues st')
        /\ map nAction (nodeRows (nodes st')) = map action (currentCues st')
        /\ map nCueState (nodeRows (nodes st')) = map cueState (currentCues st'))
    /\ (forall now reports,
          warp_cue (fst (format_nodes st now reports)) n = (st', Return true)).
Proof.
  intros Hc Hm Hn Hr.
  pose proof (warp_cue_lands st m n Hc Hm Hr) as Hw.
  exists (at_group st n). split; [exact Hw|].
  split; [reflexivity|]. split; [reflexivity|]. split; [reflexivity|].
  split; [|split; [|split]].
  - intros r Hin. simpl in Hin. apply in_map_iff in Hin.
    destruct Hin as [x [<- _]]. repeat split.
  - unfold at_group. cbn [currentCues reset_nodes set_nodes set_currentCues].
    rewrite !map_map. cbn [drop_group cueNumber cuePrefix when action cueState].
    repeat (split; [reflexivity|]).
    intros r Hin. apply in_map_iff in Hin. destruct Hin as [x [<- _]]. reflexivity.
  - unfold at_group. cbn [nodes currentCues reset_nodes set_nodes set_currentCues
                          hasLastUpdated nodeRows].
    rewrite !map_map. cbn [node_shell nCueNumber nWhen nAction nCueState].
    repeat split; reflexivity.
  - intros now reports.
    destruct (AggregatorFrame.format_nodes_frame st now reports) as [ns [Hf _]].
    rewrite Hf.
    assert (Hc' : consistent (set_nodes st ns) = true) by exact Hc.
    rewrite (warp_cue_lands (set_nodes st ns) m n Hc' Hm Hr).
    rewrite at_group_set_nodes. reflexivity.
Qed.

(** The server is at group 1 and holds the report of node 2: after the
    jump to group 1 the row of the cue is blank again. *)
Lemma warp_cue_to_current_group_witness :
  exists st',
    warp_cue Show.server 1 = (st', Return true)
    /\ cueNum st' = Int 1
    /\ currentCues st' = map drop_group (filter (in_group 1) (rows (allCues Show.server)))
    /\ nodes st' = {| hasLastUpdated := false;
                      nodeRows := map node_shell (currentCues st') |}.
Proof.
  destruct (warp_cue_to_current_group Show.server 2 1 eq_refl eq_refl eq_refl
              ltac:(lia)) as [st' [H1 [H2 [H3 [H4 _]]]]].
  exists st'. split; [exact H1|]. split; [exact H2|]. split; [exact H3 | exact H4].
Defined.

(** C10 as stated fails.  After the failed jump to group 1 of the script
    with the dropped middle group the pointer is at 1, which is within
    [0, maxCueGroup]; the jump to that current group raises [KeyError]
    again and puts no shell in place: snapshot and nodes frame are still
    those of group 0. *)
Lemma warp_cue_to_current_group_raises :
  let st := fst (warp_cue ShowMore.server_gap 1) in
  cueNum st = Int 1
  /\ maxCueGroup st = Int 2
  /\ warp_cue st 1 = (st, Raise KeyError)
  /\ map cueNumber (currentCues st) = [Some "A1"%string]
  /\ map nCueNumber (nodeRows (nodes st)) = [Some "A1"%string].
Proof. repeat split. Qed.

End NavigatorFacts.

(** ** The node status aggregator *)

Module AggregatorFacts.

Import ServerDataManagement.
Import AggregatorFrame.

Local Open Scope string_scope.
Local Open Scope list_scope.
Local Open Scope Z_scope.

(** *** Staleness *)










Example format_timestamp_examples :
  format_timestamp (5 * ns_per_minute) (Some 0) = Return (Some "5 min")
  /\ format_timestamp (150 * ns_per_minute) (Some 0) = Return (Some ">99 min")
  /\ format_timestamp (99 * ns_per_minute) (Some 0) = Return (Some "99 min")
  /\ format_timestamp (100 * ns_per_minute) (Some 0) = Return (Some ">99 min")
  /\ format_timestamp 0 (Some 0) = Return (Some "0 min")
  /\ format_timestamp 0 None = Return None.
Proof. repeat split; vm_compute; reflexivity. Qed.

(** *** Reports *)


(** A report whose cue number is no key of the frame leaves the frame as
    it is. *)
Lemma apply_series_stale (f : NodesFrame) (s : Series) :
  stale f s -> apply_series f s = Return f.
Proof.
  intros [c [Hc E]]. unfold apply_series. rewrite Hc, E. reflexivity.
Qed.

Lemma in_index_keys (c : cell) (f g : NodesFrame) :
  map nCueNumber (nodeRows f) = map nCueNumber (nodeRows g) ->
  in_index c f = in_index c g.
Proof.
  unfold in_index. destruct f as [hf rf], g as [hg rg]. simpl.
  revert rg. induction rf as [|r rf IH]; intros [|r' rg] H; simpl in *;
    try discriminate; [reflexivity|].
  inversion H as [[H1 H2]]. rewrite H1. f_equal. apply IH. exact H2.
Qed.

Lemma series_loop_stale (l : list Series) (f : NodesFrame) :
  (forall s, In s l -> stale f s) -> series_loop l f = Return f.
Proof.
  induction l as [|s l IH]; intros H; [reflexivity|].
  cbn [series_loop]. rewrite (apply_series_stale f s) by (apply H; left; reflexivity).
  cbn [bind]. apply IH. intros s' Hs'. apply H. right. exact Hs'.
Qed.

Lemma series_loop_app (l l' : list Series) : forall f,
  series_loop (l ++ l') f = (f' <- series_loop l f ;; series_loop l' f').
Proof.
  induction l as [|s l IH]; intros f; [reflexivity|].
  cbn [app series_loop]. destruct (apply_series f s) as [f1|e]; [|reflexivity].
  cbn [bind]. apply IH.
Qed.

Lemma series_loop_present (l : list Series) : forall f g,
  map nCueNumber (nodeRows f) = map nCueNumber (nodeRows g) ->
  series_loop l f = series_loop (present g l) f.
Proof.
  induction l as [|s l IH]; intros f g Hk; [reflexivity|].
  unfold present in *. cbn [filter series_loop].
  destruct (sCueNumber s) as [c|] eqn:Hc.
  - rewrite <- (in_index_keys c f g Hk).
    destruct (in_index c f) eqn:E.
    + cbn [series_loop]. destruct (apply_series f s) as [f1|e] eqn:Ea; [|reflexivity].
      cbn [bind]. apply IH.
      rewrite (proj1 (apply_series_keys f f1 s Ea)). exact Hk.
    + unfold apply_series. rewrite Hc, E. cbn [bind]. apply IH. exact Hk.
  - cbn [series_loop]. unfold apply_series. rewrite Hc. reflexivity.
Qed.

Lemma set_nodes_same (st : ServerData) : set_nodes st (nodes st) = st.
Proof. destruct st; reflexivity. Qed.

(** C8, as the code has it.  Reports that carry a cue number which is no
    key of the nodes frame overwrite nothing: the call gives what it
    gives on the list without them, and the keys of the frame stay as
    they are.  When every report of the list is such a report, the loop
    leaves the frame as it was and the only change of the call is the one
    [update_last_updated] makes at its end: the Last Updated column is
    recomputed, every other cell of every row is kept. *)
Theorem format_nodes_stale_reports (st : ServerData) (now : Z) (l : list Series) :
  (forall s, In s l -> stale (nodes st) s) ->
  series_loop l (nodes st) = Return (nodes st)
  /\ format_nodes st now (Some l) = update_last_updated st now
  /\ map unstamped (nodeRows (nodes (fst (format_nodes st now (Some l)))))
     = map unstamped (nodeRows (nodes st))
  /\ (forall l', format_nodes st now (Some (l ++ l')) = format_nodes st now (Some l'))
  /\ (forall l', format_nodes st now (Some l')
                 = format_nodes st now (Some (present (nodes st) l'))).
Proof.
  intros Hab.
  pose proof (series_loop_stale l (nodes st) Hab) as Hloop.
  assert (Hcall : format_nodes st now (Some l) = update_last_updated st now).
  { unfold format_nodes. rewrite Hloop, set_nodes_same. reflexivity. }
  split; [exact Hloop|]. split; [exact Hcall|]. split; [|split].
  - rewrite Hcall.
    destruct (update_last_updated_frame st now) as [[ns [H1 H2]] _].
    rewrite H1. exact H2.
  - intros l'. unfold format_nodes. rewrite series_loop_app, Hloop. reflexivity.
  - intros l'. unfold format_nodes.
    rewrite (series_loop_present l' (nodes st) (nodes st) eq_refl). reflexivity.
Qed.

(** The server is at group 1; the report is for a cue of group 0. *)
Lemma format_nodes_stale_reports_witness :
  series_loop [Show.stale_report] (nodes Show.server) = Return (nodes Show.server)
  /\ format_nodes Show.server (7 * ns_per_minute) (Some [Show.stale_report])
     = update_last_updated Show.server (7 * ns_per_minute).
Proof.
  pose proof (format_nodes_stale_reports Show.server (7 * ns_per_minute)
                [Show.stale_report]) as H.
  assert (Hab : forall s, In s [Show.stale_report] -> stale (nodes Show.server) s).
  { intros s [<-|[]]. exists (Some "A1"). split; reflexivity. }
  split; [exact (proj1 (H Hab)) | exact (proj1 (proj2 (H Hab)))].
Defined.

(** C8 as stated fails: the call changes the nodes frame although the
    only report is for a cue number that is no key of it.  On the server
    of the show the display of the row goes from [5 min] to [7 min]; on a
    frame that has just been reset the call adds the Last Updated
    column. *)
Lemma format_nodes_stale_report_changes_frame :
  stale (nodes Show.server) Show.stale_report
  /\ map nLastUpdated (nodeRows (nodes Show.server)) = [Some "5 min"]
  /\ snd (format_nodes Show.server (7 * ns_per_minute) (Some [Show.stale_report]))
     = Return tt
  /\ map nLastUpdated
       (nodeRows (nodes (fst (format_nodes Show.server (7 * ns_per_minute)
                                (Some [Show.stale_report])))))
     = [Some "7 min"]
  /\ nodes (fst (format_nodes Show.server (7 * ns_per_minute) (Some [Show.stale_report])))
     <> nodes Show.server
  /\ stale (nodes (reset_nodes Show.server)) Show.stale_report
  /\ hasLastUpdated (nodes (reset_nodes Show.server)) = false
  /\ hasLastUpdated
       (nodes (fst (format_nodes (reset_nodes Show.server) (7 * ns_per_minute)
                      (Some [Show.stale_report]))))
     = true.
Proof.
  split; [exists (Some "A1"); split; reflexivity|].
  split; [reflexivity|]. split; [vm_compute; reflexivity|].
  split; [vm_compute; reflexivity|].
  split; [intros H; vm_compute in H; discriminate H|].
  split; [exists (Some "A1"); split; reflexivity|].
  split; [reflexivity | vm_compute; reflexivity].
Qed.

Example format_nodes_fresh_report :
  format_nodes Show.server (7 * ns_per_minute) (Some [Show.fresh_report])
  = (set_nodes Show.server
       {| hasLastUpdated := true;
          nodeRows :=
            [ {| nCueNumber := Some "B1.5"; nWhen := Some "Scene 2";
                 nAction := Some "Sound"; nCueState := Some "Go";
                 nNodeNumber := Some "2"; nNodeState := Some "Ready";
                 nTimestamp := Some (3 * ns_per_minute);
                 nLastUpdated := Some "4 min" |} ] |},
     Return tt).
Proof. vm_compute. reflexivity. Qed.

End AggregatorFacts.

(** ** The cue compiler *)

Module CompilerFacts.

Import ServerDataManagement.

Local Open Scope string_scope.
Local Open Scope list_scope.
Local Open Scope Z_scope.

(** *** The prefix of a cue number *)

Lemma cell_is_eq (c : cell) (s : string) : cell_is c s = true -> c = Some s.
Proof.
  destruct c as [x|]; simpl; [|discriminate].
  intros H. apply String.eqb_eq in H. subst. reflexivity.
Qed.

Lemma resolves_matching (attrs : list Attribute) (cue : string) :
  resolves attrs cue = true ->
  matching_prefixes attrs cue = [Some (strip_digits cue)].
Proof.
  unfold resolves. intros H. apply Nat.eqb_eq in H.
  destruct (matching_prefixes attrs cue) as [|p [|q l]] eqn:E; try discriminate.
  assert (Hin : In p (matching_prefixes attrs cue)) by (rewrite E; left; reflexivity).
  unfold matching_prefixes in Hin. apply filter_In in Hin. destruct Hin as [_ Hp].
  apply cell_is_eq in Hp. subst p. reflexivity.
Qed.

Lemma get_prefix_resolves (attrs : list Attribute) (cue : string) :
  resolves attrs cue = true ->
  __get_prefix attrs cue = Return (Some (strip_digits cue)).
Proof.
  intros H. unfold __get_prefix.
  change (filter (fun p => cell_is p (strip_digits cue)) (map attrCuePrefix attrs))
    with (matching_prefixes attrs cue).
  rewrite (resolves_matching attrs cue H). reflexivity.
Qed.

Lemma resolved_prefix_in (attrs : list Attribute) (cue : string) :
  resolves attrs cue = true ->
  In (Some (strip_digits cue)) (map attrCuePrefix attrs).
Proof.
  intros H. pose proof (resolves_matching attrs cue H) as E.
  assert (Hin : In (Some (strip_digits cue)) (matching_prefixes attrs cue))
    by (rewrite E; left; reflexivity).
  unfold matching_prefixes in Hin. apply filter_In in Hin. tauto.
Qed.

(** A cue number that ends in the superscript two (code point 178),
    which [str.isdigit] accepts: the prefix is what is before it. *)
Example get_prefix_superscript :
  __get_prefix Show.attrs (String "A" (String (ascii_of_nat 178) EmptyString))
  = Return (Some "A"%string).
Proof. reflexivity. Qed.

Lemma get_prefix_reserved (attrs : list Attribute) :
  exists p, __get_prefix attrs last_row_storage = Return p.
Proof.
  unfold __get_prefix.
  destruct (filter _ _) as [|p [|q l]]; try rewrite String.eqb_refl; eauto.
Qed.

(** [__get_prefix] raises nothing but [FormatCheckError]. *)
Lemma get_prefix_raises (attrs : list Attribute) (cue : string) (e : exn) :
  __get_prefix attrs cue = Raise e -> exists p s, e = FormatCheckError p s.
Proof.
  unfold __get_prefix.
  destruct (filter _ _) as [|p [|q l]]; try discriminate;
    destruct (cue =? last_row_storage)%string; try discriminate;
    intros H; inversion H; eauto.
Qed.

(** *** The loop *)

Lemma group_loop_returns (attrs : list Attribute) (ivs : list cell) :
  (forall cue, In (Some cue) ivs -> exists p, __get_prefix attrs cue = Return p) ->
  forall g gc pc,
    group_loop attrs ivs g gc pc
    = Return (gc ++ groups_of ivs g, pc ++ map (prefix_of attrs) ivs).
Proof.
  induction ivs as [|[cue|] ivs IH]; intros Hok g gc pc; simpl.
  - rewrite !app_nil_r. reflexivity.
  - destruct (Hok cue (or_introl eq_refl)) as [p Hp].
    rewrite Hp. simpl.
    rewrite IH by (intros c Hc; apply Hok; right; exact Hc).
    rewrite <- !app_assoc. reflexivity.
  - rewrite IH by (intros c Hc; apply Hok; right; exact Hc).
    rewrite <- !app_assoc. reflexivity.
Qed.

Lemma group_loop_raises (attrs : list Attribute) (ivs : list cell) (e : exn) :
  forall g gc pc,
    group_loop attrs ivs g gc pc = Raise e -> exists p s, e = FormatCheckError p s.
Proof.
  induction ivs as [|[cue|] ivs IH]; intros g gc pc; simpl.
  - discriminate.
  - destruct (__get_prefix attrs cue) as [p|e'] eqn:E; simpl.
    + apply IH.
    + intros H. inversion H. subst. apply (get_prefix_raises attrs cue e E).
  - apply IH.
Qed.

(** The two columns have the length of the frame. *)
Lemma group_loop_lengths (attrs : list Attribute) (ivs : list cell)
    (gc : list Z) (pc : list cell) :
  group_loop attrs ivs 0 [] [None] = Return (gc, pc) ->
  List.length gc = List.length ivs /\ List.length (removelast pc) = List.length ivs.
Proof.
  assert (Hgen : forall ivs g gc0 pc0 gc pc,
             group_loop attrs ivs g gc0 pc0 = Return (gc, pc) ->
             List.length gc = (List.length gc0 + List.length ivs)%nat
             /\ List.length pc = (List.length pc0 + List.length ivs)%nat).
  { clear. induction ivs as [|[cue|] ivs IH]; intros g gc0 pc0 gc pc; simpl.
    - intros H. inversion H. subst. lia.
    - destruct (__get_prefix attrs cue) as [p|e]; simpl; [|discriminate].
      intros H. apply IH in H. rewrite !length_app in H. simpl in H. lia.
    - intros H. apply IH in H. rewrite !length_app in H. simpl in H. lia. }
  intros H. apply Hgen in H. simpl in H. destruct H as [H1 H2].
  split; [exact H1|].
  destruct pc as [|p pc]; [simpl in H2; lia|].
  assert (Hrl : forall (A : Type) (l : list A) (x : A),
             S (List.length (removelast (x :: l))) = List.length (x :: l)).
  { clear. intros A l. induction l as [|y l IH]; intros x; [reflexivity|].
    change (removelast (x :: y :: l)) with (x :: removelast (y :: l)).
    change (List.length (x :: removelast (y :: l)))
      with (S (List.length (removelast (y :: l)))).
    rewrite IH. reflexivity. }
  pose proof (Hrl _ pc p) as Hpc.
  change (List.length (p :: pc)) with (S (List.length pc)) in Hpc, H2.
  simpl in H2. lia.
Qed.

(** *** The two column assignments and the shift back *)

Lemma removelast_cons2 (A : Type) (x y : A) (l : list A) :
  removelast (x :: y :: l) = x :: removelast (y :: l).
Proof. reflexivity. Qed.

Lemma shift_up_assign (attrs : list Attribute) (rs : list Row) :
  forall g p0,
    shift_up (assign_columns rs (groups_of (map cueNumber rs) g)
                (removelast (p0 :: map (prefix_of attrs) (map cueNumber rs))))
    = paired attrs rs g.
Proof.
  induction rs as [|r rest IH]; intros g p0; [reflexivity|].
  destruct rest as [|r' rest'].
  - destruct r as [gr [c|] pr w a s]; reflexivity.
  - assert (Hstep : forall g',
      groups_of (map cueNumber (r :: r' :: rest')) g
        = g' :: groups_of (map cueNumber (r' :: rest')) g' ->
      g' = (if isna (cueNumber r) then g + 1 else g) ->
      shift_up (assign_columns (r :: r' :: rest')
                  (groups_of (map cueNumber (r :: r' :: rest')) g)
                  (removelast (p0 :: map (prefix_of attrs)
                                       (map cueNumber (r :: r' :: rest')))))
      = paired attrs (r :: r' :: rest') g).
    { intros g' Hg Hg'. rewrite Hg.
      change (map (prefix_of attrs) (map cueNumber (r :: r' :: rest')))
        with (prefix_of attrs (cueNumber r)
                :: map (prefix_of attrs) (map cueNumber (r' :: rest'))).
      rewrite removelast_cons2.
      change (assign_columns (r :: r' :: rest')
                (g' :: groups_of (map cueNumber (r' :: rest')) g')
                (p0 :: removelast (prefix_of attrs (cueNumber r)
                                     :: map (prefix_of attrs)
                                          (map cueNumber (r' :: rest')))))
        with (set_group_prefix r g' p0
                :: assign_columns (r' :: rest')
                     (groups_of (map cueNumber (r' :: rest')) g')
                     (removelast (prefix_of attrs (cueNumber r)
                                    :: map (prefix_of attrs)
                                         (map cueNumber (r' :: rest'))))).
      pose proof (IH g' (prefix_of attrs (cueNumber r))) as IH'.
      remember (assign_columns (r' :: rest')
                  (groups_of (map cueNumber (r' :: rest')) g')
                  (removelast (prefix_of attrs (cueNumber r)
                                 :: map (prefix_of attrs)
                                      (map cueNumber (r' :: rest'))))) as L eqn:HL.
      assert (Hhead : exists x L', L = x :: L'
                        /\ get_data4 x = (prefix_of attrs (cueNumber r),
                                          when r', action r', cueState r')).
      { rewrite HL. destruct (cueNumber r') as [c'|] eqn:Ec';
          simpl; rewrite Ec'; simpl;
          destruct rest'; simpl; eexists; eexists; split; reflexivity. }
      destruct Hhead as [x [L' [HxL Hx]]].
      rewrite HxL. rewrite HxL in IH'.
      change (shift_up (set_group_prefix r g' p0 :: x :: L'))
        with (set_data4 (set_group_prefix r g' p0) (get_data4 x) :: shift_up (x :: L')).
      rewrite IH', Hx.
      change (paired attrs (r :: r' :: rest') g)
        with ({| cueGroupNumber := Some (if isna (cueNumber r) then g + 1 else g);
                 cueNumber := cueNumber r;
                 cuePrefix := prefix_of attrs (cueNumber r);
                 when := when r'; action := action r'; cueState := cueState r' |}
              :: paired attrs (r' :: rest')
                   (if isna (cueNumber r) then g + 1 else g)).
      rewrite <- Hg'. reflexivity. }
    destruct (cueNumber r) as [c|] eqn:Ec.
    + apply (Hstep g); [simpl; rewrite Ec; reflexivity | reflexivity].
    + apply (Hstep (g + 1)); [simpl; rewrite Ec; reflexivity | reflexivity].
Qed.

(** *** From the shifted frame to the forward scan *)

Lemma all_na_cells (r : Row) :
  all_na r = true ->
  cueNumber r = None /\ when r = None /\ action r = None /\ cueState r = None.
Proof.
  unfold all_na. destruct (cueNumber r), (when r), (action r), (cueState r);
    simpl; intros H; try discriminate; auto.
Qed.

Lemma cue_row_cells (attrs : list Attribute) (sts : list StateRow) (r : Row) :
  cue_row attrs sts r = true ->
  exists cue w a s,
    cueNumber r = Some cue /\ when r = Some w /\ action r = Some a
    /\ cueState r = Some s /\ (cue =? last_row_storage)%string = false
    /\ resolves attrs cue = true /\ in_states sts (Some s) = true.
Proof.
  unfold cue_row. destruct (cueNumber r) as [cue|]; [|discriminate].
  destruct (when r) as [w|], (action r) as [a|], (cueState r) as [s|];
    simpl; rewrite ?andb_false_r; try discriminate.
  intros H. repeat (apply andb_true_iff in H; destruct H as [H ?]).
  exists cue, w, a, s. repeat split; auto.
  apply negb_true_iff. exact H.
Qed.

Lemma valid_row_cases (attrs : list Attribute) (sts : list StateRow) (r : Row) :
  valid_row attrs sts r = true ->
  all_na r = true \/ (all_na r = false /\ cue_row attrs sts r = true).
Proof.
  unfold valid_row. destruct (all_na r) eqn:E; [auto|].
  simpl. intros H. right. auto.
Qed.

(** After a complete row the next row of the shifted frame is kept and
    carries the data of that row. *)
Lemma shifted_rows_head (d : data3) (rest : list Row) :
  full3 d = true ->
  exists x tl, shifted_rows d rest = x :: tl /\ get_data3 x = d.
Proof.
  destruct d as [[w a] s]. intros Hd. unfold full3 in Hd.
  destruct w as [w|], a as [a|], s as [s|]; try discriminate.
  unfold shifted_rows. destruct rest as [|r rest]; simpl.
  - eexists. eexists. split; reflexivity.
  - unfold all_na. simpl. rewrite !andb_false_r. simpl.
    eexists. eexists. split; reflexivity.
Qed.

Lemma shifted_rows_cons (prev : data3) (r : Row) (rest : list Row) :
  shifted_rows prev (r :: rest)
  = if all_na (set_data3 r prev) then shifted_rows (get_data3 r) rest
    else set_data3 r prev :: shifted_rows (get_data3 r) rest.
Proof.
  unfold shifted_rows. simpl. destruct (all_na (set_data3 r prev)); reflexivity.
Qed.

Lemma scan_correct (attrs : list Attribute) (sts : list StateRow) (rs : list Row) :
  forallb (valid_row attrs sts) rs = true ->
  forall prev g,
    prev = (None, None, None) \/ full3 prev = true ->
    dropna (paired attrs (shifted_rows prev rs) g) = assign_groups rs g (full3 prev).
Proof.
  induction rs as [|r rest IH]; intros Hv prev g Hprev.
  - unfold shifted_rows. simpl. destruct prev as [[w a] s]. reflexivity.
  - simpl in Hv. apply andb_true_iff in Hv. destruct Hv as [Hr Hrest].
    rewrite shifted_rows_cons.
    destruct (valid_row_cases attrs sts r Hr) as [Hb|[Hnb Hc]].
    + (* a blank row *)
      destruct (all_na_cells r Hb) as [Ec [Ew [Ea Es]]].
      assert (Hd : get_data3 r = (None, None, None))
        by (unfold get_data3; rewrite Ew, Ea, Es; reflexivity).
      rewrite Hd. simpl assign_groups. rewrite Hb.
      destruct Hprev as [->|Hfull].
      * assert (Hall : all_na (set_data3 r (None, None, None)) = true)
          by (unfold all_na; simpl; rewrite Ec; reflexivity).
        rewrite Hall. simpl full3.
        apply (IH Hrest (None, None, None) g). left. reflexivity.
      * rewrite Hfull.
        assert (Hall : all_na (set_data3 r prev) = false).
        { destruct prev as [[w a] s]. unfold full3 in Hfull.
          destruct w, a, s; try discriminate.
          unfold all_na. simpl. rewrite !andb_false_r. reflexivity. }
        rewrite Hall.
        assert (Hhead : forall tl,
                  dropna (paired attrs (set_data3 r prev :: tl) g)
                  = dropna (paired attrs tl (g + 1))).
        { intros tl. destruct prev as [[w a] s]. simpl. rewrite Ec. simpl.
          unfold dropna. simpl. unfold any_na. simpl.
          destruct tl; reflexivity. }
        rewrite Hhead.
        apply (IH Hrest (None, None, None) (g + 1)). left. reflexivity.
    + (* a cue row *)
      destruct (cue_row_cells attrs sts r Hc)
        as [cue [w [a [s [Ec [Ew [Ea [Es [Hres [Hrs Hst]]]]]]]]]].
      assert (Hkeep : all_na (set_data3 r prev) = false).
      { destruct prev as [[w0 a0] s0]. unfold all_na. simpl. rewrite Ec. reflexivity. }
      rewrite Hkeep. simpl assign_groups. rewrite Hnb.
      assert (Hfull : full3 (get_data3 r) = true)
        by (unfold get_data3; rewrite Ew, Ea, Es; reflexivity).
      destruct (shifted_rows_head (get_data3 r) rest Hfull) as [x [tl [Hx Hdx]]].
      pose proof (IH Hrest (get_data3 r) g (or_intror Hfull)) as IH'.
      rewrite Hfull in IH'. rewrite Hx in *.
      assert (Hhead : paired attrs (set_data3 r prev :: x :: tl) g
                      = compiled_row g r :: paired attrs (x :: tl) g).
      { destruct prev as [[w0 a0] s0].
        change (paired attrs (set_data3 r (w0, a0, s0) :: x :: tl) g)
          with ({| cueGroupNumber := Some (if isna (cueNumber r) then g + 1 else g);
                   cueNumber := cueNumber r;
                   cuePrefix := prefix_of attrs (cueNumber r);
                   when := when x; action := action x; cueState := cueState x |}
                :: paired attrs (x :: tl) (if isna (cueNumber r) then g + 1 else g)).
        unfold get_data3 in Hdx. inversion Hdx as [[Hw Ha Hs]].
        unfold compiled_row. rewrite Hw, Ha, Hs, Ec. simpl.
        rewrite (get_prefix_resolves attrs cue Hrs). reflexivity. }
      rewrite Hhead.
      change (dropna (compiled_row g r :: paired attrs (x :: tl) g))
        with (if negb (any_na (compiled_row g r))
              then compiled_row g r :: dropna (paired attrs (x :: tl) g)
              else dropna (paired attrs (x :: tl) g)).
      assert (Hany : any_na (compiled_row g r) = false)
        by (unfold any_na, compiled_row; simpl; rewrite Ec, Ew, Ea, Es; reflexivity).
      rewrite Hany. change (negb false) with true. cbv iota.
      rewrite IH'. reflexivity.
Qed.

(** *** The sentinel row and the index values *)

Lemma no_reserved_label (attrs : list Attribute) (sts : list StateRow) (rs : list Row) :
  forallb (valid_row attrs sts) rs = true ->
  existsb (fun r => cell_is (cueNumber r) last_row_storage) rs = false.
Proof.
  induction rs as [|r rest IH]; simpl; [reflexivity|].
  intros H. apply andb_true_iff in H. destruct H as [Hr Hrest].
  rewrite (IH Hrest), orb_false_r.
  destruct (valid_row_cases attrs sts r Hr) as [Hb|[_ Hc]].
  - destruct (all_na_cells r Hb) as [Ec _]. rewrite Ec. reflexivity.
  - destruct (cue_row_cells attrs sts r Hc) as [cue [w [a [s [Ec [_ [_ [_ [Hres _]]]]]]]]].
    rewrite Ec. exact Hres.
Qed.

Lemma set_last_row_storage_valid (attrs : list Attribute) (sts : list StateRow)
    (rs : list Row) :
  forallb (valid_row attrs sts) rs = true ->
  set_last_row_storage rs = rs ++ [blank_cells (Some last_row_storage)].
Proof.
  intros H. unfold set_last_row_storage.
  rewrite (no_reserved_label attrs sts rs H). reflexivity.
Qed.

Lemma shift_down_cue_numbers (l : list Row) : forall prev,
  map cueNumber (shift_down prev l) = map cueNumber l.
Proof.
  induction l as [|r l IH]; intros prev; [reflexivity|].
  simpl. rewrite IH. destruct prev as [[w a] s]. reflexivity.
Qed.

Lemma shifted_cue_numbers (prev : data3) (rs : list Row) (c : string) :
  In (Some c) (map cueNumber (shifted_rows prev rs)) ->
  In (Some c) (map cueNumber rs) \/ c = last_row_storage.
Proof.
  intros H. apply in_map_iff in H. destruct H as [x [Hx Hin]].
  unfold shifted_rows, dropna_all in Hin. apply filter_In in Hin.
  destruct Hin as [Hin _].
  assert (H' : In (Some c) (map cueNumber (shift_down prev
                  (rs ++ [blank_cells (Some last_row_storage)])))).
  { rewrite <- Hx. apply in_map. exact Hin. }
  rewrite shift_down_cue_numbers, map_app in H'. apply in_app_or in H'.
  destruct H' as [H'|[H'|[]]]; [left; exact H'|].
  right. simpl in H'. inversion H'. reflexivity.
Qed.

Lemma valid_cue_resolves (attrs : list Attribute) (sts : list StateRow)
    (rs : list Row) (c : string) :
  forallb (valid_row attrs sts) rs = true ->
  In (Some c) (map cueNumber rs) -> resolves attrs c = true.
Proof.
  intros Hv Hin. apply in_map_iff in Hin. destruct Hin as [r [Hc Hr]].
  rewrite forallb_forall in Hv.
  destruct (valid_row_cases attrs sts r (Hv r Hr)) as [Hb|[_ Hcue]].
  - destruct (all_na_cells r Hb) as [Ec _]. congruence.
  - destruct (cue_row_cells attrs sts r Hcue)
      as [cue [w [a [s [Ec [_ [_ [_ [_ [Hres _]]]]]]]]]].
    congruence.
Qed.

(** *** The rows of the scan *)

Lemma assign_groups_rows (attrs : list Attribute) (sts : list StateRow) (rs : list Row) :
  forallb (valid_row attrs sts) rs = true ->
  forall g b x,
    In x (assign_groups rs g b) ->
    exists r k, In r rs /\ cue_row attrs sts r = true /\ x = compiled_row k r /\ g <= k.
Proof.
  induction rs as [|r rest IH]; intros Hv g b x Hin; [destruct Hin|].
  simpl in Hv. apply andb_true_iff in Hv. destruct Hv as [Hr Hrest].
  simpl in Hin.
  destruct (valid_row_cases attrs sts r Hr) as [Hb|[Hnb Hc]].
  - rewrite Hb in Hin. apply (IH Hrest) in Hin.
    destruct Hin as [r0 [k [H1 [H2 [H3 H4]]]]].
    exists r0, k. repeat split; auto; [right; exact H1|].
    destruct b; lia.
  - rewrite Hnb in Hin. destruct Hin as [<-|Hin].
    + exists r, g. repeat split; auto; [left; reflexivity | lia].
    + apply (IH Hrest) in Hin. destruct Hin as [r0 [k [H1 [H2 [H3 H4]]]]].
      exists r0, k. repeat split; auto. right. exact H1.
Qed.

Lemma assign_groups_states (attrs : list Attribute) (sts : list StateRow) (rs : list Row) :
  forallb (valid_row attrs sts) rs = true ->
  forall g b,
    existsb (fun r => negb (in_states sts (cueState r))) (assign_groups rs g b) = false.
Proof.
  intros Hv g b.
  destruct (existsb _ (assign_groups rs g b)) eqn:E; [|reflexivity].
  apply existsb_exists in E. destruct E as [x [Hin Hx]].
  destruct (assign_groups_rows attrs sts rs Hv g b x Hin) as [r [k [_ [Hc [-> _]]]]].
  destruct (cue_row_cells attrs sts r Hc) as [cue [w [a [s [_ [_ [_ [Es [_ [_ Hst]]]]]]]]]].
  simpl in Hx. rewrite Es, Hst in Hx. discriminate.
Qed.

Lemma column_max_ge (col : list (option Z)) : forall m k,
  column_max col = Int m -> In (Some k) col -> k <= m.
Proof.
  induction col as [|c col IH]; intros m k Hm Hin; [destruct Hin|].
  simpl in Hm. destruct Hin as [->|Hin].
  - destruct (column_max col) as [m'|]; inversion Hm; lia.
  - destruct c as [z|].
    + destruct (column_max col) as [m'|] eqn:E.
      * inversion Hm. pose proof (IH m' k eq_refl Hin). lia.
      * clear -E Hin. exfalso. induction col as [|c col IHc]; [destruct Hin|].
        simpl in E. destruct Hin as [->|Hin].
        -- destruct (column_max col); discriminate.
        -- destruct c; [destruct (column_max col); discriminate | auto].
    + apply IH; assumption.
Qed.

Lemma column_max_in (col : list (option Z)) : forall m,
  column_max col = Int m -> In (Some m) col.
Proof.
  induction col as [|c col IH]; intros m Hm; [discriminate|].
  simpl in Hm. destruct c as [z|].
  - destruct (column_max col) as [m'|] eqn:E.
    + inversion Hm. destruct (Z.max_spec z m') as [[_ ->]|[_ ->]].
      * right. apply IH. reflexivity.
      * left. reflexivity.
    + inversion Hm. left. reflexivity.
  - right. apply IH. exact Hm.
Qed.

(** Every group number from the first one up to the maximum is the
    number of some row. *)
Lemma assign_groups_cover (rs : list Row) : forall g b m,
  column_max (map cueGroupNumber (assign_groups rs g b)) = Int m ->
  forall k, (if b then g + 1 else g) <= k <= m ->
            In (Some k) (map cueGroupNumber (assign_groups rs g b)).
Proof.
  induction rs as [|r rest IH]; intros g b m Hm k Hk; [discriminate|].
  simpl in *. destruct (all_na r).
  - apply (IH _ false m Hm). exact Hk.
  - simpl in *.
    destruct (Z.eq_dec k g) as [->|Hne]; [left; reflexivity|].
    right.
    destruct (column_max (map cueGroupNumber (assign_groups rest g true)))
      as [m'|] eqn:E.
    + inversion Hm. apply (IH g true m' E). destruct b; lia.
    + inversion Hm. destruct b; lia.
Qed.

Lemma assign_groups_climbs (rs : list Row) : forall g b,
  climbs_from b g (map cueGroupNumber (assign_groups rs g b)).
Proof.
  induction rs as [|r rest IH]; intros g b; [exact I|].
  simpl. destruct (all_na r).
  - destruct b.
    + pose proof (IH (g + 1) false) as H.
      destruct (map cueGroupNumber (assign_groups rest (g + 1) false)) as [|c col];
        [exact I|].
      simpl in *. destruct H as [[->|[Hf _]] H2]; [|discriminate].
      split; [right; auto | exact H2].
    + apply IH.
  - simpl. split; [left; reflexivity | apply IH].
Qed.

(** Blank rows before the first cue and after the last one do not show
    in the result. *)
Lemma assign_groups_leading (a : nat) (rs : list Row) (g : Z) :
  assign_groups (repeat blank_row a ++ rs) g false = assign_groups rs g false.
Proof. induction a as [|a IH]; [reflexivity | exact IH]. Qed.

Lemma assign_groups_blank (b : nat) : forall g x,
  assign_groups (repeat blank_row b) g x = [].
Proof. induction b as [|b IH]; intros g x; [reflexivity | apply IH]. Qed.

Lemma assign_groups_trailing (b : nat) (rs : list Row) : forall g x,
  assign_groups (rs ++ repeat blank_row b) g x = assign_groups rs g x.
Proof.
  induction rs as [|r rest IH]; intros g x.
  - simpl. rewrite assign_groups_blank. reflexivity.
  - simpl. destruct (all_na r); [apply IH | rewrite IH; reflexivity].
Qed.

Lemma forallb_repeat_blank (attrs : list Attribute) (sts : list StateRow) (n : nat) :
  forallb (valid_row attrs sts) (repeat blank_row n) = true.
Proof. induction n as [|n IH]; [reflexivity | exact IH]. Qed.

Lemma padded_valid (attrs : list Attribute) (sts : list StateRow) (a b : nat)
    (df : DataFrame) :
  valid_raw_table attrs sts df = true ->
  valid_raw_table attrs sts (padded a b df) = true.
Proof.
  unfold valid_raw_table, padded, columns_ok, cue_number_first. simpl. intros H.
  apply andb_true_iff in H. destruct H as [H1 H2]. rewrite H1. simpl.
  rewrite !forallb_app, !forallb_repeat_blank, H2. reflexivity.
Qed.

Lemma padded_compiled (a b : nat) (df : DataFrame) :
  compiled (padded a b df) = compiled df.
Proof.
  unfold compiled, padded. simpl.
  rewrite assign_groups_leading, assign_groups_trailing. reflexivity.
Qed.

(** *** The column titles *)

Lemma list_eqb_eq (l1 l2 : list string) : list_eqb l1 l2 = true -> l1 = l2.
Proof.
  revert l2. induction l1 as [|x l1 IH]; intros [|y l2]; simpl; try discriminate.
  - reflexivity.
  - intros H. apply andb_true_iff in H. destruct H as [H1 H2].
    apply String.eqb_eq in H1. subst. f_equal. auto.
Qed.

Lemma insert_sorted_length (x : string) (l : list string) :
  List.length (insert_sorted x l) = S (List.length l).
Proof.
  induction l as [|y l IH]; simpl; [reflexivity|].
  destruct (String.leb x y); simpl; [reflexivity | rewrite IH; reflexivity].
Qed.

Lemma sort_length (l : list string) : List.length (sort l) = List.length l.
Proof.
  induction l as [|x l IH]; simpl; [reflexivity|].
  rewrite insert_sorted_length, IH. reflexivity.
Qed.

Ltac split_leb H :=
  repeat (cbn [sort insert_sorted] in H;
          match type of H with
          | context [if String.leb ?x ?y then _ else _] =>
              destruct (String.leb x y)
          end).

(** A frame that passes the first check passes the second one once the
    group and the prefix are in place. *)
Lemma formatted_names_ok (ns : list string) :
  list_eqb (sort ns) (sort raw_column_names) = true ->
  list_eqb (sort (formatted_names ns)) (sort formatted_column_names) = true.
Proof.
  intros H. apply list_eqb_eq in H.
  assert (Hlen : List.length ns = 4%nat)
    by (rewrite <- sort_length, H; reflexivity).
  destruct ns as [|a [|b [|c [|d [|e ns]]]]]; try discriminate.
  assert (Hs : sort raw_column_names = ["Action"; "Cue Number"; "Cue State"; "When"])
    by reflexivity.
  rewrite Hs in H. clear Hs Hlen.
  split_leb H; cbn [sort insert_sorted] in H; inversion H; subst; reflexivity.
Qed.

(** *** The [try] block and the call on a valid table *)

(** *** The index of the table *)

Lemma valid_raw_table_parts (attrs : list Attribute) (sts : list StateRow)
    (df : DataFrame) :
  valid_raw_table attrs sts df = true ->
  columns_ok df = true /\ cue_number_first df = true
  /\ forallb (valid_row attrs sts) (rows df) = true.
Proof.
  unfold valid_raw_table. intros H.
  apply andb_true_iff in H. destruct H as [H H3].
  apply andb_true_iff in H. destruct H as [H1 H2]. repeat split; assumption.
Qed.

Lemma index_column_cue_number (df : DataFrame) :
  cue_number_first df = true -> index_column df = ColCueNumber.
Proof.
  unfold cue_number_first, index_column. destruct (names df) as [|title ns];
    [discriminate|].
  intros H. apply String.eqb_eq in H. subst title. reflexivity.
Qed.

Lemma shift_from_cue_number (rs : list Row) : forall prev,
  shift_from ColCueNumber prev rs = shift_down (get_data3 prev) rs.
Proof.
  induction rs as [|r rs IH]; intros prev; [reflexivity|].
  cbn [shift_from shift_down]. rewrite IH. reflexivity.
Qed.

Lemma shift_frame_cue_number (rs : list Row) :
  shift_frame ColCueNumber rs = shift rs.
Proof. unfold shift_frame, shift. apply shift_from_cue_number. Qed.

Lemma loc_last_row_storage_cue_number (rs : list Row) :
  loc_last_row_storage ColCueNumber rs = set_last_row_storage rs.
Proof. reflexivity. Qed.

(** With Cue Number as the index the frame before the loop is the one of
    [shift] and [set_last_row_storage]. *)
Lemma try_block_cue_number (st : ServerData) (df : DataFrame) :
  cue_number_first df = true ->
  dropna_all (shift_frame (index_column df)
                (loc_last_row_storage (index_column df) (rows df)))
  = dropna_all (shift (set_last_row_storage (rows df))).
Proof.
  intros H. rewrite (index_column_cue_number df H).
  rewrite loc_last_row_storage_cue_number, shift_frame_cue_number. reflexivity.
Qed.

Lemma try_block_valid (st : ServerData) (df : DataFrame) :
  valid_raw_table (attributes st) (states st) df = true ->
  try_block st df false = (compiled df, Return tt).
Proof.
  intros Hv. destruct (valid_raw_table_parts _ _ _ Hv) as [Hcols [Hfirst Hrows]].
  unfold columns_ok in Hcols.
  unfold try_block. simpl negb. cbv iota zeta.
  unfold __check_columns_names at 1. rewrite Hcols.
  rewrite (try_block_cue_number st df Hfirst).
  rewrite (set_last_row_storage_valid (attributes st) (states st) (rows df) Hrows).
  change (dropna_all (shift (rows df ++ [blank_cells (Some last_row_storage)])))
    with (shifted_rows (None, None, None) (rows df)).
  cbn [rows names].
  rewrite group_loop_returns.
  - cbn [app].
    rewrite (shift_up_assign (attributes st) (shifted_rows (None, None, None) (rows df))
               0 None).
    rewrite (scan_correct (attributes st) (states st) (rows df) Hrows
               (None, None, None) 0 (or_introl eq_refl)).
    change (full3 (None, None, None)) with false.
    unfold final_checks, compiled. f_equal.
    unfold __check_columns_names. cbn [names rows].
    rewrite (formatted_names_ok (names df) Hcols). simpl bind.
    unfold check_cue_states. cbn [rows].
    rewrite (assign_groups_states (attributes st) (states st) (rows df) Hrows).
    reflexivity.
  - intros cue Hin. apply shifted_cue_numbers in Hin. destruct Hin as [Hin| ->].
    + exists (Some (strip_digits cue)). apply get_prefix_resolves.
      apply (valid_cue_resolves (attributes st) (states st) (rows df) cue Hrows Hin).
    + apply get_prefix_reserved.
Qed.

Lemma format_all_cues_valid (st : ServerData) (df : DataFrame) :
  valid_raw_table (attributes st) (states st) df = true ->
  format_all_cues st df false = (compiled_state st df, Return tt).
Proof.
  intros Hv. unfold format_all_cues. rewrite (try_block_valid st df Hv).
  unfold update_max_cue_group.
  change (has_name "Cue Group Number" (allCues (set_allCues st (compiled df))))
    with true. cbv iota.
  change (rows (allCues (set_allCues st (compiled df)))) with (rows (compiled df)).
  unfold compiled_state.
  set (st1 := set_maxCueGroup (set_allCues st (compiled df))
                (column_max (map cueGroupNumber (rows (compiled df))))).
  destruct (rows (compiled df)) as [|x out] eqn:Eout.
  - reflexivity.
  - unfold warp_cue.
    change (maxCueGroup st1) with (column_max (map cueGroupNumber (x :: out))).
    destruct (column_max (map cueGroupNumber (x :: out))) as [m|] eqn:Em.
    + assert (Hm0 : 0 <= m).
      { pose proof (column_max_in _ m Em) as Hin.
        rewrite <- Eout in Hin. apply in_map_iff in Hin.
        destruct Hin as [y [Hy Hin]].
        unfold valid_raw_table in Hv. apply andb_true_iff in Hv.
        destruct Hv as [_ Hrows].
        destruct (assign_groups_rows _ _ _ Hrows 0 false y Hin)
          as [r [k [_ [_ [-> Hk]]]]].
        simpl in Hy. inversion Hy. lia. }
      unfold in_range.
      replace ((0 <=? 0) && (0 <=? m)) with true
        by (symmetry; apply andb_true_iff; split; apply Z.leb_le; lia).
      rewrite (NavigatorFacts.format_current_cues_at st1 0); [reflexivity|].
      unfold has_group.
      change (rows (allCues st1)) with (rows (compiled df)).
      assert (Hin : In (Some 0) (map cueGroupNumber (rows (compiled df)))).
      { apply (assign_groups_cover (rows df) 0 false m).
        - change (assign_groups (rows df) 0 false) with (rows (compiled df)).
          rewrite Eout. exact Em.
        - lia. }
      apply in_map_iff in Hin. destruct Hin as [y [Hy Hin]].
      apply existsb_exists. exists y. split; [exact Hin|].
      unfold in_group. rewrite Hy. reflexivity.
    + exfalso. simpl in Em. 
      unfold valid_raw_table in Hv. apply andb_true_iff in Hv.
      destruct Hv as [_ Hrows].
      assert (Hin : In x (assign_groups (rows df) 0 false)).
      { change (assign_groups (rows df) 0 false) with (rows (compiled df)).
        rewrite Eout. left. reflexivity. }
      destruct (assign_groups_rows _ _ _ Hrows 0 false x Hin)
        as [r [k [_ [_ [-> _]]]]].
      simpl in Em. destruct (column_max (map cueGroupNumber out)); discriminate.
Qed.

Lemma compiled_state_fields (st : ServerData) (df : DataFrame) :
  attributes (compiled_state st df) = attributes st
  /\ states (compiled_state st df) = states st
  /\ allCues (compiled_state st df) = compiled df
  /\ maxCueGroup (compiled_state st df)
     = column_max (map cueGroupNumber (rows (compiled df))).
Proof.
  unfold compiled_state. destruct (rows (compiled df)); repeat split.
Qed.

Lemma in_states_in (sts : list StateRow) (s : string) :
  in_states sts (Some s) = true -> In (Some s) (map stCueState sts).
Proof.
  simpl. intros H. apply existsb_exists in H. destruct H as [r [Hin Hr]].
  apply cell_is_eq in Hr. rewrite <- Hr. apply in_map. exact Hin.
Qed.

Lemma compiled_groups_exact (attrs : list Attribute) (sts : list StateRow)
    (rs : list Row) (m : Z) :
  forallb (valid_row attrs sts) rs = true ->
  column_max (map cueGroupNumber (assign_groups rs 0 false)) = Int m ->
  forall k, 0 <= k <= m
            <-> exists r, In r (assign_groups rs 0 false) /\ cueGroupNumber r = Some k.
Proof.
  intros Hv Hm k. split.
  - intros Hk. pose proof (assign_groups_cover rs 0 false m Hm k Hk) as Hin.
    apply in_map_iff in Hin. destruct Hin as [r [Hr Hin]]. exists r. auto.
  - intros [r [Hin Hr]]. split.
    + destruct (assign_groups_rows attrs sts rs Hv 0 false r Hin)
        as [r0 [k0 [_ [_ [-> Hk0]]]]].
      simpl in Hr. inversion Hr. lia.
    + apply (column_max_ge _ m k Hm). rewrite <- Hr. apply in_map. exact Hin.
Qed.

Lemma compiled_max_nan (attrs : list Attribute) (sts : list StateRow) (rs : list Row) :
  forallb (valid_row attrs sts) rs = true ->
  column_max (map cueGroupNumber (assign_groups rs 0 false)) = NaN
  <-> assign_groups rs 0 false = [].
Proof.
  intros Hv. split.
  - destruct (assign_groups rs 0 false) as [|x out] eqn:E; [reflexivity|].
    intros Hm. exfalso.
    assert (Hin : In x (assign_groups rs 0 false)) by (rewrite E; left; reflexivity).
    destruct (assign_groups_rows attrs sts rs Hv 0 false x Hin)
      as [r [k [_ [_ [-> _]]]]].
    simpl in Hm. destruct (column_max (map cueGroupNumber out)); discriminate.
  - intros ->. reflexivity.
Qed.

(** C1, as the code has it.  Take a raw cue table with the right column
    titles, Cue Number the first of them and hence the index, in which
    every row is either blank or complete: all four cells
    filled, the cue number not the label [last_row_storage], its prefix
    that of exactly one attribute, its cue state one of the states table.
    Then [format_all_cues] returns, and the frame it stores is the one
    the forward scan gives: the cue rows in source order, the group
    number starting at 0 and going up by one at each run of blank rows
    that follows a cue.  The group numbers of the stored frame are
    exactly 0 .. [maxCueGroup]; from one row to the next the group stays
    or goes up by one; and every row carries the prefix of exactly one
    attribute and a cue state of the states table. *)
Theorem compile_cues_groups (st : ServerData) (df : DataFrame) :
  valid_raw_table (attributes st) (states st) df = true ->
  exists st',
    format_all_cues st df false = (st', Return tt)
    /\ attributes st' = attributes st /\ states st' = states st
    /\ rows (allCues st') = assign_groups (rows df) 0 false
    /\ maxCueGroup st' = column_max (map cueGroupNumber (rows (allCues st')))
    /\ (forall m, maxCueGroup st' = Int m ->
          forall k, 0 <= k <= m
                    <-> exists r, In r (rows (allCues st')) /\ cueGroupNumber r = Some k)
    /\ (maxCueGroup st' = NaN <-> rows (allCues st') = [])
    /\ climbs_from false 0 (map cueGroupNumber (rows (allCues st')))
    /\ (forall r, In r (rows (allCues st')) ->
          exists cue s,
            cueNumber r = Some cue
            /\ cuePrefix r = Some (strip_digits cue)
            /\ matching_prefixes (attributes st') cue = [cuePrefix r]
            /\ In (cuePrefix r) (map attrCuePrefix (attributes st'))
            /\ cueState r = Some s
            /\ In (Some s) (map stCueState (states st'))).
Proof.
  intros Hv. exists (compiled_state st df).
  split; [apply (format_all_cues_valid st df Hv)|].
  destruct (compiled_state_fields st df) as [Ha [Hs [Hc Hm]]].
  unfold valid_raw_table in Hv. apply andb_true_iff in Hv. destruct Hv as [_ Hrows].
  rewrite Ha, Hs, Hc, Hm. cbn [compiled rows].
  split; [reflexivity|]. split; [reflexivity|]. split; [reflexivity|].
  split; [reflexivity|].
  split; [intros m Em; apply (compiled_groups_exact _ _ _ m Hrows Em)|].
  split; [apply (compiled_max_nan _ _ _ Hrows)|].
  split; [apply assign_groups_climbs|].
  intros r Hin.
  destruct (assign_groups_rows _ _ _ Hrows 0 false r Hin) as [r0 [k [_ [Hcue [-> _]]]]].
  destruct (cue_row_cells _ _ r0 Hcue) as [cue [w [a [s [Ec [_ [_ [Es [_ [Hres Hst]]]]]]]]]].
  exists cue, s. unfold compiled_row. cbn [cueNumber cuePrefix cueState].
  rewrite Ec, Es.
  split; [reflexivity|]. split; [reflexivity|].
  split; [apply resolves_matching; exact Hres|].
  split; [apply resolved_prefix_in; exact Hres|].
  split; [reflexivity|]. apply in_states_in. exact Hst.
Qed.

(** The script of the show: blank rows before, between and after three
    groups. *)
Lemma compile_cues_groups_witness :
  exists st',
    format_all_cues Show.server Show.script false = (st', Return tt)
    /\ rows (allCues st') = assign_groups (rows Show.script) 0 false
    /\ maxCueGroup st' = Int 2.
Proof.
  destruct (compile_cues_groups Show.server Show.script eq_refl)
    as [st' [H1 [_ [_ [H2 [H3 _]]]]]].
  exists st'. split; [exact H1|]. split; [exact H2|].
  rewrite H3, H2. reflexivity.
Defined.

(** C1 as stated fails on tables that meet what it asks of them (the
    column titles, a prefix that resolves for every row that is not
    blank, a known cue state).  A first group whose only row has no When
    is dropped: the stored groups are 1 alone, the maximum is 1, and the
    jump to group 0 that ends the call raises [KeyError].  A cue that
    carries the reserved label loses its data to the sentinel: the group
    it opens is lost and so is the last row of the table. *)
Lemma compile_cues_groups_not_contiguous :
  valid_as_claimed Show.attrs Show.sts Show.script_no_when = true
  /\ snd (format_all_cues Show.server Show.script_no_when false) = Raise KeyError
  /\ map cueGroupNumber
       (rows (allCues (fst (format_all_cues Show.server Show.script_no_when false))))
     = [Some 1]
  /\ maxCueGroup (fst (format_all_cues Show.server Show.script_no_when false)) = Int 1
  /\ has_group 0 (allCues (fst (format_all_cues Show.server Show.script_no_when false)))
     = false
  /\ valid_as_claimed Show.attrs_reserved Show.sts Show.script_reserved = true
  /\ map cueNumber
       (rows (allCues (fst (format_all_cues Show.server_reserved
                              Show.script_reserved false))))
     = [Some "A1"; Some "B1.5"]
  /\ map cueGroupNumber
       (rows (allCues (fst (format_all_cues Show.server_reserved
                              Show.script_reserved false))))
     = [Some 0; Some 1]
  /\ map cueGroupNumber (assign_groups (rows Show.script_reserved) 0 false)
     = [Some 0; Some 1; Some 2; Some 2].
Proof. repeat split; reflexivity. Qed.

(** C2, as the code has it.  A table of two cue rows and a trailing
    blank row compiles, with [maxCueGroup] 0: its two cues are group 0
    and there is no group 1.  In general, blank rows put before and after
    a valid table change nothing in what the call does, and the highest
    group number is always the group of a cue. *)
Theorem compile_trailing_blank (st : ServerData) (df : DataFrame) (a b : nat) :
  valid_raw_table (attributes st) (states st) df = true ->
  format_all_cues st (padded a b df) false = format_all_cues st df false
  /\ (exists st',
        format_all_cues st (padded a b df) false = (st', Return tt)
        /\ (forall m, maxCueGroup st' = Int m ->
              exists r, In r (rows (allCues st')) /\ cueGroupNumber r = Some m))
  /\ (forall r1 r2,
        rows df = [r1; r2] -> all_na r1 = false -> all_na r2 = false ->
        exists st',
          format_all_cues st {| names := names df; rows := [r1; r2; blank_row] |} false
          = (st', Return tt)
          /\ maxCueGroup st' = Int 0
          /\ rows (allCues st') = [compiled_row 0 r1; compiled_row 0 r2]
          /\ map cueGroupNumber (rows (allCues st')) = [Some 0; Some 0]
          /\ map cueNumber (rows (allCues st')) = [cueNumber r1; cueNumber r2]
          /\ cueNum st' = Int 0
          /\ has_group 1 (allCues st') = false).
Proof.
  intros Hv.
  assert (Hpad : forall a' b',
            format_all_cues st (padded a' b' df) false = (compiled_state st df, Return tt)).
  { intros a' b'.
    rewrite (format_all_cues_valid st _ (padded_valid _ _ a' b' df Hv)).
    unfold compiled_state. rewrite padded_compiled. reflexivity. }
  split; [|split].
  - rewrite (Hpad a b), (format_all_cues_valid st _ Hv). reflexivity.
  - exists (compiled_state st df). split; [apply Hpad|].
    destruct (compiled_state_fields st df) as [_ [_ [Hc Hm]]].
    rewrite Hc, Hm. intros m Em.
    apply column_max_in in Em. apply in_map_iff in Em.
    destruct Em as [r [Hr Hin]]. exists r. auto.
  - intros r1 r2 Hrows H1 H2. exists (compiled_state st df).
    assert (Hp : padded 0 1 df = {| names := names df; rows := [r1; r2; blank_row] |})
      by (unfold padded; rewrite Hrows; reflexivity).
    rewrite <- Hp. split; [apply Hpad|].
    assert (Hc : rows (compiled df) = [compiled_row 0 r1; compiled_row 0 r2]).
    { unfold compiled. cbn [rows]. rewrite Hrows. cbn [assign_groups].
      rewrite H1, H2. reflexivity. }
    unfold compiled_state. rewrite Hc.
    cbn [map cueGroupNumber compiled_row column_max Z.max].
    assert (Hall : rows (allCues (at_group
                     (set_maxCueGroup (set_allCues st (compiled df)) (Int (Z.max 0 0))) 0))
                   = [compiled_row 0 r1; compiled_row 0 r2]) by exact Hc.
    split; [reflexivity|]. split; [exact Hall|].
    unfold has_group. rewrite Hall.
    split; [reflexivity|]. split; [reflexivity|]. split; reflexivity.
Qed.

(** The script of the show with two more blank rows before it and three
    after. *)
Lemma compile_trailing_blank_witness :
  format_all_cues Show.server (padded 2 3 Show.script) false
  = format_all_cues Show.server Show.script false.
Proof.
  exact (proj1 (compile_trailing_blank Show.server Show.script 2 3 eq_refl)).
Defined.

(** C2 as stated fails: on the table of two cue rows and a trailing blank
    row the maximum is 0, not 1. *)
Lemma compile_trailing_blank_max_is_zero :
  snd (format_all_cues Show.server Show.two_cues_and_blank false) = Return tt
  /\ maxCueGroup (fst (format_all_cues Show.server Show.two_cues_and_blank false)) = Int 0
  /\ maxCueGroup (fst (format_all_cues Show.server Show.two_cues_and_blank false)) <> Int 1
  /\ map cueGroupNumber
       (rows (allCues (fst (format_all_cues Show.server Show.two_cues_and_blank false))))
     = [Some 0; Some 0].
Proof.
  repeat split; try reflexivity. intros H. discriminate H.
Qed.

(** *** Errors *)

Lemma try_block_raises (st : ServerData) (df df' : DataFrame) (formatted : bool)
    (e : exn) :
  try_block st df formatted = (df', Raise e) ->
  (exists p s, e = FormatCheckError p s) \/ e = KeyError.
Proof.
  assert (Hfinal : forall sts d d' e',
            final_checks sts d = (d', Raise e') -> exists p s, e' = FormatCheckError p s).
  { intros sts d d' e'. unfold final_checks, __check_columns_names, check_cue_states.
    destruct (list_eqb _ _); simpl.
    - destruct (existsb _ _); intros H; inversion H; eauto.
    - intros H; inversion H; eauto. }
  unfold try_block. destruct formatted; simpl negb; cbv iota.
  - destruct (has_name _ df && has_name _ df).
    + intros H. left. apply (Hfinal _ _ _ _ H).
    + intros H. inversion H. right. reflexivity.
  - unfold __check_columns_names at 1.
    destruct (list_eqb (sort (names df)) (sort raw_column_names)).
    + destruct (group_loop _ _ _ _ _) as [[gc pc]|e'] eqn:E.
      * intros H. left. apply (Hfinal _ _ _ _ H).
      * intros H. inversion H. subst. left.
        apply (group_loop_raises _ _ _ _ _ _ E).
    + intros H. inversion H. eauto.
Qed.

Lemma format_current_cues_raises (st st' : ServerData) (e : exn) :
  format_current_cues st = (st', Raise e) -> e = ValueError \/ e = KeyError.
Proof.
  unfold format_current_cues. destruct (cueNum st) as [g|]; simpl.
  - destruct (filter _ _); intros H; inversion H; auto.
  - intros H; inversion H; auto.
Qed.

Lemma warp_cue_raises (st st' : ServerData) (n : Z) (e : exn) :
  warp_cue st n = (st', Raise e) -> e = ValueError \/ e = KeyError.
Proof.
  unfold warp_cue. destruct (in_range n (maxCueGroup st)); [|discriminate].
  destruct (format_current_cues _) as [s [u|e']] eqn:E; [discriminate|].
  intros H. inversion H. subst. apply (format_current_cues_raises _ _ _ E).
Qed.

(** C5, as the code has it.  [format_all_cues] never ends in a warning.
    When it ends in a fatal [FormatError], nothing has been written: the
    state is the one the call was given, stored cue frame, maximum,
    pointer, snapshot and nodes frame included.  The stored frame is
    replaced only when the [try] block ends without an exception, and
    then by the frame the block built. *)
Theorem format_all_cues_errors (st st' : ServerData) (df : DataFrame) (formatted : bool) :
  (forall d p s, format_all_cues st df formatted = (st', Raise (FormatError d p s)) ->
                 st' = st)
  /\ (forall d p s, format_all_cues st df formatted <> (st', Raise (FormatWarning d p s)))
  /\ (allCues st' <> allCues st ->
      forall out, format_all_cues st df formatted = (st', out) ->
                  snd (try_block st df formatted) = Return tt
                  /\ allCues st' = fst (try_block st df formatted)).
Proof.
  unfold format_all_cues.
  destruct (try_block st df formatted) as [df' [[]|e]] eqn:Etry.
  - (* the block ended normally *)
    unfold update_max_cue_group.
    destruct (has_name _ _).
    + destruct (warp_cue _ 0) as [st2 [b|e]] eqn:Ew.
      * split; [intros d p s H; discriminate H|].
        split; [intros d p s H; discriminate H|].
        intros _ out H. inversion H. subst. split; [reflexivity|].
        unfold warp_cue in Ew.
        destruct (in_range 0 _).
        -- destruct (format_current_cues _) as [s3 [u|e3]] eqn:Ef; [|discriminate].
           inversion Ew. subst.
           unfold format_current_cues in Ef. simpl in Ef.
           destruct (filter _ _); inversion Ef; reflexivity.
        -- inversion Ew. reflexivity.
      * destruct (warp_cue_raises _ _ _ _ Ew) as [-> | ->].
        -- split; [intros d p s H; discriminate H|].
           split; [intros d p s H; discriminate H|].
           intros _ out H. inversion H. subst. split; [reflexivity|].
           unfold warp_cue in Ew. destruct (in_range 0 _); [|discriminate].
           unfold format_current_cues in Ew. simpl in Ew.
           destruct (filter _ _); inversion Ew; reflexivity.
        -- split; [intros d p s H; discriminate H|].
           split; [intros d p s H; discriminate H|].
           intros _ out H. inversion H. subst. split; [reflexivity|].
           unfold warp_cue in Ew. destruct (in_range 0 _); [|discriminate].
           unfold format_current_cues in Ew. simpl in Ew.
           destruct (filter _ _); inversion Ew; reflexivity.
    + split; [intros d p s H; discriminate H|].
      split; [intros d p s H; discriminate H|].
      intros _ out H. inversion H. subst. split; reflexivity.
  - (* the block raised *)
    destruct (try_block_raises st df df' formatted e Etry) as [[p0 [s0 ->]]| ->].
    + split; [intros d p s H; inversion H; reflexivity|].
      split; [intros d p s H; discriminate H|].
      intros Hne out H. inversion H. subst. contradiction.
    + split; [intros d p s H; discriminate H|].
      split; [intros d p s H; discriminate H|].
      intros Hne out H. inversion H. subst. contradiction.
Qed.

(** A script with a cue of no node: the call ends in [FormatError] and
    the server is as it was. *)
Lemma format_all_cues_errors_witness :
  format_all_cues Show.server Show.script_unknown_prefix false
  = (Show.server,
     Raise (FormatError "all cues" "cue prefix (Z1)"
              " and you should make sure you assigned a node the prefix in the attributes sheet."))
  /\ Show.server = Show.server.
Proof.
  split; [reflexivity|].
  apply (proj1 (format_all_cues_errors Show.server Show.server
                  Show.script_unknown_prefix false)
           "all cues" "cue prefix (Z1)"
           " and you should make sure you assigned a node the prefix in the attributes sheet.").
  reflexivity.
Defined.

(** C5 as stated fails: after a fatal outcome the stored frame is the old
    show, not the table that was handed in.  The first table has a cue
    whose prefix no node has, the second lacks a column. *)
Lemma format_all_cues_fatal_persists_nothing :
  (exists p s,
     format_all_cues Show.server Show.script_unknown_prefix false
     = (Show.server, Raise (FormatError "all cues" p s)))
  /\ allCues Show.server = Show.all_cues
  /\ Show.all_cues <> Show.script_unknown_prefix
  /\ (exists p s,
        format_all_cues Show.server Show.table_missing_column false
        = (Show.server, Raise (FormatError "all cues" p s)))
  /\ Show.all_cues <> Show.table_missing_column.
Proof.
  split; [eexists; eexists; reflexivity|].
  split; [reflexivity|].
  split; [intros H; discriminate H|].
  split; [eexists; eexists; reflexivity|].
  intros H; discriminate H.
Qed.

End CompilerFacts.

(** ** More on the transport *)

Module TransportFacts.

Import Communication.

Local Open Scope list_scope.

(** *** Un-escaping *)

Lemma escape_decode_other (b : byte) (s : bytes) :
  Byte.eqb x5c b = false -> escape_decode (b :: s) = emit b (escape_decode s).
Proof. destruct b; intros H; try reflexivity; discriminate H. Qed.

(** A response without a backslash is its own un-escaped form, so both
    passes return and the records are the pieces of the response itself. *)
Theorem escape_decode_plain (s : bytes) :
  plain s = true ->
  escape_decode s = Return s
  /\ records s = Return (map clean (filter (contains x2e) (split2 x22 x2c s []))).
Proof.
  intros Hp.
  assert (He : escape_decode s = Return s).
  { unfold plain in Hp. apply negb_true_iff in Hp.
    induction s as [|b s IH]; [reflexivity|].
    simpl in Hp. apply orb_false_iff in Hp. destruct Hp as [Hb Hs].
    rewrite (escape_decode_other b s Hb), (IH Hs). reflexivity. }
  split; [exact He|]. unfold records. rewrite He. simpl. rewrite He. reflexivity.
Qed.

Lemma escape_decode_plain_witness :
  escape_decode [x4e; x2e; x22; x2c; x78; x2e] = Return [x4e; x2e; x22; x2c; x78; x2e].
Proof.
  exact (proj1 (escape_decode_plain [x4e; x2e; x22; x2c; x78; x2e] eq_refl)).
Defined.

(** *** Pieces of a split *)

Lemma split2_contains (x a b : byte) (n : nat) : forall s acc p,
  (List.length s <= n)%nat ->
  In p (split2 a b s acc) -> contains x p = true ->
  contains x (rev acc ++ s) = true.
Proof.
  induction n as [|n IH]; intros s acc p Hlen Hin Hp.
  - destruct s; [|simpl in Hlen; lia].
    simpl in Hin. destruct Hin as [<-|[]]. rewrite app_nil_r. exact Hp.
  - destruct s as [|c s1].
    + simpl in Hin. destruct Hin as [<-|[]]. rewrite app_nil_r. exact Hp.
    + simpl in Hlen. destruct s1 as [|d s2].
      * simpl in Hin. destruct Hin as [<-|[]]. simpl in Hp. exact Hp.
      * cbn [split2] in Hin.
        destruct (Byte.eqb c a && Byte.eqb d b).
        -- destruct Hin as [<-|Hin].
           ++ unfold contains in *. rewrite existsb_app, Hp. reflexivity.
           ++ apply (IH s2 [] p) in Hin; [|simpl in Hlen; lia | exact Hp].
              simpl in Hin. unfold contains in *.
              rewrite existsb_app. simpl. rewrite Hin.
              rewrite !orb_true_r. reflexivity.
        -- apply (IH (d :: s2) (c :: acc) p) in Hin; [|simpl in *; lia | exact Hp].
           simpl in Hin. rewrite <- app_assoc in Hin. exact Hin.
Qed.

(** A response whose un-escaped form has no dot holds no record: the
    decoder returns the empty list without a call of [loads], and the
    read of the channel gives [None].  The empty response, which is what
    a request that fails prints, is such a response. *)
Theorem data_decode_no_dot (V : Type) (loads : bytes -> load_outcome V)
    (st : CommState V) (datatype : Z) (singular : bool) (data d1 d2 : bytes) :
  escape_decode data = Return d1 -> escape_decode d1 = Return d2 ->
  contains x2e d2 = false ->
  records data = Return []
  /\ __data_decode loads data = Return []
  /\ snd (receive_data loads st datatype data singular) = Return RNone.
Proof.
  intros H1 H2 Hdot.
  assert (Hrec : records data = Return []).
  { unfold records. rewrite H1. simpl. rewrite H2. simpl. f_equal.
    assert (Hf : filter (contains x2e) (split2 x22 x2c d2 []) = []).
    { destruct (filter (contains x2e) (split2 x22 x2c d2 [])) as [|p l] eqn:E;
        [reflexivity|].
      assert (Hin : In p (filter (contains x2e) (split2 x22 x2c d2 [])))
        by (rewrite E; left; reflexivity).
      apply filter_In in Hin. destruct Hin as [Hin Hp].
      pose proof (split2_contains x2e x22 x2c (List.length d2) d2 [] p
                    (le_n _) Hin Hp) as Hc.
      simpl in Hc. congruence. }
    rewrite Hf. reflexivity. }
  assert (Hdec : __data_decode loads data = Return []).
  { unfold __data_decode. rewrite Hrec. reflexivity. }
  split; [exact Hrec|]. split; [exact Hdec|].
  unfold receive_data. rewrite Hdec. reflexivity.
Qed.

Lemma data_decode_no_dot_witness :
  __data_decode Pickle.loads [] = Return [].
Proof.
  exact (proj1 (proj2 (data_decode_no_dot Pickle.pyvalue Pickle.loads
                         {| sent_data_dict := []; received_data_dict := [] |}
                         71%Z false [] [] [] eq_refl eq_refl eq_refl))).
Defined.

(** *** What the decoder raises *)

Lemma emit_raises (b : byte) (r : outcome bytes) (e : exn) :
  emit b r = Raise e -> r = Raise e.
Proof. destruct r; simpl; intros H; [discriminate | exact H]. Qed.

Ltac shorter H t :=
  right; exists t; split; [cbn [List.length]; lia | exact H].

Ltac raised H :=
  lazymatch type of H with
  | emit _ (emit _ (escape_decode ?t)) = _ =>
      apply emit_raises in H; apply emit_raises in H; shorter H t
  | emit _ (escape_decode ?t) = _ => apply emit_raises in H; shorter H t
  | escape_decode ?t = _ => shorter H t
  | Raise _ = _ => left; inversion H; reflexivity
  end.

(** One step of the decoder: an exception is either raised at the head of
    the input, and is then [ValueError], or comes from a shorter tail. *)
Lemma escape_decode_step (s : bytes) (e : exn) :
  escape_decode s = Raise e ->
  e = ValueError
  \/ exists s', (List.length s' < List.length s)%nat /\ escape_decode s' = Raise e.
Proof.
  destruct s as [|b s1]; [discriminate|].
  destruct (Byte.eqb x5c b) eqn:Eb.
  - destruct b; try discriminate Eb. clear Eb.
    destruct s1 as [|c s2]; [intros H; inversion H; left; reflexivity|].
    destruct c; cbn [escape_decode]; intros H.
    all: try raised H.
    all: destruct s2 as [|d2 s3]; try raised H.
    all: try (destruct (is_octal d2); [|raised H]).
    all: destruct s3 as [|d3 s4]; try raised H.
    all: try (destruct (is_octal d3); raised H).
    all: destruct ((digit_value d2 <? 16)%N && (digit_value d3 <? 16)%N); raised H.
  - intros H. rewrite (escape_decode_other b s1 Eb) in H. raised H.
Qed.

Lemma escape_decode_raises (n : nat) : forall s e,
  (List.length s <= n)%nat -> escape_decode s = Raise e -> e = ValueError.
Proof.
  induction n as [|n IH]; intros s e Hlen H.
  - destruct s; [discriminate | simpl in Hlen; lia].
  - destruct (escape_decode_step s e H) as [He | [s' [Hs' H']]]; [exact He|].
    apply (IH s' e); [lia | exact H'].
Qed.

Lemma loads_all_other (V : Type) (loads : bytes -> load_outcome V)
    (elements : list bytes) :
  loads_all loads elements = RaiseOther
  <-> exists pre x post,
        elements = pre ++ x :: post
        /\ Forall (fun e => exists v, loads e = Loaded v) pre
        /\ loads x = RaiseOther.
Proof.
  induction elements as [|el rest IH]; simpl.
  - split; [discriminate|]. intros [pre [x [post [H _]]]].
    destruct pre; discriminate H.
  - destruct (loads el) as [v| |] eqn:E.
    + split.
      * intros H.
        assert (Hr : loads_all loads rest = RaiseOther)
          by (destruct (loads_all loads rest); try discriminate; reflexivity).
        apply IH in Hr. destruct Hr as [pre [x [post [H1 [H2 H3]]]]].
        exists (el :: pre), x, post. subst rest. repeat split; auto.
        constructor; [eauto | exact H2].
      * intros [pre [x [post [H1 [H2 H3]]]]].
        destruct pre as [|p pre]; simpl in H1; inversion H1; subst.
        -- congruence.
        -- assert (Hpre : Forall (fun e => exists v, loads e = Loaded v) pre)
             by (inversion H2; assumption).
           assert (Hr : loads_all loads (pre ++ x :: post) = RaiseOther).
           { apply IH. exists pre, x, post. repeat split; assumption. }
           rewrite Hr. reflexivity.
    + split; [discriminate|].
      intros [pre [x [post [H1 [H2 H3]]]]].
      destruct pre as [|p pre]; simpl in H1; inversion H1; subst.
      * congruence.
      * inversion H2 as [|? ? [v Hv] ?]; subst. congruence.
    + split; [|reflexivity].
      intros _. exists [], el, rest. repeat split; auto.
Qed.

(** The decoder raises in two cases and no other.  It raises
    [ValueError] exactly when one of the two un-escaping passes fails.
    It raises [UnboundLocalError] exactly when the records before the
    first one that does not load all load and that one fails with
    something other than an unpickling error: the [return] of the
    [finally] clause then finds [decodedObjects] unbound. *)
Theorem data_decode_raises (V : Type) (loads : bytes -> load_outcome V) (data : bytes) :
  (forall e, __data_decode loads data = Raise e ->
             e = ValueError \/ e = UnboundLocalError)
  /\ (__data_decode loads data = Raise ValueError <-> records data = Raise ValueError)
  /\ (__data_decode loads data = Raise UnboundLocalError
      <-> exists elements pre x post,
            records data = Return elements
            /\ elements = pre ++ x :: post
            /\ Forall (fun e => exists v, loads e = Loaded v) pre
            /\ loads x = RaiseOther).
Proof.
  assert (Hrec : forall e, records data = Raise e -> e = ValueError).
  { intros e. unfold records.
    destruct (escape_decode data) as [d1|e1] eqn:E1; simpl.
    - destruct (escape_decode d1) as [d2|e2] eqn:E2; simpl; [discriminate|].
      intros H. inversion H. subst.
      apply (escape_decode_raises (List.length d1) d1 e (le_n _) E2).
    - intros H. inversion H. subst.
      apply (escape_decode_raises (List.length data) data e (le_n _) E1). }
  unfold __data_decode.
  destruct (records data) as [elements|e0] eqn:Er; simpl.
  - destruct (loads_all loads elements) as [vs| |] eqn:El.
    + split; [discriminate|]. split; [split; discriminate|].
      split; [discriminate|].
      intros [els [pre [x [post [H1 [H2 [H3 H4]]]]]]]. inversion H1. subst els.
      assert (Ho : loads_all loads elements = RaiseOther).
      { apply loads_all_other. exists pre, x, post. repeat split; assumption. }
      congruence.
    + split; [discriminate|]. split; [split; discriminate|].
      split; [discriminate|].
      intros [els [pre [x [post [H1 [H2 [H3 H4]]]]]]]. inversion H1. subst els.
      assert (Ho : loads_all loads elements = RaiseOther).
      { apply loads_all_other. exists pre, x, post. repeat split; assumption. }
      congruence.
    + split; [intros e H; inversion H; auto|].
      split; [split; discriminate|].
      split; [|reflexivity].
      intros _. apply loads_all_other in El.
      destruct El as [pre [x [post [H1 [H2 H3]]]]].
      exists elements, pre, x, post. auto.
  - pose proof (Hrec e0 eq_refl) as ->.
    split; [intros e H; inversion H; auto|].
    split; [split; reflexivity|].
    split; [discriminate|].
    intros [els [pre [x [post [H1 _]]]]]. discriminate H1.
Qed.

(** *** The two dictionaries *)

Lemma dict_get_update (A : Type) (k k' : Z) (a : A) (d : list (Z * A)) :
  dict_get k' (dict_update k a d) = if (k' =? k)%Z then Some a else dict_get k' d.
Proof.
  induction d as [|[k0 a0] d IH]; simpl.
  - destruct (k' =? k)%Z; reflexivity.
  - destruct (k =? k0)%Z eqn:E0; simpl.
    + apply Z.eqb_eq in E0. subst k0. destruct (k' =? k)%Z; reflexivity.
    + rewrite IH. destruct (k' =? k0)%Z eqn:E1; [|reflexivity].
      apply Z.eqb_eq in E1. subst k0.
      destruct (k' =? k)%Z eqn:E2; [|reflexivity].
      apply Z.eqb_eq in E2. subst. rewrite Z.eqb_refl in E0. discriminate.
Qed.

(** A read that returns notes the decoded list under its datatype, also
    when that list is empty and the caller gets [None]; the entries of
    the other datatypes and the notes of what was sent stay.  A read that
    raises notes nothing.  A send notes the data under its datatype and
    leaves the other entries and the notes of what was received. *)
Theorem caches_follow_calls (V : Type) (loads : bytes -> load_outcome V)
    (st : CommState V) (datatype other : Z) (output : bytes) (singular : bool)
    (sent : V) :
  (forall data, __data_decode loads output = Return data ->
     let st' := fst (receive_data loads st datatype output singular) in
     dict_get datatype (received_data_dict st') = Some data
     /\ (other <> datatype ->
         dict_get other (received_data_dict st') = dict_get other (received_data_dict st))
     /\ sent_data_dict st' = sent_data_dict st)
  /\ (forall e, __data_decode loads output = Raise e ->
        receive_data loads st datatype output singular = (st, Raise e))
  /\ (let st' := send_message st sent datatype in
      dict_get datatype (sent_data_dict st') = Some sent
      /\ (other <> datatype ->
          dict_get other (sent_data_dict st') = dict_get other (sent_data_dict st))
      /\ received_data_dict st' = received_data_dict st).
Proof.
  split; [|split].
  - intros data Hd. unfold receive_data. rewrite Hd.
    assert (Hst : fst (match data with
                       | [] => ({| sent_data_dict := sent_data_dict st;
                                   received_data_dict :=
                                     dict_update datatype data (received_data_dict st) |},
                                Return RNone)
                       | v :: _ =>
                           if (List.length data =? 1)%nat && singular
                           then ({| sent_data_dict := sent_data_dict st;
                                    received_data_dict :=
                                      dict_update datatype data (received_data_dict st) |},
                                 Return (RValue v))
                           else ({| sent_data_dict := sent_data_dict st;
                                    received_data_dict :=
                                      dict_update datatype data (received_data_dict st) |},
                                 Return (RList data))
                       end)
                  = {| sent_data_dict := sent_data_dict st;
                       received_data_dict :=
                         dict_update datatype data (received_data_dict st) |}).
    { destruct data as [|v rest]; [reflexivity|].
      destruct ((List.length (v :: rest) =? 1)%nat && singular); reflexivity. }
    cbv zeta. rewrite Hst. simpl. rewrite !dict_get_update, Z.eqb_refl.
    split; [reflexivity|]. split; [|reflexivity].
    intros Hne. apply Z.eqb_neq in Hne. rewrite Hne. reflexivity.
  - intros e He. unfold receive_data. rewrite He. reflexivity.
  - simpl. rewrite !dict_get_update, Z.eqb_refl.
    split; [reflexivity|]. split; [|reflexivity].
    intros Hne. apply Z.eqb_neq in Hne. rewrite Hne. reflexivity.
Qed.

Lemma caches_follow_calls_witness :
  dict_get 71%Z
    (received_data_dict
       (fst (receive_data Pickle.loads
               {| sent_data_dict := []; received_data_dict := [(70%Z, [])] |}
               71%Z [x4e; x2e; x22; x2c; x78; x2e] false)))
  = Some [].
Proof.
  exact (proj1 (proj1 (caches_follow_calls Pickle.pyvalue Pickle.loads
                         {| sent_data_dict := []; received_data_dict := [(70%Z, [])] |}
                         71%Z 70%Z [x4e; x2e; x22; x2c; x78; x2e] false Pickle.PyNone)
                  [] eq_refl)).
Defined.

End TransportFacts.

(** ** More on the navigator *)

Module NavigatorMore.

Import ServerDataManagement.
Import NavigatorFacts.

Local Open Scope list_scope.
Local Open Scope Z_scope.

Lemma at_group_at_group (st : ServerData) (g1 g2 : Z) :
  at_group (at_group st g1) g2 = at_group st g2.
Proof. reflexivity. Qed.

(** [format_current_cues] returns only by landing on the group of the
    pointer. *)
Lemma format_current_cues_returns (st st' : ServerData) :
  format_current_cues st = (st', Return tt) ->
  exists g, cueNum st = Int g /\ st' = at_group st g
            /\ has_group g (allCues st) = true.
Proof.
  unfold format_current_cues. destruct (cueNum st) as [g|] eqn:Ec; simpl;
    [|discriminate].
  destruct (filter (in_group g) (rows (allCues st))) as [|r rs] eqn:Ef;
    [discriminate|].
  intros H. inversion H. exists g. split; [reflexivity|]. split.
  - unfold at_group. rewrite Ef. destruct st. simpl in *. subst. reflexivity.
  - unfold has_group. destruct (existsb (in_group g) (rows (allCues st))) eqn:Ee;
      [reflexivity|].
    assert (Hin : In r (filter (in_group g) (rows (allCues st))))
      by (rewrite Ef; left; reflexivity).
    apply filter_In in Hin. destruct Hin as [Hin Hg].
    assert (Ht : existsb (in_group g) (rows (allCues st)) = true)
      by (apply existsb_exists; exists r; auto).
    congruence.
Qed.

(** With the group of the pointer absent, [format_current_cues] raises
    [KeyError] and writes nothing. *)
Lemma format_current_cues_missing (st : ServerData) (g : Z) :
  cueNum st = Int g -> has_group g (allCues st) = false ->
  format_current_cues st = (st, Raise KeyError).
Proof.
  intros Hc Hg. unfold format_current_cues. rewrite Hc. simpl.
  destruct (filter (in_group g) (rows (allCues st))) as [|r rs] eqn:Ef;
    [reflexivity|].
  assert (Hin : In r (filter (in_group g) (rows (allCues st))))
    by (rewrite Ef; left; reflexivity).
  apply filter_In in Hin. destruct Hin as [Hin Hr].
  assert (Ht : has_group g (allCues st) = true)
    by (apply existsb_exists; exists r; auto).
  congruence.
Qed.

(** One step back and one step forward, in either order, end where a
    jump to the current group ends: the pointer is where it was and the
    nodes frame is the empty shell of the group. *)
Theorem previous_and_next_cancel (st : ServerData) (m c : Z) :
  consistent st = true -> maxCueGroup st = Int m -> cueNum st = Int c ->
  0 <= c <= m ->
  (exists st1, previous_cue st = (st1, Return tt)
               /\ next_cue st1 = (at_group st c, Return tt))
  /\ (exists st1, next_cue st = (st1, Return tt)
                  /\ previous_cue st1 = (at_group st c, Return tt))
  /\ warp_cue st c = (at_group st c, Return true).
Proof.
  intros Hc Hm Hn Hr. split; [|split].
  - exists (at_group st (if c =? 0 then m else c - 1)).
    split; [apply (previous_cue_step st m c Hc Hm Hn Hr)|].
    set (p := if c =? 0 then m else c - 1).
    assert (Hp : 0 <= p <= m) by (unfold p; destruct (c =? 0) eqn:E; lia).
    rewrite (next_cue_step (at_group st p) m p); auto.
    rewrite at_group_at_group. f_equal. f_equal.
    unfold p. destruct (c =? 0) eqn:E0.
    + apply Z.eqb_eq in E0. rewrite Z.eqb_refl. lia.
    + apply Z.eqb_neq in E0.
      destruct (c - 1 =? m) eqn:E1; [apply Z.eqb_eq in E1; lia | lia].
  - exists (at_group st (if c =? m then 0 else c + 1)).
    split; [apply (next_cue_step st m c Hc Hm Hn Hr)|].
    set (p := if c =? m then 0 else c + 1).
    assert (Hp : 0 <= p <= m).
    { unfold p. destruct (c =? m) eqn:E; [lia|]. apply Z.eqb_neq in E. lia. }
    rewrite (previous_cue_step (at_group st p) m p); auto.
    rewrite at_group_at_group. f_equal. f_equal.
    unfold p. destruct (c =? m) eqn:E0.
    + apply Z.eqb_eq in E0. simpl. lia.
    + apply Z.eqb_neq in E0.
      destruct (c + 1 =? 0) eqn:E1; [apply Z.eqb_eq in E1; lia | lia].
  - apply (warp_cue_lands st m c Hc Hm Hr).
Qed.

Lemma previous_and_next_cancel_witness :
  warp_cue Show.server 1 = (at_group Show.server 1, Return true).
Proof.
  exact (proj2 (proj2 (previous_and_next_cancel Show.server 2 1
                         eq_refl eq_refl eq_refl ltac:(lia)))).
Defined.

(** A jump made twice does what it does once, on any state: the second
    call returns what the first returned and leaves the state the first
    one left. *)
Theorem warp_cue_twice (st st1 : ServerData) (n : Z) (b : bool) :
  warp_cue st n = (st1, Return b) -> warp_cue st1 n = (st1, Return b).
Proof.
  unfold warp_cue. destruct (in_range n (maxCueGroup st)) eqn:Er.
  - destruct (format_current_cues (set_cueNum st (Int n))) as [s [[]|e]] eqn:Ef;
      [|discriminate].
    intros H. inversion H. subst s b.
    destruct (format_current_cues_returns _ _ Ef) as [g [Hg [Hs Hhas]]].
    simpl in Hg. inversion Hg. subst g.
    change (at_group (set_cueNum st (Int n)) n) with (at_group st n) in Hs.
    change (allCues (set_cueNum st (Int n))) with (allCues st) in Hhas.
    subst st1.
    change (maxCueGroup (at_group st n)) with (maxCueGroup st). rewrite Er.
    rewrite (format_current_cues_at (at_group st n) n Hhas).
    rewrite at_group_at_group. reflexivity.
  - intros H. inversion H. subst. rewrite Er. reflexivity.
Qed.

Lemma warp_cue_twice_witness :
  warp_cue (at_group Show.server 2) 2 = (at_group Show.server 2, Return true).
Proof.
  exact (warp_cue_twice Show.server (at_group Show.server 2) 2 true eq_refl).
Defined.

(** Navigation is not atomic.  When the group a call is heading for has
    no row, the call raises [KeyError] with the pointer already moved
    there, while the snapshot and the nodes frame are still those of the
    group it left.  With no maximum at all (an empty show) a jump is
    refused for every number, and a step back from group 0 leaves [nan]
    in the pointer and raises [ValueError]. *)
Theorem navigation_to_missing_group (st : ServerData) (c : Z) :
  cueNum st = Int c ->
  (forall n, in_range n (maxCueGroup st) = true -> has_group n (allCues st) = false ->
     warp_cue st n = (set_cueNum st (Int n), Raise KeyError))
  /\ (forall t, t = (if pynum_is (maxCueGroup st) c then 0 else c + 1) ->
        has_group t (allCues st) = false ->
        next_cue st = (set_cueNum st (Int t), Raise KeyError))
  /\ (forall m t, maxCueGroup st = Int m -> t = (if c =? 0 then m else c - 1) ->
        has_group t (allCues st) = false ->
        previous_cue st = (set_cueNum st (Int t), Raise KeyError))
  /\ (maxCueGroup st = NaN ->
      (forall n, warp_cue st n = (st, Return false))
      /\ (c = 0 -> previous_cue st = (set_cueNum st NaN, Raise ValueError))).
Proof.
  intros Hc. split; [|split; [|split]].
  - intros n Hr Hg. unfold warp_cue. rewrite Hr.
    rewrite (format_current_cues_missing (set_cueNum st (Int n)) n eq_refl Hg).
    reflexivity.
  - intros t Ht Hg. unfold next_cue. rewrite Hc. simpl.
    destruct (pynum_is (maxCueGroup st) c) eqn:E; subst t.
    + apply (format_current_cues_missing (set_cueNum st (Int 0)) 0 eq_refl Hg).
    + apply (format_current_cues_missing (set_cueNum st (Int (c + 1))) (c + 1)
               eq_refl Hg).
  - intros m t Hm Ht Hg. unfold previous_cue. rewrite Hc, Hm. simpl.
    destruct (c =? 0) eqn:E; subst t.
    + apply (format_current_cues_missing (set_cueNum st (Int m)) m eq_refl Hg).
    + replace (c + -1) with (c - 1) by lia.
      apply (format_current_cues_missing (set_cueNum st (Int (c - 1))) (c - 1)
               eq_refl Hg).
  - intros Hm. split.
    + intros n. unfold warp_cue. rewrite Hm. reflexivity.
    + intros ->. unfold previous_cue. rewrite Hc, Hm. reflexivity.
Qed.

(** The server of the show with its last group taken out of the stored
    frame: the step forward from group 1 raises with the pointer at 2. *)
Lemma navigation_to_missing_group_witness :
  let st := set_allCues Show.server
              {| names := names Show.all_cues;
                 rows := filter (fun r => negb (in_group 2 r)) (rows Show.all_cues) |} in
  next_cue st = (set_cueNum st (Int 2), Raise KeyError).
Proof.
  intros st.
  apply (proj1 (proj2 (navigation_to_missing_group st 1 eq_refl)) 2);
    reflexivity.
Defined.

(** *** Invariants of the snapshot and of the nodes frame *)

Lemma at_group_invariants (st : ServerData) (g : Z) :
  snapshot_current (at_group st g) /\ keys_match (at_group st g)
  /\ hasLastUpdated (nodes (at_group st g)) = false
  /\ (forall r, In r (nodeRows (nodes (at_group st g))) ->
        nNodeNumber r = None /\ nNodeState r = None /\ nTimestamp r = None).
Proof.
  split; [|split; [|split]].
  - exists g. split; reflexivity.
  - unfold keys_match. simpl. rewrite map_map. reflexivity.
  - reflexivity.
  - intros r Hin. simpl in Hin. apply in_map_iff in Hin.
    destruct Hin as [x [<- _]]. repeat split.
Qed.

(** Every navigation call that returns leaves the snapshot equal to the
    rows of the group the pointer is at, and the nodes frame with one
    blank row per cue of the snapshot, under the same cue numbers in the
    same order; this holds whatever the state was before the call.
    Merging reports and refreshing the display keep both facts, whether
    they return or raise. *)
Theorem navigation_invariants (st st' : ServerData) :
  (next_cue st = (st', Return tt) \/ previous_cue st = (st', Return tt)
   \/ (exists n, warp_cue st n = (st', Return true)) ->
   snapshot_current st' /\ keys_match st'
   /\ (forall r, In r (nodeRows (nodes st')) ->
         nNodeNumber r = None /\ nNodeState r = None /\ nTimestamp r = None))
  /\ (snapshot_current st /\ keys_match st ->
      forall now reports,
        snapshot_current (fst (format_nodes st now reports))
        /\ keys_match (fst (format_nodes st now reports))
        /\ snapshot_current (fst (update_last_updated st now))
        /\ keys_match (fst (update_last_updated st now))).
Proof.
  split.
  - assert (Hgen : forall s, format_current_cues s = (st', Return tt) ->
               snapshot_current st' /\ keys_match st'
               /\ (forall r, In r (nodeRows (nodes st')) ->
                     nNodeNumber r = None /\ nNodeState r = None
                     /\ nTimestamp r = None)).
    { intros s Hs. destruct (format_current_cues_returns s st' Hs) as [g [_ [-> _]]].
      destruct (at_group_invariants s g) as [H1 [H2 [_ H4]]]. auto. }
    intros [H|[H|[n H]]].
    + unfold next_cue in H. destruct (int_of (cueNum st)); [|discriminate].
      destruct (pynum_is (maxCueGroup st) a); apply (Hgen _ H).
    + unfold previous_cue in H.
      destruct (pynum_is (cueNum st) 0); apply (Hgen _ H).
    + unfold warp_cue in H. destruct (in_range n (maxCueGroup st)); [|discriminate].
      destruct (format_current_cues (set_cueNum st (Int n))) as [s [[]|e]] eqn:E;
        [|discriminate].
      inversion H. subst. apply (Hgen _ E).
  - intros [[g [Hg Hs]] Hk] now reports.
    assert (Hset : forall ns,
               map nCueNumber (nodeRows ns) = map nCueNumber (nodeRows (nodes st)) ->
               snapshot_current (set_nodes st ns) /\ keys_match (set_nodes st ns)).
    { intros ns Hns. split.
      - exists g. split; assumption.
      - unfold keys_match in *. cbn [nodes set_nodes currentCues].
        rewrite Hns. exact Hk. }
    destruct (AggregatorFrame.format_nodes_frame st now reports) as [ns [Hf Hkeys]].
    destruct (AggregatorFrame.update_last_updated_frame st now) as [[ns' [Hu Hun]] _].
    rewrite Hf, Hu.
    destruct (Hset ns Hkeys) as [H1 H2].
    destruct (Hset ns' (AggregatorFrame.unstamped_keys _ _ Hun)) as [H3 H4].
    split; [exact H1|]. split; [exact H2|]. split; [exact H3 | exact H4].
Qed.

Lemma navigation_invariants_witness :
  snapshot_current (at_group Show.server 2) /\ keys_match (at_group Show.server 2).
Proof.
  pose proof (proj1 (navigation_invariants Show.server (at_group Show.server 2))
                (or_intror (or_intror (ex_intro _ 2 eq_refl)))) as H.
  split; [exact (proj1 H) | exact (proj1 (proj2 H))].
Defined.

End NavigatorMore.

(** ** More on the node status aggregator *)

Module AggregatorMore.

Import ServerDataManagement.
Import AggregatorFrame.
Import AggregatorFacts.

Local Open Scope string_scope.
Local Open Scope list_scope.
Local Open Scope Z_scope.











(** A report without a cue number, and a frame with a cue number
    twice. *)
Example format_nodes_raises :
  let unlabelled := {| sCueNumber := None; sWhen := None; sAction := None;
                       sCueState := None; sNodeNumber := Some "2";
                       sNodeState := Some "Done"; sTimestamp := Some 0;
                       sLastUpdated := None |} in
  let twice := set_nodes Show.server
                 {| hasLastUpdated := false;
                    nodeRows := nodeRows (nodes Show.server)
                                ++ nodeRows (nodes Show.server) |} in
  format_nodes Show.server 0 (Some [Show.fresh_report; unlabelled])
  = (Show.server, Raise KeyError)
  /\ format_nodes twice 0 (Some [Show.fresh_report]) = (twice, Raise ValueError).
Proof. split; reflexivity. Qed.

End AggregatorMore.

(** ** More on the cue compiler: titles, prefixes, rejections *)

Module CompilerMore.

Import ServerDataManagement.
Import CompilerFacts.

Local Open Scope string_scope.
Local Open Scope list_scope.
Local Open Scope Z_scope.

(** *** The check of the column titles *)

Lemma ascii_compare_refl_eq (x y : ascii) :
  Ascii.compare x y = Eq -> N_of_ascii x = N_of_ascii y.
Proof. unfold Ascii.compare. apply N.compare_eq_iff. Qed.

Lemma leb_trans (a : string) : forall b c,
  String.leb a b = true -> String.leb b c = true -> String.leb a c = true.
Proof.
  unfold String.leb.
  induction a as [|x a IH]; intros b c Hab Hbc.
  - destruct c; reflexivity.
  - destruct b as [|y b]; [simpl in Hab; discriminate|].
    destruct c as [|z c]; [simpl in Hbc; discriminate|].
    simpl in *. unfold Ascii.compare in *.
    destruct (N.compare_spec (N_of_ascii x) (N_of_ascii y)) as [Exy|Lxy|Gxy];
      try discriminate Hab;
      destruct (N.compare_spec (N_of_ascii y) (N_of_ascii z)) as [Eyz|Lyz|Gyz];
      try discriminate Hbc;
      destruct (N.compare_spec (N_of_ascii x) (N_of_ascii z)) as [Exz|Lxz|Gxz];
      try reflexivity; try lia.
    apply (IH b c Hab Hbc).
Qed.

Lemma insert_sorted_perm (x : string) (l : list string) :
  Permutation (x :: l) (insert_sorted x l).
Proof.
  induction l as [|y l IH]; simpl; [apply Permutation_refl|].
  destruct (String.leb x y); [apply Permutation_refl|].
  eapply Permutation_trans; [apply perm_swap|]. apply perm_skip. exact IH.
Qed.

Lemma sort_perm (l : list string) : Permutation l (sort l).
Proof.
  induction l as [|x l IH]; simpl; [apply perm_nil|].
  eapply Permutation_trans; [apply perm_skip; exact IH|].
  apply insert_sorted_perm.
Qed.

Lemma insert_sorted_sorted (x : string) (l : list string) :
  StronglySorted title_le l -> StronglySorted title_le (insert_sorted x l).
Proof.
  induction l as [|y l IH]; intros Hs; simpl.
  - constructor; constructor.
  - destruct (String.leb x y) eqn:E.
    + constructor; [exact Hs|]. constructor; [exact E|].
      inversion Hs as [|? ? _ Hall]; subst.
      rewrite Forall_forall in *. intros z Hz.
      apply (leb_trans x y z E (Hall z Hz)).
    + inversion Hs as [|? ? Hs' Hall]; subst.
      constructor; [apply IH; exact Hs'|].
      rewrite Forall_forall in *. intros z Hz.
      apply (Permutation_in _ (Permutation_sym (insert_sorted_perm x l))) in Hz.
      destruct Hz as [<-|Hz]; [|apply Hall; exact Hz].
      destruct (String.leb_total x y) as [H|H]; [congruence | exact H].
Qed.

Lemma sort_sorted (l : list string) : StronglySorted title_le (sort l).
Proof.
  induction l as [|x l IH]; simpl; [constructor|].
  apply insert_sorted_sorted. exact IH.
Qed.

Lemma sorted_perm_eq (l1 : list string) : forall l2,
  StronglySorted title_le l1 -> StronglySorted title_le l2 ->
  Permutation l1 l2 -> l1 = l2.
Proof.
  induction l1 as [|x l1 IH]; intros l2 H1 H2 Hp.
  - apply Permutation_nil in Hp. subst. reflexivity.
  - destruct l2 as [|y l2];
      [apply Permutation_sym, Permutation_nil in Hp; discriminate|].
    inversion H1 as [|? ? H1' A1]; subst. inversion H2 as [|? ? H2' A2]; subst.
    rewrite Forall_forall in A1, A2.
    assert (Hxy : x = y).
    { assert (Hx : In x (y :: l2))
        by (apply (Permutation_in _ Hp); left; reflexivity).
      assert (Hy : In y (x :: l1))
        by (apply (Permutation_in _ (Permutation_sym Hp)); left; reflexivity).
      destruct Hx as [->|Hx]; [reflexivity|].
      destruct Hy as [->|Hy]; [reflexivity|].
      apply String.leb_antisym; [apply A1; exact Hy | apply A2; exact Hx]. }
    subst y. f_equal. apply IH; auto.
    apply (Permutation_cons_inv Hp).
Qed.

Lemma list_eqb_refl (l : list string) : list_eqb l l = true.
Proof.
  induction l as [|x l IH]; simpl; [reflexivity|].
  rewrite String.eqb_refl, IH. reflexivity.
Qed.

Lemma sorted_equal_iff (l1 l2 : list string) :
  list_eqb (sort l1) (sort l2) = true <-> Permutation l1 l2.
Proof.
  split.
  - intros H. apply list_eqb_eq in H.
    eapply Permutation_trans; [apply sort_perm|]. rewrite H.
    apply Permutation_sym, sort_perm.
  - intros H.
    assert (E : sort l1 = sort l2).
    { apply sorted_perm_eq; try apply sort_sorted.
      eapply Permutation_trans; [apply Permutation_sym, sort_perm|].
      eapply Permutation_trans; [exact H | apply sort_perm]. }
    rewrite E. apply list_eqb_refl.
Qed.

(** The check of the column titles passes exactly when the titles of
    the frame, index included, are the expected ones in some order: no
    title missing, none added, none twice.  When it does not pass it
    raises [FormatCheckError] for the column titles. *)
Theorem check_columns_names_permutation (df : DataFrame) (column_names : list string) :
  (__check_columns_names df column_names = Return tt
   <-> Permutation (names df) column_names)
  /\ (~ Permutation (names df) column_names ->
      __check_columns_names df column_names
      = Raise (FormatCheckError
                 "column titles"
                 (" because they do not consist of the following: "
                  ++ String.concat ", " column_names)%string)).
Proof.
  unfold __check_columns_names.
  destruct (list_eqb (sort (names df)) (sort column_names)) eqn:E.
  - apply sorted_equal_iff in E. split; [tauto|]. intros H. contradiction.
  - split.
    + split; [discriminate|]. intros H. apply sorted_equal_iff in H. congruence.
    + reflexivity.
Qed.

(** The titles of a raw cue table with the Cue State before the When:
    the check passes. *)
Lemma check_columns_names_permutation_witness :
  __check_columns_names
    {| names := ["Cue Number"; "Cue State"; "When"; "Action"]; rows := [] |}
    raw_column_names
  = Return tt.
Proof.
  apply (proj1 (check_columns_names_permutation
                  {| names := ["Cue Number"; "Cue State"; "When"; "Action"]; rows := [] |}
                  raw_column_names)).
  simpl. unfold raw_column_names.
  apply perm_skip.
  eapply Permutation_trans; [apply perm_swap|]. apply perm_skip. apply perm_swap.
Defined.

End CompilerMore.

(** ** More on the cue compiler: what it rejects, what it keeps *)

Module CompilerEdges.

Import ServerDataManagement.
Import CompilerFacts.
Import CompilerMore.

Local Open Scope string_scope.
Local Open Scope list_scope.
Local Open Scope Z_scope.

(** *** A prefix that does not resolve *)

Lemma get_prefix_unresolved (attrs : list Attribute) (cue : string) :
  unresolved attrs (Some cue) = true ->
  __get_prefix attrs cue
  = Raise (FormatCheckError
             ("cue prefix (" ++ cue ++ ")")
             " and you should make sure you assigned a node the prefix in the attributes sheet.").
Proof.
  unfold unresolved, resolves, matching_prefixes, __get_prefix.
  intros H. apply andb_true_iff in H. destruct H as [Hres Hlab].
  apply negb_true_iff in Hres. apply negb_true_iff in Hlab. rewrite Hlab.
  destruct (filter _ _) as [|p [|q l]]; [reflexivity | discriminate Hres | reflexivity].
Qed.

Lemma get_prefix_resolved (attrs : list Attribute) (cue : string) :
  unresolved attrs (Some cue) = false -> exists p, __get_prefix attrs cue = Return p.
Proof.
  unfold unresolved. intros H. apply andb_false_iff in H. destruct H as [H|H].
  - apply negb_false_iff in H. exists (Some (strip_digits cue)).
    apply get_prefix_resolves. exact H.
  - apply negb_false_iff in H. apply String.eqb_eq in H. subst cue.
    apply get_prefix_reserved.
Qed.

Lemma group_loop_unresolved (attrs : list Attribute) (ivs : list cell) (c : string) :
  find (unresolved attrs) ivs = Some (Some c) ->
  forall g gc pc,
    group_loop attrs ivs g gc pc
    = Raise (FormatCheckError
               ("cue prefix (" ++ c ++ ")")
               " and you should make sure you assigned a node the prefix in the attributes sheet.").
Proof.
  induction ivs as [|iv rest IH]; intros H g gc pc; [discriminate H|].
  cbn [find] in H. destruct iv as [cue|].
  - destruct (unresolved attrs (Some cue)) eqn:E.
    + inversion H; subst c. cbn [group_loop].
      rewrite (get_prefix_unresolved attrs cue E). reflexivity.
    + destruct (get_prefix_resolved attrs cue E) as [p Hp].
      cbn [group_loop]. rewrite Hp. cbn [bind]. apply IH. exact H.
  - cbn [unresolved] in H. cbn [group_loop]. apply IH. exact H.
Qed.

Lemma find_unresolved_dropna (attrs : list Attribute) (l : list Row) :
  find (unresolved attrs) (map cueNumber (dropna_all l))
  = find (unresolved attrs) (map cueNumber l).
Proof.
  induction l as [|r l IH]; [reflexivity|].
  unfold dropna_all in *. cbn [filter map find].
  destruct (all_na r) eqn:E; cbn [negb map find].
  - destruct (all_na_cells r E) as [Ec _]. rewrite Ec. cbn [unresolved]. exact IH.
  - rewrite IH. reflexivity.
Qed.

Lemma find_unresolved_label (attrs : list Attribute) (l : list cell) :
  find (unresolved attrs) (l ++ [Some last_row_storage]) = find (unresolved attrs) l.
Proof.
  induction l as [|c l IH].
  - cbn [app find unresolved]. rewrite String.eqb_refl, andb_false_r. reflexivity.
  - cbn [app find]. rewrite IH. reflexivity.
Qed.

Lemma set_last_row_storage_cue_numbers (rs : list Row) :
  map cueNumber (set_last_row_storage rs) = map cueNumber rs
  \/ map cueNumber (set_last_row_storage rs) = map cueNumber rs ++ [Some last_row_storage].
Proof.
  unfold set_last_row_storage.
  destruct (existsb _ rs).
  - left. rewrite map_map. apply map_ext. intros r.
    destruct (cell_is (cueNumber r) last_row_storage); reflexivity.
  - right. rewrite map_app. reflexivity.
Qed.

Lemma find_unresolved_shifted (attrs : list Attribute) (rs : list Row) :
  find (unresolved attrs)
       (map cueNumber (dropna_all (shift (set_last_row_storage rs))))
  = find (unresolved attrs) (map cueNumber rs).
Proof.
  rewrite find_unresolved_dropna. unfold shift. rewrite shift_down_cue_numbers.
  destruct (set_last_row_storage_cue_numbers rs) as [E|E]; rewrite E.
  - reflexivity.
  - apply find_unresolved_label.
Qed.

(** X: a cue whose prefix does not resolve.  The compiler stops at the
    first cue number of the table, in source order, whose prefix is the
    prefix of no node or of several; the error names that cue and the
    state is the one of before. *)
Theorem unresolved_prefix_rejected (st : ServerData) (df : DataFrame) (c : string) :
  columns_ok df = true -> cue_number_first df = true ->
  find (unresolved (attributes st)) (map cueNumber (rows df)) = Some (Some c) ->
  format_all_cues st df false
  = (st, Raise (FormatError
                  "all cues"
                  ("cue prefix (" ++ c ++ ")")
                  " and you should make sure you assigned a node the prefix in the attributes sheet.")).
Proof.
  intros Hcols Hfirst Hfind. unfold columns_ok in Hcols.
  unfold format_all_cues, try_block. simpl negb. cbv iota zeta.
  unfold __check_columns_names at 1. rewrite Hcols.
  rewrite (try_block_cue_number st df Hfirst). cbn [rows names].
  rewrite (group_loop_unresolved (attributes st) _ c); [reflexivity|].
  rewrite find_unresolved_shifted. exact Hfind.
Qed.

Lemma unresolved_prefix_rejected_witness :
  format_all_cues Show.server Show.script_unknown_prefix false
  = (Show.server,
     Raise (FormatError
              "all cues" "cue prefix (Z1)"
              " and you should make sure you assigned a node the prefix in the attributes sheet.")).
Proof.
  exact (unresolved_prefix_rejected Show.server Show.script_unknown_prefix "Z1"
           eq_refl eq_refl eq_refl).
Defined.

(** *** A cue state the states table does not have *)

Lemma shaped_valid (attrs : list Attribute) (rs : list Row) :
  forallb (shaped_row attrs) rs = true ->
  forallb (valid_row attrs (states_of rs)) rs = true.
Proof.
  intros H. rewrite forallb_forall in *. intros r Hr.
  specialize (H r Hr). unfold shaped_row in H. unfold valid_row, cue_row.
  destruct (all_na r); [reflexivity|]. cbn [orb] in *.
  destruct (cueNumber r) as [cue|]; [|discriminate H].
  rewrite H. cbn [andb].
  repeat (apply andb_true_iff in H; destruct H as [H ?]).
  destruct (cueState r) as [s|] eqn:Es; [|discriminate].
  cbn [in_states]. apply existsb_exists.
  exists {| stCueState := cueState r; initialNodeState := None;
            finalNodeState := None |}.
  split.
  - unfold states_of. apply in_map_iff. exists r. split; [reflexivity | exact Hr].
  - cbn [stCueState]. rewrite Es. cbn [cell_is]. apply String.eqb_refl.
Qed.

Lemma shaped_known_valid (attrs : list Attribute) (sts : list StateRow) (rs : list Row) :
  forallb (shaped_row attrs) rs = true ->
  existsb (unknown_state sts) rs = false ->
  forallb (valid_row attrs sts) rs = true.
Proof.
  induction rs as [|r rs IH]; [reflexivity|].
  cbn [forallb existsb]. intros H K.
  apply andb_true_iff in H. destruct H as [Hr Hrs].
  apply orb_false_iff in K. destruct K as [Kr Krs].
  rewrite (IH Hrs Krs), andb_true_r.
  unfold shaped_row in Hr. unfold unknown_state in Kr. unfold valid_row, cue_row.
  destruct (all_na r); [reflexivity|]. cbn [orb negb andb] in *.
  destruct (cueNumber r) as [cue|]; [|discriminate Hr].
  rewrite Hr. apply negb_false_iff in Kr. rewrite Kr. reflexivity.
Qed.

(** The frame the [try] block builds from a raw table whose rows are
    blank or complete, before the checks that close the block. *)
Lemma try_block_shaped (st : ServerData) (df : DataFrame) :
  columns_ok df = true -> cue_number_first df = true ->
  forallb (shaped_row (attributes st)) (rows df) = true ->
  try_block st df false = (compiled df, check_cue_states (states st) (compiled df)).
Proof.
  intros Hcols Hfirst Hshape. pose proof (shaped_valid _ _ Hshape) as Hrows.
  unfold columns_ok in Hcols.
  unfold try_block. simpl negb. cbv iota zeta.
  unfold __check_columns_names at 1. rewrite Hcols.
  rewrite (try_block_cue_number st df Hfirst).
  rewrite (set_last_row_storage_valid (attributes st) (states_of (rows df))
             (rows df) Hrows).
  change (dropna_all (shift (rows df ++ [blank_cells (Some last_row_storage)])))
    with (shifted_rows (None, None, None) (rows df)).
  cbn [rows names].
  rewrite group_loop_returns.
  - cbn [app].
    rewrite (shift_up_assign (attributes st) (shifted_rows (None, None, None) (rows df))
               0 None).
    rewrite (scan_correct (attributes st) (states_of (rows df)) (rows df) Hrows
               (None, None, None) 0 (or_introl eq_refl)).
    change (full3 (None, None, None)) with false.
    unfold final_checks. fold (compiled df). f_equal.
    unfold __check_columns_names. cbn [names compiled].
    rewrite (formatted_names_ok (names df) Hcols). reflexivity.
  - intros cue Hin. apply shifted_cue_numbers in Hin. destruct Hin as [Hin| ->].
    + exists (Some (strip_digits cue)). apply get_prefix_resolves.
      apply (valid_cue_resolves (attributes st) (states_of (rows df)) (rows df) cue
               Hrows Hin).
    + apply get_prefix_reserved.
Qed.

Lemma assign_groups_unknown (sts : list StateRow) (rs : list Row) : forall g b,
  existsb (fun r => negb (in_states sts (cueState r))) (assign_groups rs g b)
  = existsb (unknown_state sts) rs.
Proof.
  induction rs as [|r rs IH]; intros g b; [reflexivity|].
  cbn [assign_groups existsb]. unfold unknown_state at 1.
  destruct (all_na r); cbn [negb andb orb].
  - apply IH.
  - cbn [existsb compiled_row cueState]. rewrite IH. reflexivity.
Qed.

(** X: an unknown cue state.  For a raw table whose rows are blank or
    complete with a prefix that resolves, the compiler accepts the table
    exactly when every cue state is a state of the states table; one
    unknown state rejects the whole table and leaves the state as it
    was. *)
Theorem unknown_state_rejected (st : ServerData) (df : DataFrame) :
  columns_ok df = true -> cue_number_first df = true ->
  forallb (shaped_row (attributes st)) (rows df) = true ->
  (existsb (unknown_state (states st)) (rows df) = true ->
   format_all_cues st df false
   = (st, Raise (FormatError
                   "all cues" "cue states"
                   ". Make sure the cue states you entered for this sheet match the cue states in the states sheet.")))
  /\ (existsb (unknown_state (states st)) (rows df) = false ->
      format_all_cues st df false = (compiled_state st df, Return tt)).
Proof.
  intros Hcols Hfirst Hshape. split; intros Hu.
  - unfold format_all_cues. rewrite (try_block_shaped st df Hcols Hfirst Hshape).
    unfold check_cue_states. cbn [rows compiled].
    rewrite assign_groups_unknown, Hu. reflexivity.
  - apply format_all_cues_valid. unfold valid_raw_table. rewrite Hcols, Hfirst.
    apply (shaped_known_valid _ _ _ Hshape Hu).
Qed.


Lemma unknown_state_rejected_witness :
  format_all_cues Show.server ShowMore.script_unknown_state false
  = (Show.server,
     Raise (FormatError
              "all cues" "cue states"
              ". Make sure the cue states you entered for this sheet match the cue states in the states sheet.")).
Proof.
  exact (proj1 (unknown_state_rejected Show.server ShowMore.script_unknown_state
                  eq_refl eq_refl eq_refl) eq_refl).
Defined.

(** *** No cue is lost *)

Lemma assign_groups_cells (rs : list Row) : forall g b,
  map cells (assign_groups rs g b) = map cells (filter (fun r => negb (all_na r)) rs).
Proof.
  induction rs as [|r rs IH]; intros g b; [reflexivity|].
  cbn [assign_groups filter]. destruct (all_na r); cbn [negb].
  - apply IH.
  - cbn [map]. rewrite IH. reflexivity.
Qed.

(** X: the compiled frame holds the cue rows of the raw table, all of
    them, in the order of the table and with their four cells as they
    were; the blank rows are gone and no cell of the frame is missing. *)
Theorem compile_keeps_every_cue (st : ServerData) (df : DataFrame) :
  valid_raw_table (attributes st) (states st) df = true ->
  exists st',
    format_all_cues st df false = (st', Return tt)
    /\ map cells (rows (allCues st'))
       = map cells (filter (fun r => negb (all_na r)) (rows df))
    /\ (forall r, In r (rows (allCues st')) ->
          any_na r = false /\ all_na r = false /\ isna (cueGroupNumber r) = false).
Proof.
  intros Hv. exists (compiled_state st df).
  split; [apply (format_all_cues_valid st df Hv)|].
  destruct (compiled_state_fields st df) as [_ [_ [Hall _]]]. rewrite Hall.
  cbn [rows compiled]. split; [apply assign_groups_cells|].
  intros x Hx. destruct (valid_raw_table_parts _ _ _ Hv) as [_ [_ Hrows]].
  destruct (assign_groups_rows _ _ _ Hrows 0 false x Hx) as [r [k [_ [Hc [-> _]]]]].
  destruct (cue_row_cells _ _ r Hc) as [cue [w [a [s [Ec [Ew [Ea [Es _]]]]]]]].
  unfold any_na, all_na, compiled_row. cbn. rewrite Ec, Ew, Ea, Es. split; reflexivity || (split; reflexivity).
Qed.

Lemma compile_keeps_every_cue_witness :
  exists st',
    format_all_cues Show.server Show.script false = (st', Return tt)
    /\ map cells (rows (allCues st')) = map cells [Show.A1; Show.A2; Show.B1; Show.B2].
Proof.
  destruct (compile_keeps_every_cue Show.server Show.script eq_refl)
    as [st' [H1 [H2 _]]].
  exists st'. split; [exact H1 | exact H2].
Defined.

(** *** The state the compiler leaves *)

Lemma group_range_bounds (m g : Z) : In g (group_range m) -> 0 <= g <= m.
Proof.
  unfold group_range. intros H. apply in_map_iff in H.
  destruct H as [n [<- Hn]]. apply in_seq in Hn. lia.
Qed.

Lemma compiled_rows_nonempty (rs : list Row) :
  existsb (fun r => negb (all_na r)) rs = true -> assign_groups rs 0 false <> [].
Proof.
  intros H E. pose proof (assign_groups_cells rs 0 false) as Hc.
  rewrite E in Hc. cbn [map] in Hc. symmetry in Hc. apply map_eq_nil in Hc.
  apply (NavigatorFacts.existsb_filter_nonempty _ _ _ H Hc).
Qed.

Lemma compiled_state_with_cues (st : ServerData) (df : DataFrame) :
  assign_groups (rows df) 0 false <> [] ->
  compiled_state st df
  = at_group (set_maxCueGroup (set_allCues st (compiled df))
                (column_max (map cueGroupNumber (rows (compiled df))))) 0.
Proof.
  intros Hne. unfold compiled_state.
  destruct (rows (compiled df)) as [|x out] eqn:E; [|reflexivity].
  exfalso. apply Hne. exact E.
Qed.

(** X: a valid table with a cue leaves the navigator ready.  The groups
    of the stored frame are exactly 0 .. maxCueGroup, the pointer is at
    group 0, the snapshot is group 0 and the nodes frame is its empty
    shell. *)
Theorem compile_sets_the_stage (st : ServerData) (df : DataFrame) :
  valid_raw_table (attributes st) (states st) df = true ->
  existsb (fun r => negb (all_na r)) (rows df) = true ->
  exists st' m,
    format_all_cues st df false = (st', Return tt)
    /\ maxCueGroup st' = Int m /\ 0 <= m
    /\ consistent st' = true
    /\ cueNum st' = Int 0
    /\ snapshot_current st' /\ keys_match st'
    /\ nodes st' = {| hasLastUpdated := false;
                      nodeRows := map node_shell (currentCues st') |}
    /\ currentCues st' <> [].
Proof.
  intros Hv Hcue. pose proof (format_all_cues_valid st df Hv) as Hrun.
  destruct (valid_raw_table_parts _ _ _ Hv) as [_ [_ Hrows]].
  pose proof (compiled_rows_nonempty (rows df) Hcue) as Hne.
  rewrite (compiled_state_with_cues st df Hne) in Hrun.
  set (st1 := set_maxCueGroup (set_allCues st (compiled df))
                (column_max (map cueGroupNumber (rows (compiled df))))) in *.
  destruct (column_max (map cueGroupNumber (assign_groups (rows df) 0 false)))
    as [m|] eqn:Em.
  2:{ exfalso. apply Hne. apply (compiled_max_nan _ _ _ Hrows). exact Em. }
  assert (Hm1 : maxCueGroup st1 = Int m).
  { unfold st1. cbn [maxCueGroup set_maxCueGroup]. cbn [rows compiled]. exact Em. }
  assert (Hm0 : 0 <= m).
  { apply (compiled_groups_exact _ _ _ m Hrows Em m).
    pose proof (column_max_in _ m Em) as Hin. apply in_map_iff in Hin.
    destruct Hin as [y [Hy Hin]]. exists y. split; assumption. }
  assert (Hcons : consistent st1 = true).
  { unfold consistent. rewrite Hm1. apply andb_true_iff. split; [apply Z.leb_le; exact Hm0|].
    apply forallb_forall. intros g Hg. apply group_range_bounds in Hg.
    apply (compiled_groups_exact _ _ _ m Hrows Em g) in Hg.
    destruct Hg as [r [Hr Hg]]. unfold has_group. apply existsb_exists.
    exists r. split; [exact Hr|]. unfold in_group. rewrite Hg. apply Z.eqb_refl. }
  exists (at_group st1 0), m.
  destruct (NavigatorFacts.at_group_frame st1 0) as [Hall [Hmax [Hnum _]]].
  destruct (NavigatorMore.at_group_invariants st1 0) as [Hsnap [Hkeys _]].
  split; [exact Hrun|]. split; [rewrite Hmax; exact Hm1|]. split; [exact Hm0|].
  split; [rewrite NavigatorFacts.at_group_consistent; exact Hcons|].
  split; [exact Hnum|]. split; [exact Hsnap|]. split; [exact Hkeys|].
  split; [reflexivity|].
  unfold at_group. cbn [currentCues reset_nodes set_nodes set_currentCues].
  intros E. apply map_eq_nil in E.
  assert (H0 : has_group 0 (allCues st1) = true)
    by (apply (NavigatorFacts.consistent_has_group st1 m 0 Hcons Hm1); lia).
  apply (NavigatorFacts.existsb_filter_nonempty _ _ _ H0). exact E.
Qed.

Lemma compile_sets_the_stage_witness :
  exists st' m,
    format_all_cues Show.server Show.script false = (st', Return tt)
    /\ maxCueGroup st' = Int m /\ consistent st' = true /\ cueNum st' = Int 0.
Proof.
  destruct (compile_sets_the_stage Show.server Show.script eq_refl eq_refl)
    as [st' [m [H1 [H2 [_ [H3 [H4 _]]]]]]].
  exists st', m. split; [exact H1|]. split; [exact H2|]. split; [exact H3 | exact H4].
Defined.

Lemma labelled_blank (ix : column) : all_na (labelled ix None) = true.
Proof. destruct ix; reflexivity. Qed.

Lemma blank_no_label (ix : column) (rs : list Row) :
  forallb all_na rs = true ->
  existsb (fun r => cell_is (get_cell ix r) last_row_storage) rs = false.
Proof.
  induction rs as [|r rs IH]; [reflexivity|].
  cbn [forallb existsb]. intros H. apply andb_true_iff in H. destruct H as [Hr Hrs].
  rewrite (IH Hrs), orb_false_r.
  destruct (all_na_cells r Hr) as [E1 [E2 [E3 E4]]].
  destruct ix; cbn [get_cell]; rewrite ?E1, ?E2, ?E3, ?E4; reflexivity.
Qed.

(** Blank rows above the added row: after the shift only the added row
    is left. *)
Lemma shift_from_blank (ix : column) (rs : list Row) : forall prev,
  all_na prev = true -> forallb all_na rs = true ->
  dropna_all (shift_from ix prev (rs ++ [labelled ix (Some last_row_storage)]))
  = [labelled ix (Some last_row_storage)].
Proof.
  induction rs as [|r rs IH]; intros prev Hp Hrs.
  - destruct (all_na_cells prev Hp) as [E1 [E2 [E3 E4]]].
    cbn [app shift_from]. unfold cells_but.
    destruct ix; cbn [labelled cueGroupNumber cueNumber cuePrefix when action cueState];
      rewrite ?E1, ?E2, ?E3, ?E4; reflexivity.
  - cbn [forallb] in Hrs. apply andb_true_iff in Hrs. destruct Hrs as [Hr Hrs].
    cbn [app shift_from]. unfold dropna_all. cbn [filter].
    assert (Hb : all_na (cells_but ix r prev) = true).
    { destruct (all_na_cells prev Hp) as [E1 [E2 [E3 E4]]].
      destruct (all_na_cells r Hr) as [F1 [F2 [F3 F4]]].
      unfold all_na, cells_but. destruct ix; cbn [cueNumber when action cueState];
        rewrite ?E1, ?E2, ?E3, ?E4, ?F1, ?F2, ?F3, ?F4; reflexivity. }
    rewrite Hb. cbn [negb]. apply (IH r Hr Hrs).
Qed.

Lemma try_block_without_cues (st : ServerData) (df : DataFrame) :
  columns_ok df = true ->
  forallb all_na (rows df) = true ->
  try_block st df false
  = ({| names := formatted_names (names df); rows := [] |}, Return tt).
Proof.
  intros Hcols Hblank. unfold columns_ok in Hcols.
  unfold try_block. simpl negb. cbv iota zeta.
  unfold __check_columns_names at 1. rewrite Hcols.
  unfold loc_last_row_storage. rewrite (blank_no_label _ _ Hblank).
  unfold shift_frame.
  rewrite (shift_from_blank _ _ _ (labelled_blank _) Hblank).
  cbn [rows names map].
  assert (Hloop : exists g p,
            group_loop (attributes st)
              [cueNumber (labelled (index_column df) (Some last_row_storage))]
              0 [] [None]
            = Return ([g], [None; p])).
  { destruct (index_column df); cbn [labelled cueNumber group_loop].
    - destruct (get_prefix_reserved (attributes st)) as [p Hp]. rewrite Hp.
      exists 0, p. reflexivity.
    - exists 1, None. reflexivity.
    - exists 1, None. reflexivity.
    - exists 1, None. reflexivity. }
  destruct Hloop as [g [p Hloop]]. rewrite Hloop.
  unfold final_checks. f_equal.
  unfold __check_columns_names. cbn [names].
  rewrite (formatted_names_ok (names df) Hcols). reflexivity.
Qed.

(** X: a table without any cue.  An empty table, or one of blank rows
    only, is accepted: the stored frame becomes empty and the maximum
    [nan], while the pointer, the snapshot and the nodes frame stay those
    of the show before; no warp is possible afterwards. *)
Theorem compile_without_cues (st : ServerData) (df : DataFrame) :
  columns_ok df = true ->
  forallb all_na (rows df) = true ->
  format_all_cues st df false = (without_cues st df, Return tt)
  /\ cueNum (without_cues st df) = cueNum st
  /\ currentCues (without_cues st df) = currentCues st
  /\ nodes (without_cues st df) = nodes st
  /\ consistent (without_cues st df) = false
  /\ (forall n, warp_cue (without_cues st df) n = (without_cues st df, Return false)).
Proof.
  intros Hcols Hblank. split.
  - unfold format_all_cues. rewrite (try_block_without_cues st df Hcols Hblank).
    reflexivity.
  - repeat (split; [reflexivity|]). intros n. reflexivity.
Qed.

Lemma compile_without_cues_witness :
  format_all_cues Show.server ShowMore.script_blank false
  = (without_cues Show.server ShowMore.script_blank, Return tt)
  /\ currentCues (without_cues Show.server ShowMore.script_blank)
     = currentCues Show.server.
Proof.
  destruct (compile_without_cues Show.server ShowMore.script_blank eq_refl eq_refl)
    as [H1 [_ [H2 _]]].
  split; [exact H1 | exact H2].
Defined.


(** *** The formatted path *)

Lemma no_group_title (ns : list string) :
  list_eqb (sort ns) (sort raw_column_names) = true -> ~ In "Cue Group Number" ns.
Proof.
  intros H Hin. apply sorted_equal_iff in H.
  pose proof (Permutation_in _ H Hin) as Hraw.
  cbn in Hraw. repeat (destruct Hraw as [Hraw|Hraw]; [discriminate Hraw|]).
  exact Hraw.
Qed.

Lemma filter_titles (ns : list string) :
  ~ In "Cue Group Number" ns ->
  filter (fun n => negb (String.eqb n "Cue Group Number")
                   && negb (String.eqb n "Cue Number"))
         (filter (fun n => negb (String.eqb n "Cue Number")) ns)
  = filter (fun n => negb (String.eqb n "Cue Number")) ns.
Proof.
  induction ns as [|n ns IH]; intros Hn; [reflexivity|].
  cbn [filter]. destruct (String.eqb n "Cue Number") eqn:E; cbn [negb].
  - apply IH. intros H. apply Hn. right. exact H.
  - cbn [filter]. rewrite E.
    destruct (String.eqb n "Cue Group Number") eqn:G.
    + exfalso. apply Hn. left. apply String.eqb_eq in G. exact G.
    + cbn [negb andb]. rewrite IH; [reflexivity|].
      intros H. apply Hn. right. exact H.
Qed.

Lemma reindexed_compiled (df : DataFrame) :
  columns_ok df = true -> reindexed (compiled df) = compiled df.
Proof.
  intros Hcols. unfold reindexed, compiled. cbn [names rows]. f_equal.
  unfold formatted_names at 2. f_equal. f_equal.
  unfold formatted_names. cbn [filter String.eqb Ascii.eqb Bool.eqb negb andb].
  f_equal. apply filter_titles. apply no_group_title. exact Hcols.
Qed.

Lemma try_block_compiled (st : ServerData) (df : DataFrame) :
  valid_raw_table (attributes st) (states st) df = true ->
  try_block st (compiled df) true = (compiled df, Return tt).
Proof.
  intros Hv. destruct (valid_raw_table_parts _ _ _ Hv) as [Hcols [_ Hrows]].
  unfold try_block. cbn [negb].
  change (has_name "Cue Group Number" (compiled df)
          && has_name "Cue Number" (compiled df)) with true. cbv iota.
  fold (reindexed (compiled df)). rewrite (reindexed_compiled df Hcols).
  unfold final_checks. f_equal.
  unfold __check_columns_names. cbn [names compiled].
  rewrite (formatted_names_ok (names df) Hcols). simpl bind.
  unfold check_cue_states. cbn [rows compiled].
  rewrite (assign_groups_states (attributes st) (states st) (rows df) Hrows).
  reflexivity.
Qed.

Lemma compiled_state_twice (st : ServerData) (df : DataFrame) :
  compiled_state (compiled_state st df) df = compiled_state st df.
Proof.
  unfold compiled_state.
  destruct (rows (compiled df)) as [|x out]; destruct st; reflexivity.
Qed.

(** X: the compiled frame read back.  Handing the compiled frame in
    with [formatted] set gives what compiling the raw table gives, and
    handing the stored frame of a state just compiled back to that state
    changes nothing. *)
Theorem formatted_round_trip (st : ServerData) (df : DataFrame) :
  valid_raw_table (attributes st) (states st) df = true ->
  format_all_cues st (compiled df) true = format_all_cues st df false
  /\ (forall st', format_all_cues st df false = (st', Return tt) ->
        allCues st' = compiled df
        /\ format_all_cues st' (allCues st') true = (st', Return tt)).
Proof.
  intros Hv.
  assert (Hsame : forall s, valid_raw_table (attributes s) (states s) df = true ->
            format_all_cues s (compiled df) true = (compiled_state s df, Return tt)).
  { intros s Hs. rewrite <- (format_all_cues_valid s df Hs).
    unfold format_all_cues.
    rewrite (try_block_compiled s df Hs), (try_block_valid s df Hs). reflexivity. }
  split.
  - rewrite (Hsame st Hv). symmetry. apply (format_all_cues_valid st df Hv).
  - intros st' Hrun. rewrite (format_all_cues_valid st df Hv) in Hrun.
    inversion Hrun as [Hst]. clear Hrun.
    destruct (compiled_state_fields st df) as [Ha [Hs [Hall _]]].
    split; [exact Hall|]. rewrite Hall.
    rewrite (Hsame (compiled_state st df)) by (rewrite Ha, Hs; exact Hv).
    rewrite compiled_state_twice. reflexivity.
Qed.

Lemma formatted_round_trip_witness :
  format_all_cues Show.server (compiled Show.script) true
  = format_all_cues Show.server Show.script false.
Proof.
  exact (proj1 (formatted_round_trip Show.server Show.script eq_refl)).
Defined.

(** *** [update_max_cue_group] *)

Lemma column_max_nan (col : list (option Z)) :
  column_max col = NaN <-> forall c, In c col -> c = None.
Proof.
  induction col as [|c col IH]; cbn [column_max].
  - split; [intros _ c [] | reflexivity].
  - destruct c as [z|].
    + split.
      * intros H. destruct (column_max col); discriminate H.
      * intros H. specialize (H (Some z) (or_introl eq_refl)). discriminate H.
    + rewrite IH. split.
      * intros H c [<-|Hc]; [reflexivity | apply H; exact Hc].
      * intros H c Hc. apply H. right. exact Hc.
Qed.

(** X: the maximum group.  With the group column in the stored frame
    the call returns and changes [maxCueGroup] only: it is the largest
    group number of the frame, attained by a row, and [nan] exactly when
    no row carries a group number; without the column the call raises
    [KeyError] and changes nothing. *)
Theorem update_max_cue_group_is_max (st : ServerData) :
  (has_name "Cue Group Number" (allCues st) = true ->
   exists st',
     update_max_cue_group st = (st', Return tt)
     /\ st' = set_maxCueGroup st (maxCueGroup st')
     /\ (forall m, maxCueGroup st' = Int m ->
           (exists r, In r (rows (allCues st)) /\ cueGroupNumber r = Some m)
           /\ (forall r k, In r (rows (allCues st)) -> cueGroupNumber r = Some k ->
                 k <= m))
     /\ (maxCueGroup st' = NaN
         <-> forall r, In r (rows (allCues st)) -> cueGroupNumber r = None))
  /\ (has_name "Cue Group Number" (allCues st) = false ->
      update_max_cue_group st = (st, Raise KeyError)).
Proof.
  unfold update_max_cue_group. split; intros H; rewrite H; [|reflexivity].
  exists (set_maxCueGroup st (column_max (map cueGroupNumber (rows (allCues st))))).
  split; [reflexivity|]. split; [reflexivity|].
  cbn [maxCueGroup set_maxCueGroup]. split.
  - intros m Hm. split.
    + pose proof (column_max_in _ m Hm) as Hin. apply in_map_iff in Hin.
      destruct Hin as [r [Hr Hin]]. exists r. split; assumption.
    + intros r k Hr Hk. apply (column_max_ge _ m k Hm).
      rewrite <- Hk. apply in_map. exact Hr.
  - rewrite column_max_nan. split.
    + intros Hn r Hr. apply Hn. apply in_map. exact Hr.
    + intros Hn c Hc. apply in_map_iff in Hc. destruct Hc as [r [<- Hr]].
      apply Hn. exact Hr.
Qed.


Lemma update_max_cue_group_is_max_witness :
  exists st',
    update_max_cue_group Show.server = (st', Return tt)
    /\ st' = set_maxCueGroup Show.server (maxCueGroup st').
Proof.
  destruct (proj1 (update_max_cue_group_is_max Show.server) eq_refl)
    as [st' [H1 [H2 _]]].
  exists st'. split; [exact H1 | exact H2].
Defined.


End CompilerEdges.

(** ** The error log *)

Module ErrorLogFacts.

Import ErrorStorage.

Local Open Scope string_scope.
Local Open Scope list_scope.

Lemma existsb_eqb_in (t : string) (errors : list string) :
  existsb (String.eqb t) errors = true <-> In t errors.
Proof.
  rewrite existsb_exists. split.
  - intros [x [Hx E]]. apply String.eqb_eq in E. subst x. exact Hx.
  - intros H. exists t. split; [exact H | apply String.eqb_refl].
Qed.

Lemma update_in (errors : list string) (trace t : string) :
  In t (update errors trace) <-> In t errors \/ t = trace.
Proof.
  unfold update. destruct (existsb (String.eqb trace) errors) eqn:E.
  - apply existsb_eqb_in in E. split; [intros H; left; exact H|].
    intros [H| ->]; assumption.
  - rewrite in_app_iff. cbn [In]. split.
    + intros [H|[H|[]]]; [left; exact H | right; symmetry; exact H].
    + intros [H| ->]; [left; exact H | right; left; reflexivity].
Qed.

Lemma update_nodup (errors : list string) (trace : string) :
  NoDup errors -> NoDup (update errors trace).
Proof.
  intros H. unfold update. destruct (existsb (String.eqb trace) errors) eqn:E;
    [exact H|].
  assert (Hn : ~ In trace errors).
  { intros Hin. apply existsb_eqb_in in Hin. rewrite Hin in E. discriminate E. }
  apply NoDup_app; [exact H | constructor; [intros [] | constructor] |].
  intros x Hx [<-|[]]. apply Hn. exact Hx.
Qed.

Lemma update_known (errors : list string) (trace : string) :
  In trace errors -> update errors trace = errors.
Proof.
  intros H. unfold update. apply existsb_eqb_in in H. rewrite H. reflexivity.
Qed.

Lemma update_extends (errors : list string) (trace : string) :
  exists new, update errors trace = errors ++ new /\ (List.length new <= 1)%nat.
Proof.
  unfold update. destruct (existsb _ _).
  - exists []. rewrite app_nil_r. split; [reflexivity | cbn; lia].
  - exists [trace]. split; [reflexivity | cbn; lia].
Qed.

(** The log of a run of failures.  From a log without repetition, one
    [update] per failure leaves a log without repetition that holds the
    old entries first, in their order, and then each new traceback once,
    however often the failure came back: a traceback already in the log
    adds nothing, so the log grows by at most one entry per distinct
    traceback.  The log is empty, hence false as a truth value, only when
    it was empty and nothing failed; [clear] empties it. *)
Theorem error_log_keeps_one_of_each (errors traces : list string) :
  NoDup errors ->
  NoDup (log errors traces)
  /\ (forall t, In t (log errors traces) <-> In t errors \/ In t traces)
  /\ (exists new, log errors traces = errors ++ new
                  /\ (List.length new <= List.length traces)%nat)
  /\ (forall t, In t errors \/ In t traces ->
        update (log errors traces) t = log errors traces)
  /\ (truth (log errors traces) = false <-> errors = [] /\ traces = [])
  /\ truth (clear (log errors traces)) = false.
Proof.
  revert errors. induction traces as [|trace traces IH]; intros errors Hnd.
  - cbn [log fold_left]. split; [exact Hnd|]. split; [|split; [|split; [|split]]].
    + intros t. cbn [In]. tauto.
    + exists []. rewrite app_nil_r. split; [reflexivity | cbn; lia].
    + intros t [H|[]]. apply (update_known errors t H).
    + destruct errors as [|x errors]; cbn [truth]; split.
      * intros _. split; reflexivity.
      * reflexivity.
      * discriminate.
      * intros [H _]. discriminate H.
    + reflexivity.
  - unfold log in *. cbn [fold_left].
    destruct (IH (update errors trace) (update_nodup errors trace Hnd))
      as [H1 [H2 [[new [H3 H3']] [H4 [H5 _]]]]].
    split; [exact H1|]. split; [|split; [|split; [|split]]].
    + intros t. rewrite H2, update_in. cbn [In]. split.
      * intros [[H| ->]|H]; auto.
      * intros [H|[<-|H]]; auto.
    + destruct (update_extends errors trace) as [one [E Elen]].
      exists (one ++ new). rewrite H3, E, app_assoc. split; [reflexivity|].
      rewrite length_app. cbn [List.length]. lia.
    + intros t Ht. apply H4. rewrite update_in. cbn [In] in Ht.
      destruct Ht as [H|[<-|H]]; auto.
    + split.
      * intros Hf. apply H5 in Hf. destruct Hf as [Hu _]. exfalso.
        assert (Hin : In trace (update errors trace))
          by (apply update_in; right; reflexivity).
        rewrite Hu in Hin. exact Hin.
      * intros [_ H]. discriminate H.
    + reflexivity.
Qed.

(** A log read from a missing file, and a failure that comes back. *)
Lemma error_log_keeps_one_of_each_witness :
  log (error_load None) ["KeyError: 1"; "ValueError"; "KeyError: 1"]
  = error_load None ++ ["KeyError: 1"; "ValueError"]
  /\ NoDup (log (error_load None) ["KeyError: 1"; "ValueError"; "KeyError: 1"]).
Proof.
  split; [reflexivity|].
  apply (proj1 (error_log_keeps_one_of_each (error_load None)
                  ["KeyError: 1"; "ValueError"; "KeyError: 1"] (NoDup_nil _))).
Defined.

End ErrorLogFacts.

(** ** The poll of the node channel *)

Module PollFacts.

Import Communication.
Import ServerDataManagement.
Import Server.

Local Open Scope list_scope.
Local Open Scope Z_scope.

(** One round of the poll.  An answer without records leaves the data
    alone; an answer with records, one or many, goes to [format_nodes] as
    a list; an answer the decoder raises on changes nothing at all.  So
    one record that does not unpickle silences the whole answer: the
    reports that came with it are not merged.  Whatever the answer, the
    round changes nothing of the data but the nodes frame, and never the
    cue numbers of its rows. *)
Theorem poll_round (loads : bytes -> load_outcome Series) (s : ServerState)
    (output : bytes) (now : Z) :
  (__data_decode loads output = Return [] ->
   data (fst (get_node_series_round loads s output now)) = data s
   /\ snd (get_node_series_round loads s output now) = Return tt)
  /\ (forall series rest, __data_decode loads output = Return (series :: rest) ->
        data (fst (get_node_series_round loads s output now))
        = fst (format_nodes (data s) now (Some (series :: rest)))
        /\ snd (get_node_series_round loads s output now)
           = snd (format_nodes (data s) now (Some (series :: rest))))
  /\ (forall e, __data_decode loads output = Raise e ->
        get_node_series_round loads s output now = (s, Raise e))
  /\ (forall elements,
        records output = Return elements ->
        (forall e, In e elements -> loads e <> RaiseOther) ->
        Exists (fun e => loads e = RaiseUnpickling) elements ->
        data (fst (get_node_series_round loads s output now)) = data s
        /\ snd (get_node_series_round loads s output now) = Return tt)
  /\ (exists ns,
        data (fst (get_node_series_round loads s output now)) = set_nodes (data s) ns
        /\ map nCueNumber (nodeRows ns) = map nCueNumber (nodeRows (nodes (data s)))).
Proof.
  assert (Hnone : __data_decode loads output = Return [] ->
            data (fst (get_node_series_round loads s output now)) = data s
            /\ snd (get_node_series_round loads s output now) = Return tt).
  { intros H. unfold get_node_series_round, receive_data. rewrite H.
    split; reflexivity. }
  assert (Hsome : forall series rest,
            __data_decode loads output = Return (series :: rest) ->
            data (fst (get_node_series_round loads s output now))
            = fst (format_nodes (data s) now (Some (series :: rest)))
            /\ snd (get_node_series_round loads s output now)
               = snd (format_nodes (data s) now (Some (series :: rest)))).
  { intros series rest H. unfold get_node_series_round, receive_data. rewrite H.
    rewrite andb_false_r.
    destruct (format_nodes (data s) now (Some (series :: rest))) as [d out].
    split; reflexivity. }
  assert (Hraise : forall e, __data_decode loads output = Raise e ->
            get_node_series_round loads s output now = (s, Raise e)).
  { intros e H. unfold get_node_series_round, receive_data. rewrite H.
    destruct s; reflexivity. }
  split; [exact Hnone|]. split; [exact Hsome|]. split; [exact Hraise|]. split.
  - intros elements Hrec Hother Hbad. apply Hnone.
    unfold __data_decode. rewrite Hrec. cbn [bind].
    destruct (CommunicationFacts.loads_all_cases Series loads elements Hother)
      as [Hall|[_ Hun]].
    + exfalso. apply Exists_exists in Hbad. destruct Hbad as [e [He Hu]].
      rewrite Forall_forall in Hall. destruct (Hall e He) as [v Hv]. congruence.
    + rewrite Hun. reflexivity.
  - destruct (__data_decode loads output) as [[|series rest]|e] eqn:E.
    + exists (nodes (data s)). rewrite (proj1 (Hnone eq_refl)).
      split; [symmetry; apply AggregatorFacts.set_nodes_same | reflexivity].
    + rewrite (proj1 (Hsome series rest eq_refl)).
      apply AggregatorFrame.format_nodes_frame.
    + rewrite (Hraise e eq_refl). exists (nodes (data s)).
      split; [symmetry; apply AggregatorFacts.set_nodes_same | reflexivity].
Qed.

(** An answer of one record that is no pickle, under a [loads] that
    knows no pickle at all: the data is as it was. *)
Lemma poll_round_witness :
  let loads := fun _ : bytes => @RaiseUnpickling Series in
  let s := {| data := Show.server;
              communication := {| sent_data_dict := []; received_data_dict := [] |} |} in
  data (fst (get_node_series_round loads s [x78; x2e] 0)) = Show.server
  /\ snd (get_node_series_round loads s [x78; x2e] 0) = Return tt.
Proof.
  intros loads s.
  apply (proj1 (proj2 (proj2 (proj2 (poll_round loads s [x78; x2e] 0))))
           [[x78; x2e]] eq_refl).
  - intros e _ H. discriminate H.
  - constructor. reflexivity.
Defined.

End PollFacts.
